(** * Lattice-parameter sweep for simple cubic Cu: generator and analysis

    A shallow embedding of [calculations/generate_files.py] and
    [calculations/analyze_results.py].

    - Python and numpy [float64] values are IEEE 754 binary64 numbers.  They
      are represented by the Standard Library's [spec_float]; every
      arithmetic operation is the exact rational result rounded to nearest,
      ties to even, as IEEE 754 prescribes.
    - Python [str] values are [string]s whose characters are read as code
      points below 256.
    - [re.search] is a backtracking matcher for the fragment of regular
      expressions the two scripts use.
    - The numpy routines the scripts call are transcribed from numpy's
      sources ([linspace], [argmin], [poly1d], [min], [max]); [np.polyfit]
      and [np.argsort] are parameters of the analysis. *)

From Stdlib Require Import ZArith QArith Qabs Qpower List String Ascii Bool.
From Stdlib Require Import Lia Lqa.
From Stdlib Require Import SpecFloat DecimalString Permutation Sorted.
Import ListNotations.

Set Implicit Arguments.

(** ** Binary64 arithmetic *)

Module F64.

Local Open Scope Z_scope.

Definition prec : Z := 53.
Definition emax : Z := 1024.
Definition emin : Z := 3 - emax - prec.

Definition float := spec_float.

Definition pow2 (k : Z) : Q := (2 ^ k)%Q.

(** The rational value of a finite float; zeros, infinities and NaN map
    to 0 and are told apart by the constructors. *)
Definition F2Q (x : float) : Q :=
  match x with
  | S754_finite s m e =>
      ((if s then inject_Z (Zneg m) else inject_Z (Zpos m)) * pow2 e)%Q
  | _ => 0%Q
  end.

(** [scale n d e] is the fraction [(n/d) / 2^e], as numerator and
    denominator. *)
Definition scale (n d e : Z) : Z * Z :=
  if 0 <=? e then (n, d * 2 ^ e) else (n * 2 ^ (- e), d).

(** [ilog2 n d] is the integer [k] with [2^k <= n/d < 2^(k+1)]. *)
Definition ilog2 (n d : positive) : Z :=
  let k := Z.log2 (Zpos n) - Z.log2 (Zpos d) in
  let (N, D) := scale (Zpos n) (Zpos d) k in
  if D <=? N then k else k - 1.

(** Nearest integer to [N/D], ties to even. *)
Definition rne_div (N D : Z) : Z :=
  let q := N / D in
  match 2 * (N mod D) ?= D with
  | Lt => q
  | Gt => q + 1
  | Eq => if Z.even q then q else q + 1
  end.

(** Exponent of the last mantissa bit of the binade of [n/d]. *)
Definition cexp (n d : positive) : Z := Z.max (ilog2 n d + 1 - prec) emin.

(** Rounding of the positive rational [n/d], with sign [s]. *)
Definition round_pos (s : bool) (n d : positive) : float :=
  let c := cexp n d in
  let (N, D) := scale (Zpos n) (Zpos d) c in
  let m := rne_div N D in
  let (m', c') := if m =? 2 ^ prec then (2 ^ (prec - 1), c + 1) else (m, c) in
  match m' with
  | Zpos p => if c' <=? emax - prec then S754_finite s p c' else S754_infinity s
  | _ => S754_zero s
  end.

(** Round to nearest, ties to even; overflow gives an infinity. *)
Definition Q2F (q : Q) : float :=
  match Qnum q with
  | Z0 => S754_zero false
  | Zpos n => round_pos false n (Qden q)
  | Zneg n => round_pos true n (Qden q)
  end.

Definition Z2F (z : Z) : float := Q2F (inject_Z z).

Definition is_nan (x : float) : bool :=
  match x with S754_nan => true | _ => false end.

Definition fneg (x : float) : float :=
  match x with
  | S754_zero s => S754_zero (negb s)
  | S754_infinity s => S754_infinity (negb s)
  | S754_nan => S754_nan
  | S754_finite s m e => S754_finite (negb s) m e
  end.

Definition fadd (x y : float) : float :=
  match x, y with
  | S754_nan, _ | _, S754_nan => S754_nan
  | S754_infinity s1, S754_infinity s2 =>
      if Bool.eqb s1 s2 then x else S754_nan
  | S754_infinity _, _ => x
  | _, S754_infinity _ => y
  | S754_zero s1, S754_zero s2 => S754_zero (s1 && s2)
  | S754_zero _, _ => y
  | _, S754_zero _ => x
  | _, _ => Q2F (F2Q x + F2Q y)
  end.

Definition fsub (x y : float) : float := fadd x (fneg y).

Definition sign_of (x : float) : bool :=
  match x with
  | S754_zero s | S754_infinity s | S754_finite s _ _ => s
  | S754_nan => false
  end.

Definition fmul (x y : float) : float :=
  let s := xorb (sign_of x) (sign_of y) in
  match x, y with
  | S754_nan, _ | _, S754_nan => S754_nan
  | S754_infinity _, S754_zero _ | S754_zero _, S754_infinity _ => S754_nan
  | S754_infinity _, _ | _, S754_infinity _ => S754_infinity s
  | S754_zero _, _ | _, S754_zero _ => S754_zero s
  | _, _ => Q2F (F2Q x * F2Q y)
  end.

Definition fdiv (x y : float) : float :=
  let s := xorb (sign_of x) (sign_of y) in
  match x, y with
  | S754_nan, _ | _, S754_nan => S754_nan
  | S754_infinity _, S754_infinity _ | S754_zero _, S754_zero _ => S754_nan
  | S754_infinity _, _ | _, S754_zero _ => S754_infinity s
  | S754_zero _, _ | _, S754_infinity _ => S754_zero s
  | _, _ => Q2F (F2Q x / F2Q y)
  end.

(** Comparison; [None] when an operand is NaN. *)
Definition fcompare (x y : float) : option comparison :=
  match x, y with
  | S754_nan, _ | _, S754_nan => None
  | S754_infinity s1, S754_infinity s2 =>
      Some (match s1, s2 with
            | true, false => Lt
            | false, true => Gt
            | _, _ => Eq
            end)
  | S754_infinity s, _ => Some (if s then Lt else Gt)
  | _, S754_infinity s => Some (if s then Gt else Lt)
  | _, _ => Some (F2Q x ?= F2Q y)%Q
  end.

Definition fle (x y : float) : bool :=
  match fcompare x y with Some Lt | Some Eq => true | _ => false end.

Definition flt (x y : float) : bool :=
  match fcompare x y with Some Lt => true | _ => false end.

Definition feq (x y : float) : bool :=
  match fcompare x y with Some Eq => true | _ => false end.

(** Position of a float relative to the finite ones: below, among, above. *)
Definition lvl (x : float) : Z :=
  match x with
  | S754_infinity true => -1
  | S754_infinity false => 1
  | _ => 0
  end.

(** [floor] of a float as an integer (the cast of [astype(int)] after
    [np.floor]); only used on finite values. *)
Definition ffloor (x : float) : Z :=
  let q := F2Q x in Qnum q / Zpos (Qden q).

End F64.

(** ** Strings, [re.search], [float] and [format] *)

Module Text.

Import F64.
Local Open Scope string_scope.

Fixpoint drop (n : nat) (s : string) : string :=
  match n, s with
  | O, _ => s
  | S n', String _ r => drop n' r
  | S _, EmptyString => EmptyString
  end.

Fixpoint take (n : nat) (s : string) : string :=
  match n, s with
  | O, _ => EmptyString
  | S n', String c r => String c (take n' r)
  | S _, EmptyString => EmptyString
  end.

Fixpoint forallb_str (p : ascii -> bool) (s : string) : bool :=
  match s with
  | EmptyString => true
  | String c r => p c && forallb_str p r
  end.

Fixpoint repeat_str (s : string) (n : nat) : string :=
  match n with
  | O => EmptyString
  | S n' => s ++ repeat_str s n'
  end.

(** *** Character classes of the [re] module on [str] patterns *)

Definition is_digit (c : ascii) : bool :=
  let n := nat_of_ascii c in (48 <=? n)%nat && (n <=? 57)%nat.

(** [\s]: the code points below 256 for which [str.isspace] holds. *)
Definition is_space (c : ascii) : bool :=
  let n := nat_of_ascii c in
  ((9 <=? n)%nat && (n <=? 13)%nat) || ((28 <=? n)%nat && (n <=? 32)%nat)
  || (n =? 133)%nat || (n =? 160)%nat.

(** [[\d.]] *)
Definition cls_digit_dot (c : ascii) : bool :=
  is_digit c || Ascii.eqb c ".".

(** [[-\d.]] *)
Definition cls_minus_digit_dot (c : ascii) : bool :=
  Ascii.eqb c "-" || is_digit c || Ascii.eqb c ".".

(** *** Regular expressions

    The patterns of the scripts are sequences of literal text, greedy
    [+]-repetitions of a character class, and one capturing group around
    such a repetition. *)

Inductive item : Type :=
| Lit (s : string)
| Plus (cls : ascii -> bool)
| CapPlus (cls : ascii -> bool).

Definition regex := list item.

(** Length of the longest prefix of [s] made of characters of [p]. *)
Fixpoint span (p : ascii -> bool) (s : string) : nat :=
  match s with
  | String c r => if p c then S (span p r) else O
  | EmptyString => O
  end.

(** Greedy repetition: try [k], then [k-1], ... down to one character. *)
Fixpoint backtrack {A : Type} (k : nat) (f : nat -> option A) : option A :=
  match k with
  | O => None
  | S k' => match f k with
            | Some r => Some r
            | None => backtrack k' f
            end
  end.

(** Match [re] at the start of [s]; the result is the text of group 1. *)
Fixpoint match_here (re : regex) (s : string) (cap : string) : option string :=
  match re with
  | [] => Some cap
  | Lit l :: re' =>
      if prefix l s then match_here re' (drop (length l) s) cap else None
  | Plus p :: re' =>
      backtrack (span p s) (fun k => match_here re' (drop k s) cap)
  | CapPlus p :: re' =>
      backtrack (span p s) (fun k => match_here re' (drop k s) (take k s))
  end.

(** [re.search(re, s)] followed by [.group(1)]: the leftmost match. *)
Fixpoint re_search (re : regex) (s : string) : option string :=
  match match_here re s "" with
  | Some g => Some g
  | None => match s with
            | EmptyString => None
            | String _ r => re_search re r
            end
  end.

(** *** [float(s)]

    Restricted to the strings the two capturing groups can produce (text
    over [-], digits and [.]): an optional leading minus, then digits with
    at most one point and at least one digit.  Any other such string makes
    [float] raise [ValueError], here [None]. *)

Definition digit_val (c : ascii) : Z := Z.of_nat (nat_of_ascii c) - 48.

Fixpoint digits_val (acc : Z) (s : string) : Z :=
  match s with
  | EmptyString => acc
  | String c r => digits_val (10 * acc + digit_val c) r
  end.

Definition signed (neg : bool) (n : Z) (d : positive) : float :=
  match n with
  | Zpos p => round_pos neg p d
  | _ => S754_zero neg
  end.

Definition py_float (s : string) : option float :=
  let (neg, body) :=
    match s with
    | String "-" r => (true, r)
    | _ => (false, s)
    end in
  let k := span is_digit body in
  let ip := take k body in
  match drop k body with
  | EmptyString =>
      if (k =? 0)%nat then None else Some (signed neg (digits_val 0 ip) 1)
  | String "." fp =>
      if forallb_str is_digit fp && negb ((k =? 0)%nat && (length fp =? 0)%nat)
      then Some (signed neg (digits_val 0 (ip ++ fp))
                        (Z.to_pos (10 ^ Z.of_nat (length fp))))
      else None
  | String _ _ => None
  end.

(** *** [format(x, '.<nd>f')] *)

Definition dec (z : Z) : string :=
  NilZero.string_of_uint (N.to_uint (Z.to_N z)).

Definition pad_left (n : nat) (s : string) : string :=
  repeat_str "0" (n - length s) ++ s.

(** [fixed nd N] prints the integer [N] as a decimal with [nd] fractional
    digits, [N] counting units of [10^-nd]. *)
Definition fixed (nd : nat) (N : Z) : string :=
  let p := (10 ^ Z.of_nat nd)%Z in
  dec (N / p) ++ (if (nd =? 0)%nat then "" else "." ++ pad_left nd (dec (N mod p))).

Definition sign_str (s : bool) : string := if s then "-" else "".

Definition format_f (nd : nat) (x : float) : string :=
  match x with
  | S754_nan => "nan"
  | S754_infinity s => sign_str s ++ "inf"
  | S754_zero s => sign_str s ++ fixed nd 0
  | S754_finite s m e =>
      let (N, D) := scale (Zpos m * 10 ^ Z.of_nat nd) 1 (- e) in
      sign_str s ++ fixed nd (rne_div N D)
  end.

(** The character U+00C5 and the line feed. *)
Definition angstrom : string := String (ascii_of_nat 197) "".

Definition newline : string := String (ascii_of_nat 10) "".

(** The two patterns. *)

(** [r'!\s+total energy\s+=\s+([-\d.]+)\s+Ry'] *)
Definition energy_re : regex :=
  [Lit "!"; Plus is_space; Lit "total energy"; Plus is_space; Lit "=";
   Plus is_space; CapPlus cls_minus_digit_dot; Plus is_space; Lit "Ry"].

(** [r'cu_a([\d.]+)\.out'] *)
Definition filename_re : regex :=
  [Lit "cu_a"; CapPlus cls_digit_dot; Lit ".out"].

End Text.

(** ** The numpy routines the scripts call *)

Module Numpy.

Import F64.

Fixpoint set_last (y : list float) (v : float) : list float :=
  match y with
  | [] => []
  | [_] => [v]
  | x :: r => x :: set_last r v
  end.

(** [np.linspace(start, stop, num)] with [endpoint=True]:
    [y = arange(0, num) * step + start] with [step = (stop - start) / div],
    the special case of a vanishing step, and [y[-1] = stop]. *)
Definition linspace (start stop : float) (num : nat) : list float :=
  let div := (num - 1)%nat in
  let delta := fsub stop start in
  let y := map (fun i => Z2F (Z.of_nat i)) (seq 0 num) in
  let y :=
    if (0 <? div)%nat then
      let step := fdiv delta (Z2F (Z.of_nat div)) in
      if feq step (S754_zero false)
      then map (fun v => fmul (fdiv v (Z2F (Z.of_nat div))) delta) y
      else map (fun v => fmul v step) y
    else map (fun v => fmul v delta) y in
  let y := map (fun v => fadd v start) y in
  if (1 <? num)%nat then set_last y stop else y.

(** [np.linspace(start, stop, num, dtype=int)] on integer bounds: the
    floating-point grid, floored and cast. *)
Definition linspace_int (start stop : Z) (num : nat) : list Z :=
  map ffloor (linspace (Z2F start) (Z2F stop) num).

(** [a[i]] for an integer index: negative indices count from the end,
    [None] stands for [IndexError]. *)
Definition getitem (a : list float) (i : Z) : option float :=
  let n := Z.of_nat (List.length a) in
  if (i <? 0)%Z
  then (if (i + n <? 0)%Z then None else nth_error a (Z.to_nat (i + n)))
  else nth_error a (Z.to_nat i).

(** The loop of [DOUBLE_argmin]: the first NaN is minimal, otherwise the
    first smallest element. *)
Fixpoint argmin_loop (l : list float) (i : nat) (mp : float) (mi : nat) : nat :=
  match l with
  | [] => mi
  | x :: r =>
      if fle mp x then argmin_loop r (S i) mp mi
      else if is_nan x then i
      else argmin_loop r (S i) x i
  end.

Definition argmin (l : list float) : nat :=
  match l with
  | [] => O
  | x :: r => if is_nan x then O else argmin_loop r 1 x O
  end.

(** [a.min()] and [a.max()]: reductions of [np.minimum] / [np.maximum],
    which keep the accumulator when it is NaN or compares as not worse. *)
Definition amin (l : list float) : float :=
  match l with
  | [] => S754_nan
  | x :: r => fold_left (fun m v => if fle m v || is_nan m then m else v) r x
  end.

Definition amax (l : list float) : float :=
  match l with
  | [] => S754_nan
  | x :: r => fold_left (fun m v => if fle v m || is_nan m then m else v) r x
  end.

(** [np.poly1d(c)]: leading zero coefficients are trimmed. *)
Fixpoint trim_zeros (c : list float) : list float :=
  match c with
  | [] => []
  | x :: r => if feq x (S754_zero false) then trim_zeros r else c
  end.

Definition poly1d (c : list float) : list float :=
  match trim_zeros c with
  | [] => [S754_zero false]
  | c' => c'
  end.

(** [poly(x)]: Horner's rule of [np.polyval]. *)
Definition polyval (p : list float) (x : float) : float :=
  fold_left (fun y pv => fadd (fmul y x) pv) p (S754_zero false).

(** [a[idx]] for an index array produced by [argsort]. *)
Definition take_idx (a : list float) (idx : list nat) : list float :=
  map (fun i => nth i a S754_nan) idx.

End Numpy.

(** ** Files *)

Module Files.

Local Open Scope string_scope.

(** A file system: paths relative to the working directory, with the text
    of each file; every path occurs at most once. *)
Definition fs := list (string * string).

Fixpoint lookup (path : string) (f : fs) : option string :=
  match f with
  | [] => None
  | (p, c) :: r => if String.eqb p path then Some c else lookup path r
  end.

(** [open(path, 'w').write(text)] *)
Fixpoint write_file (path text : string) (f : fs) : fs :=
  match f with
  | [] => [(path, text)]
  | (p, c) :: r =>
      if String.eqb p path then (p, text) :: r else (p, c) :: write_file path text r
  end.

End Files.

(** ** [generate_files.py] *)

Module Generate.

Import F64 Text Numpy Files.
Local Open Scope string_scope.

Definition ANG_TO_BOHR : float := Q2F (188972687777 # 100000000000).

Definition lattice_params_ang : list float :=
  linspace (Q2F (22 # 10)) (Q2F (29 # 10)) 12.

(** [input_template.format(a_ang=a_ang, a_bohr=a_bohr)] *)
Definition input_template (a_ang a_bohr : float) : string :=
"&CONTROL
  calculation = 'scf'
  prefix = 'cu_sc_a" ++ format_f 3 a_ang ++ "'
  outdir = './tmp'
  pseudo_dir = './pseudo'
  verbosity = 'high'
/

&SYSTEM
  ibrav = 1
  celldm(1) = " ++ format_f 8 a_bohr ++ "
  nat = 1
  ntyp = 1
  ecutwfc = 21.46
  occupations = 'smearing'
  smearing = 'mv'
  degauss = 0.02
  input_dft = 'PW91'
/

&ELECTRONS
  conv_thr = 1.0d-8
  mixing_beta = 0.7
/

ATOMIC_SPECIES
  Cu  63.546  Cu.pw91-n-van_ak.UPF

ATOMIC_POSITIONS crystal
  Cu  0.0  0.0  0.0

K_POINTS automatic
  12 12 12  0 0 0
".

Definition input_filename (a_ang : float) : string :=
  "calculations/cu_a" ++ format_f 3 a_ang ++ ".in".

Definition output_filename (a_ang : float) : string :=
  "calculations/cu_a" ++ format_f 3 a_ang ++ ".out".

(** One iteration of the loop: the file written and the two lines printed. *)
Definition body (st : fs * list string) (a_ang : float) : fs * list string :=
  let (f, out) := st in
  let a_bohr := fmul a_ang ANG_TO_BOHR in
  let input_text := input_template a_ang a_bohr in
  (write_file (input_filename a_ang) input_text f,
   List.app out
     ["Created input file: " ++ input_filename a_ang;
      "  Lattice parameter: " ++ format_f 3 a_ang ++ " " ++ angstrom
        ++ " (" ++ format_f 6 a_bohr ++ " Bohr)"]).

(** The whole script, from a file system [f] in which the directory
    [calculations] can be created: the file system it leaves and the
    lines it prints. *)
Definition generate (f : fs) : fs * list string :=
  let (f', out) := fold_left body lattice_params_ang (f, []) in
  (f',
   List.app out
     [newline ++ "Generated "
        ++ dec (Z.of_nat (List.length lattice_params_ang))
        ++ " input files in 'calculations/' directory";
      newline ++ "To run calculations, use:";
      "  pw.x < calculations/cu_aX.XXX.in > calculations/cu_aX.XXX.out";
      newline ++ "Or uncomment the subprocess.run line in the script"]).

End Generate.

(** ** [analyze_results.py] *)

Module Analyze.

Import F64 Text Numpy Files.
Local Open Scope string_scope.

Inductive exn : Type :=
| ValueError
| FileNotFoundError
| LinAlgError
| IndexError.

Inductive result (A : Type) : Type :=
| Ok (a : A)
| Raise (e : exn).

Arguments Ok {A} a.
Arguments Raise {A} e.

(** [extract_energy(filename)]: [Ok None] is Python's [None]. *)
Definition extract_energy (f : fs) (filename : string) : result (option float) :=
  match lookup filename f with
  | None => Raise FileNotFoundError
  | Some content =>
      match re_search energy_re content with
      | Some g =>
          match py_float g with
          | Some v => Ok (Some v)
          | None => Raise ValueError
          end
      | None => Ok None
      end
  end.

Definition RY_TO_EV : float := Q2F (13605693122994 # 1000000000000).

(** [glob.glob('calculations/cu_a*.out')]: the files of the directory
    [calculations] whose name starts with [cu_a] and ends with [.out]. *)
Definition has_slash (s : string) : bool :=
  negb (forallb_str (fun c => negb (Ascii.eqb c "/")) s).

Definition glob_match (path : string) : bool :=
  let name := drop 13 path in
  prefix "calculations/" path && negb (has_slash name)
  && prefix "cu_a" name && (8 <=? length name)%nat
  && String.eqb (drop (length name - 4) name) ".out".

(** [sorted]: strings are ordered by code points. *)
Fixpoint insert (x : string) (l : list string) : list string :=
  match l with
  | [] => [x]
  | y :: r => if String.leb x y then x :: l else y :: insert x r
  end.

Definition sorted (l : list string) : list string := fold_right insert [] l.

Definition output_files (f : fs) : list string :=
  sorted (filter glob_match (map fst f)).

(** What one iteration of the collecting loop appends. *)
Record row : Type := mkRow {
  row_param : float;
  row_energy : float;
  row_line : string
}.

Definition visit (f : fs) (filename : string) : result (option row) :=
  match re_search filename_re filename with
  | None => Ok None
  | Some g =>
      match py_float g with
      | None => Raise ValueError
      | Some a_ang =>
          match extract_energy f filename with
          | Raise e => Raise e
          | Ok None => Ok None
          | Ok (Some energy) =>
              Ok (Some (mkRow a_ang (fmul energy RY_TO_EV)
                          ("a = " ++ format_f 3 a_ang ++ " " ++ angstrom
                             ++ ": E = " ++ format_f 6 (fmul energy RY_TO_EV)
                             ++ " eV")))
          end
      end
  end.

(** The loop over [output_files]; the first exception ends it. *)
Fixpoint collect (f : fs) (files : list string) : result (list row) :=
  match files with
  | [] => Ok []
  | filename :: rest =>
      match visit f filename with
      | Raise e => Raise e
      | Ok r =>
          match collect f rest with
          | Raise e => Raise e
          | Ok rows =>
              Ok (match r with Some x => x :: rows | None => rows end)
          end
      end
  end.

(** The pieces of [tikz_code]. *)
Definition tikz_head : string :=
"\begin{tikzpicture}
\begin{axis}[
    width=12cm,
    height=8cm,
    xlabel={Lattice Parameter (\AA)},
    ylabel={Total Energy (eV/atom)},
    title={Energy vs Lattice Parameter for Simple Cubic Cu},
    grid=major,
    grid style={dashed, gray!30},
    legend pos=north east,
    legend style={font=\small},
    tick label style={font=\small},
    label style={font=\footnotesize},
    title style={font=\bfseries}
]

% Calculated points
\addplot[
    only marks,
    mark=*,
    mark size=2.5pt,
    color=blue,
] coordinates {
".

Definition tikz_fit : string :=
"};
\addlegendentry{Calculated points}

% Polynomial fit
\addplot[
    color=red,
    line width=1.2pt,
    smooth,
] coordinates {
".

Definition tikz_line : string :=
"};
\addlegendentry{4th order polynomial fit}

% Vertical line at minimum
\addplot[
    color=green!70!black,
    dashed,
    line width=1pt,
] coordinates {
".

Definition tikz_legend : string :=
"};
\addlegendentry{Minimum at $a=".

Definition tikz_tail : string :=
"$ \AA}

\end{axis}
\end{tikzpicture}".

Definition point (a e : float) : string :=
  "    (" ++ format_f 6 a ++ ", " ++ format_f 6 e ++ ")" ++ newline.

Fixpoint points (l : list (float * float)) : string :=
  match l with
  | [] => ""
  | (a, e) :: r => point a e ++ points r
  end.

Definition subsample : nat := 100.

(** The loop over the subsampled indices; [None] is an [IndexError]. *)
Fixpoint curve (a_fine e_fine : list float) (indices : list Z) : option string :=
  match indices with
  | [] => Some ""
  | idx :: r =>
      match getitem a_fine idx, getitem e_fine idx, curve a_fine e_fine r with
      | Some a, Some e, Some s => Some (point a e ++ s)
      | _, _, _ => None
      end
  end.

(** [tikz_code] as the script assembles it: the calculated points, the
    subsampled curve [fit], and the two ends of the vertical line. *)
Definition tikz_text (data : list (float * float)) (fit : string)
    (a_eq y_bottom y_top : float) : string :=
  tikz_head ++ points data ++ tikz_fit ++ fit ++ tikz_line
  ++ point a_eq y_bottom ++ point a_eq y_top
  ++ tikz_legend ++ format_f 4 a_eq ++ tikz_tail.

(** The lines printed once the minimum is found. *)
Definition summary (a_eq e_min : float) : list string :=
  [newline ++ repeat_str "=" 50;
   "Equilibrium lattice parameter: " ++ format_f 4 a_eq ++ " " ++ angstrom;
   "Minimum energy: " ++ format_f 6 e_min ++ " eV/atom";
   repeat_str "=" 50].

(** The lines printed after the file is saved. *)
Definition closing : list string :=
  [newline ++ "TikZ plot saved as 'lattice_optimization.tex'";
   newline ++ "To use this in LaTeX, include the following in your preamble:";
   "  \usepackage{pgfplots}";
   "  \pgfplotsset{compat=1.18}";
   newline ++ "Then include the file with: \input{lattice_optimization.tex}"].

Definition tikz_path : string := "../assets/lattice_optimization.tex".

(** Everything the script has computed when it ends normally. *)
Record report : Type := mkReport {
  collected : list row;
  lattice_params : list float;
  energies : list float;
  coeffs : list float;
  a_fine : list float;
  e_fine : list float;
  min_idx : nat;
  a_eq : float;
  e_min : float;
  y_bottom : float;
  y_top : float;
  tikz_code : string;
  stdout : list string;
  files_after : fs
}.

Inductive outcome : Type :=
| Crashed (e : exn)
| Exited (status : Z) (out : list string)
| Finished (r : report).

(** The run-time environment: the files below the working directory, and
    whether [../assets] is a directory in which a file can be created. *)
Record env : Type := mkEnv {
  files : fs;
  assets_dir : bool
}.

Section Script.

(** [np.polyfit(x, y, deg)]: the coefficients, highest power first;
    [None] when it raises. *)
Variable polyfit : list float -> list float -> nat -> option (list float).

(** [np.argsort(a)] with the default, unstable sort. *)
Variable argsort : list float -> list nat.

Definition analyze (e : env) : outcome :=
  match collect (files e) (output_files (files e)) with
  | Raise x => Crashed x
  | Ok rows =>
      let out := map row_line rows in
      if (List.length (map row_energy rows) =? 0)%nat then
        Exited 1
          (List.app out
             ["No energies extracted. Check that calculations have completed."])
      else
        let sort_idx := argsort (map row_param rows) in
        let lattice_params := take_idx (map row_param rows) sort_idx in
        let energies := take_idx (map row_energy rows) sort_idx in
        match polyfit lattice_params energies 4 with
        | None => Crashed LinAlgError
        | Some coeffs =>
            let poly := poly1d coeffs in
            let a_fine := linspace (amin lattice_params) (amax lattice_params) 1000 in
            let e_fine := map (polyval poly) a_fine in
            let min_idx := argmin e_fine in
            let a_eq := nth min_idx a_fine S754_nan in
            let e_min := nth min_idx e_fine S754_nan in
            let out := List.app out (summary a_eq e_min) in
            let indices :=
              linspace_int 0 (Z.of_nat (List.length a_fine) - 1) subsample in
            match curve a_fine e_fine indices with
            | None => Crashed IndexError
            | Some fit =>
                let y_min := amin energies in
                let y_max := amax energies in
                let y_range := fsub y_max y_min in
                let y_bottom := fsub y_min (fmul (Q2F (1 # 10)) y_range) in
                let y_top := fadd y_max (fmul (Q2F (1 # 10)) y_range) in
                let tikz_code :=
                  tikz_text (combine lattice_params energies) fit a_eq
                    y_bottom y_top in
                if assets_dir e then
                  Finished
                    (mkReport rows lattice_params energies coeffs a_fine e_fine
                       min_idx a_eq e_min y_bottom y_top tikz_code
                       (List.app out closing)
                       (write_file tikz_path tikz_code (files e)))
                else Crashed FileNotFoundError
            end
        end
  end.

End Script.

End Analyze.

(** ** Sample instances

    Concrete stand-ins for the two library routines the analysis is
    parameterised by, and small file systems, used by the examples. *)

Module Samples.

Import F64 Text Numpy Files Analyze.
Local Open Scope string_scope.

(** An [argsort]: insertion sort of the indices by their keys. *)
Fixpoint insert_idx (a : list float) (i : nat) (l : list nat) : list nat :=
  match l with
  | [] => [i]
  | j :: r =>
      if fle (nth i a S754_nan) (nth j a S754_nan) then i :: l
      else j :: insert_idx a i r
  end.

Definition insertion_argsort (a : list float) : list nat :=
  fold_right (insert_idx a) [] (seq 0 (List.length a)).

(** A [polyfit] that ignores the data: the five coefficients of
    [(x - 2.5)^2 - 3]. *)
Definition fixed_fit (x y : list float) (deg : nat) : option (list float) :=
  Some [S754_zero false; S754_zero false; Z2F 1; Z2F (-5); Q2F (13 # 4)].

(** A [polyfit] that always raises. *)
Definition failing_fit (x y : list float) (deg : nat) : option (list float) :=
  None.

Definition qe_output (energy : string) : string :=
  "     convergence has been achieved in   9 iterations" ++ newline
  ++ "!    total energy              =    " ++ energy ++ " Ry" ++ newline
  ++ "     estimated scf accuracy    <       0.00000001 Ry" ++ newline.

Definition three_files : fs :=
  [("calculations/cu_a2.900.out", qe_output "-213.10");
   ("calculations/cu_a2.200.out", qe_output "-213.05");
   ("calculations/cu_a2.518.in", "&CONTROL");
   ("calculations/cu_a2.518.out", qe_output "-213.20")].

Definition three_env : env := mkEnv three_files true.

(** The same output files, listed in another order next to other files. *)
Definition shuffled_env : env :=
  mkEnv [("calculations/notes.txt", "sweep of 2024");
         ("calculations/cu_a2.518.out", qe_output "-213.20");
         ("calculations/cu_a2.200.out", qe_output "-213.05");
         ("calculations/cu_a2.900.out", qe_output "-213.10")] true.

(** The rows collected from [three_env]. *)
Definition three_rows : list row :=
  match collect (files three_env) (output_files (files three_env)) with
  | Ok rows => rows
  | Raise _ => []
  end.

(** A directory whose only output file holds no energy line. *)
Definition unfinished_env : env :=
  mkEnv [("calculations/cu_a2.200.out", "     Program PWSCF starts")] true.

End Samples.

(** ** Vocabulary of the statements *)

Module Spec.

Import F64 Text Numpy Files Analyze.
Local Open Scope string_scope.

Definition is_finite (x : float) : bool :=
  match x with S754_finite _ _ _ | S754_zero _ => true | _ => false end.

(** [l] has [n] finite entries, the [i]-th within [tol] of the point
    [lo + i * (hi - lo) / (n - 1)] of the exact grid. *)
Definition evenly_spaced (lo hi : Q) (n : nat) (tol : Q) (l : list float) : bool :=
  (List.length l =? n)%nat
  && forallb
       (fun ia : nat * float =>
          is_finite (snd ia)
          && Qle_bool
               (Qabs (F2Q (snd ia)
                      - (lo + inject_Z (Z.of_nat (fst ia))
                              * ((hi - lo) / inject_Z (Z.of_nat (n - 1))))))
               tol)
       (combine (seq 0 n) l).

(** Python's [round(x, nd)]: the decimal with [nd] fractional digits
    nearest to [x], as a float. *)
Definition py_round (nd : nat) (x : float) : float :=
  match x with
  | S754_finite s m e =>
      let (N, D) := scale (Zpos m * 10 ^ Z.of_nat nd) 1 (- e) in
      signed s (rne_div N D) (Z.to_pos (10 ^ Z.of_nat nd))
  | _ => x
  end.

(** A positive finite float whose mantissa has at most 53 bits and whose
    exponent lies between [lo] and the largest exponent. *)
Definition pos_repr (lo : Z) (x : float) : bool :=
  match x with
  | S754_finite false m e =>
      (Zpos m <? 2 ^ prec)%Z && (lo <=? e)%Z && (e <=? emax - prec)%Z
  | _ => false
  end.

(** Zero or a positive finite float. *)
Definition nonneg (x : float) : bool :=
  match x with
  | S754_zero false | S754_finite false _ _ => true
  | _ => false
  end.


(** The unit roundoff. *)
Definition eps : Q := 1 # 2 ^ 53.

(** The lines of a text. *)
Fixpoint split_lines (s : string) : list string :=
  match s with
  | EmptyString => [EmptyString]
  | String c r =>
      if Ascii.eqb c (ascii_of_nat 10) then EmptyString :: split_lines r
      else match split_lines r with
           | l :: ls => String c l :: ls
           | [] => [String c EmptyString]
           end
  end.

(** The value of the namelist entry [key] of an input file: the rest of
    the first line that reads [  key = ...]. *)
Definition field_value (key content : string) : option string :=
  let start := "  " ++ key ++ " = " in
  match filter (prefix start) (split_lines content) with
  | l :: _ => Some (drop (length start) l)
  | [] => None
  end.

(** The strings a pattern matches, with the text of group 1: [matches re
    m cap g] when [m] is matched by [re] and the group, [cap] before the
    match, is [g] after it. *)
Inductive matches : regex -> string -> string -> string -> Prop :=
| matches_nil cap : matches [] "" cap cap
| matches_lit l re s cap g :
    matches re s cap g -> matches (Lit l :: re) (l ++ s) cap g
| matches_plus p re w s cap g :
    w <> "" -> forallb_str p w = true ->
    matches re s cap g -> matches (Plus p :: re) (w ++ s) cap g
| matches_cap p re w s cap g :
    w <> "" -> forallb_str p w = true ->
    matches re s w g -> matches (CapPlus p :: re) (w ++ s) cap g.

(** [re] matches [s] at offset [n], with group [g]. *)
Definition match_at (re : regex) (s : string) (n : nat) (g : string) : Prop :=
  exists m post, drop n s = m ++ post /\ (n <= length s)%nat /\ matches re m "" g.

(** A decimal numeral: an optional minus sign, then digits with at most
    one point among them and at least one digit. *)
Fixpoint count_char (c : ascii) (s : string) : nat :=
  match s with
  | EmptyString => O
  | String d r => (if Ascii.eqb d c then 1 else 0) + count_char c r
  end.

Definition numeral (s : string) : bool :=
  let body := match s with String "-" r => r | _ => s end in
  forallb_str cls_digit_dot body
  && (count_char "." body <=? 1)%nat
  && negb (forallb_str (fun c => negb (is_digit c)) body).

(** The contract of [np.argsort] on an array without NaN: a permutation
    of the indices that puts the entries in nondecreasing order. *)
Definition nondecreasing (l : list float) : Prop :=
  Sorted (fun x y => fle x y = true) l.

Definition argsort_spec (argsort : list float -> list nat) : Prop :=
  forall a, forallb (fun x => negb (is_nan x)) a = true ->
    Permutation (argsort a) (seq 0 (List.length a))
    /\ nondecreasing (take_idx a (argsort a)).

(** The files a run leaves behind. *)
Definition final_files (e : env) (o : outcome) : fs :=
  match o with
  | Finished r => files_after r
  | _ => files e
  end.

(** Two runs agree on what they extracted, computed, printed and
    plotted. *)
Definition same_results (o1 o2 : outcome) : Prop :=
  match o1, o2 with
  | Crashed x1, Crashed x2 => x1 = x2
  | Exited s1 out1, Exited s2 out2 => s1 = s2 /\ out1 = out2
  | Finished r1, Finished r2 =>
      collected r1 = collected r2
      /\ lattice_params r1 = lattice_params r2
      /\ energies r1 = energies r2
      /\ coeffs r1 = coeffs r2
      /\ a_fine r1 = a_fine r2
      /\ e_fine r1 = e_fine r2
      /\ min_idx r1 = min_idx r2
      /\ a_eq r1 = a_eq r2
      /\ e_min r1 = e_min r2
      /\ y_bottom r1 = y_bottom r2
      /\ y_top r1 = y_top r2
      /\ stdout r1 = stdout r2
      /\ tikz_code r1 = tikz_code r2
      /\ lookup tikz_path (files_after r1) = lookup tikz_path (files_after r2)
  | _, _ => False
  end.

(** The indices at which the fitted curve is sampled for the plot. *)
Definition sample_idx : list nat :=
  map Z.to_nat (linspace_int 0 999 subsample).

(** No string occurs twice. *)
Fixpoint distinct (l : list string) : bool :=
  match l with
  | [] => true
  | x :: r => negb (existsb (String.eqb x) r) && distinct r
  end.

(** The extracted (lattice parameter, energy) pairs. *)
Definition pairs (rows : list row) : list (float * float) :=
  map (fun r => (row_param r, row_energy r)) rows.

End Spec.

From Stdlib Require Decimal DecimalFacts DecimalPos DecimalN.

(** ** Vocabulary of the statements about whole runs *)

Module RunSpec.

Import F64 Text Numpy Files Analyze.
Local Open Scope string_scope.

(** What makes an iteration of the collecting loop raise [ValueError]:
    the text the file-name pattern captures is no number, or the name is
    fine and the text the energy pattern captures in the file is no
    number. *)
Definition bad_name (p : string) : Prop :=
  exists g, re_search filename_re p = Some g /\ py_float g = None.

Definition bad_energy (f : fs) (p : string) : Prop :=
  exists g a content g',
    re_search filename_re p = Some g /\ py_float g = Some a
    /\ lookup p f = Some content
    /\ re_search energy_re content = Some g' /\ py_float g' = None.

(** What makes an iteration append nothing: the name does not match, or
    it gives a number and the file holds no energy line. *)
Definition skipped (p content : string) : Prop :=
  re_search filename_re p = None
  \/ (exists g a, re_search filename_re p = Some g /\ py_float g = Some a
                  /\ re_search energy_re content = None).

End RunSpec.
(** ** Shapes of floats *)

Module Shape.

Import F64 Spec.

(** A zero, or a finite float with the mantissa and the exponent of a
    binary64 number: what every operation of [F64] returns when its result
    is finite. *)
Definition canon (x : float) : bool :=
  match x with
  | S754_zero _ => true
  | S754_finite _ m e => pos_repr emin (S754_finite false m e)
  | _ => false
  end.

(** A zero, a positive finite float or plus infinity. *)
Definition upward (x : float) : bool :=
  match x with
  | S754_zero _ | S754_finite false _ _ | S754_infinity false => true
  | _ => false
  end.

End Shape.
(** ** [birch_murnaghan]

    The function is defined in [analyze_results.py] and called nowhere.
    It is modelled on Python floats: [/] and [**] are CPython's
    [float_div] and [float_pow], which raise where IEEE 754 arithmetic
    would return an infinity or a NaN, and which leave the floats for the
    power of a negative number with a fractional exponent. *)

Module Eos.

Import F64.

Inductive pyexn : Type :=
| ZeroDivisionError
| OverflowError.

(** What an expression on floats evaluates to: a float, an exception, or
    [Unreal] when a subexpression is a [complex] number; arithmetic on
    complex numbers is not modelled. *)
Inductive value : Type :=
| Real (x : float)
| Unreal
| Raised (e : pyexn).

Definition is_inf (x : float) : bool :=
  match x with S754_infinity _ => true | _ => false end.

Definition fabs (x : float) : float :=
  match x with
  | S754_zero _ => S754_zero false
  | S754_infinity _ => S754_infinity false
  | S754_nan => S754_nan
  | S754_finite _ m e => S754_finite false m e
  end.

(** [copysign(0.0, x)] *)
Definition zero_like (x : float) : float := S754_zero (sign_of x).

(** [x == floor(x)] *)
Definition is_integer (x : float) : bool :=
  match x with
  | S754_nan => false
  | S754_infinity _ => true
  | _ => Qeq_bool (inject_Z (ffloor x)) (F2Q x)
  end.

(** [DOUBLE_IS_ODD_INTEGER(x)]: [fmod(fabs(x), 2.0) == 1.0] *)
Definition is_odd_integer (x : float) : bool :=
  match x with
  | S754_finite _ _ _ => is_integer x && Z.odd (ffloor x)
  | _ => false
  end.

Section Pow.

(** The platform's [pow(x, y)] for finite [x > 0], [x <> 1] and finite
    [y <> 0]: the value, and whether the call sets [errno]. *)
Variable libm_pow : float -> float -> float * bool.

(** [float_pow(v, w)] of [floatobject.c]: [v ** w]. *)
Definition float_pow (iv iw : float) : value :=
  if feq iw (S754_zero false) then Real (Z2F 1)
  else if is_nan iv then Real iv
  else if is_nan iw then Real (if feq iv (Z2F 1) then Z2F 1 else iw)
  else if is_inf iw then
    if feq (fabs iv) (Z2F 1) then Real (Z2F 1)
    else if Bool.eqb (flt (S754_zero false) iw) (flt (Z2F 1) (fabs iv))
         then Real (fabs iw)
         else Real (S754_zero false)
  else if is_inf iv then
    if flt (S754_zero false) iw
    then Real (if is_odd_integer iw then iv else fabs iv)
    else Real (if is_odd_integer iw then zero_like iv else S754_zero false)
  else if feq iv (S754_zero false) then
    if flt iw (S754_zero false) then Raised ZeroDivisionError
    else Real (if is_odd_integer iw then iv else S754_zero false)
  else
    let neg := flt iv (S754_zero false) in
    if neg && negb (is_integer iw) then Unreal
    else
      let negate_result := neg && is_odd_integer iw in
      let av := if neg then fneg iv else iv in
      if feq av (Z2F 1)
      then Real (if negate_result then Z2F (-1) else Z2F 1)
      else
        let (ix, errno) := libm_pow av iw in
        (* _Py_ADJUST_ERANGE1 *)
        let errno := if errno then negb (feq ix (S754_zero false))
                     else is_inf ix in
        let ix := if negate_result then fneg ix else ix in
        if errno then Raised OverflowError else Real ix.

(** [float_div(v, w)]: [v / w]. *)
Definition float_div (a b : float) : value :=
  if feq b (S754_zero false) then Raised ZeroDivisionError
  else Real (fdiv a b).

Definition birch_murnaghan (V E0 V0 B0 B0_prime : float) : value :=
  match float_div V0 V with
  | Real ratio =>
      match float_pow ratio (fdiv (Z2F 2) (Z2F 3)) with
      | Real eta =>
          match float_pow (fsub eta (Z2F 1)) (Z2F 2) with
          | Real sq =>
              Real (fadd E0
                      (fmul (fdiv (fmul (fmul (Z2F 9) V0) B0) (Z2F 16))
                         (fmul sq
                            (fadd (fsub (Z2F 6) (fmul (Z2F 4) eta))
                               (fmul B0_prime (fsub eta (Z2F 1)))))))
          | other => other
          end
      | other => other
      end
  | other => other
  end.

End Pow.

End Eos.

(** * Properties *)

(** ** Files *)

Module FilesFacts.

Import Files.

Lemma lookup_write_same path text f :
  lookup path (write_file path text f) = Some text.
Proof.
  induction f as [|[p c] r IH]; simpl.
  - now rewrite String.eqb_refl.
  - destruct (String.eqb p path) eqn:E; simpl; rewrite E; auto.
Qed.

Lemma lookup_write_other path text q f :
  path <> q -> lookup q (write_file path text f) = lookup q f.
Proof.
  intros Hne. induction f as [|[p c] r IH]; simpl.
  - destruct (String.eqb path q) eqn:E; auto.
    apply String.eqb_eq in E. contradiction.
  - destruct (String.eqb p path) eqn:E; simpl.
    + apply String.eqb_eq in E. subst p.
      destruct (String.eqb path q) eqn:E'; auto.
      apply String.eqb_eq in E'. contradiction.
    + now rewrite IH.
Qed.

Lemma distinct_NoDup (l : list string) : Spec.distinct l = true -> NoDup l.
Proof.
  induction l as [|x r IH]; simpl; intros H; constructor.
  - apply andb_prop in H. destruct H as [H _].
    intros Hin. apply negb_true_iff in H.
    assert (existsb (String.eqb x) r = true) as E.
    { apply existsb_exists. exists x. split; auto. apply String.eqb_refl. }
    congruence.
  - apply IH. apply andb_prop in H. tauto.
Qed.

Lemma distinct_NoDup_names (f : fs) :
  Spec.distinct (map fst f) = true -> NoDup (map fst f).
Proof. apply distinct_NoDup. Qed.

End FilesFacts.

(** ** The generator *)

Module GenerateFacts.

Import F64 Text Numpy Files Generate Spec FilesFacts.
Local Open Scope string_scope.

(** The loop leaves, under each name of a duplicate-free sweep, the text
    written for it. *)
Lemma fold_body_lookup (l : list float) :
  NoDup (map input_filename l) ->
  forall st,
    Forall (fun a => lookup (input_filename a) (fst (fold_left body l st))
                     = Some (input_template a (fmul a ANG_TO_BOHR))) l.
Proof.
  induction l as [|a l IH]; intros Hnd st; simpl; constructor.
  - inversion Hnd as [|? ? Hnotin Hnd']; subst.
    assert (Hkeep : forall l' st',
               ~ In (input_filename a) (map input_filename l') ->
               lookup (input_filename a) (fst (fold_left body l' st'))
               = lookup (input_filename a) (fst st')).
    { induction l' as [|b l' IH']; intros st' Hn; simpl; auto.
      rewrite IH'.
      - destruct st' as [f out]. simpl.
        apply lookup_write_other. intros E. apply Hn. simpl. auto.
      - intros Hin. apply Hn. simpl. auto. }
    rewrite Hkeep by assumption.
    destruct st as [f out]. simpl. apply lookup_write_same.
  - inversion Hnd; subst. apply IH. assumption.
Qed.

Lemma generate_lookup (f0 : fs) :
  NoDup (map input_filename lattice_params_ang) ->
  Forall (fun a => lookup (input_filename a) (fst (generate f0))
                   = Some (input_template a (fmul a ANG_TO_BOHR)))
         lattice_params_ang.
Proof.
  unfold generate. generalize lattice_params_ang. intros l Hnd.
  pose proof (@fold_body_lookup l Hnd (f0, [])) as H.
  destruct (fold_left body l (f0, [])) as [f' out].
  exact H.
Qed.

Lemma sweep_values :
  lattice_params_ang =
  [S754_finite false 4953959590107546 (-51);
   S754_finite false 5097255941887516 (-51);
   S754_finite false 5240552293667487 (-51);
   S754_finite false 5383848645447457 (-51);
   S754_finite false 5527144997227427 (-51);
   S754_finite false 5670441349007397 (-51);
   S754_finite false 5813737700787368 (-51);
   S754_finite false 5957034052567338 (-51);
   S754_finite false 6100330404347308 (-51);
   S754_finite false 6243626756127278 (-51);
   S754_finite false 6386923107907249 (-51);
   S754_finite false 6530219459687219 (-51)].
Proof. vm_compute. reflexivity. Qed.

Lemma sweep_names :
  map input_filename lattice_params_ang =
  ["calculations/cu_a2.200.in"; "calculations/cu_a2.264.in";
   "calculations/cu_a2.327.in"; "calculations/cu_a2.391.in";
   "calculations/cu_a2.455.in"; "calculations/cu_a2.518.in";
   "calculations/cu_a2.582.in"; "calculations/cu_a2.645.in";
   "calculations/cu_a2.709.in"; "calculations/cu_a2.773.in";
   "calculations/cu_a2.836.in"; "calculations/cu_a2.900.in"].
Proof. vm_compute. reflexivity. Qed.

Lemma sweep_names_NoDup : NoDup (map input_filename lattice_params_ang).
Proof. apply distinct_NoDup. vm_compute. reflexivity. Qed.

(** On the sweep, the operations of [F64] compute what the Standard
    Library's reference implementation of binary64 computes. *)
Lemma sweep_matches_SpecFloat :
  let lo := Q2F (22 # 10) in
  let hi := Q2F (29 # 10) in
  let step := fdiv (fsub hi lo) (Z2F 11) in
  fsub hi lo = SFsub prec emax hi lo
  /\ step = SFdiv prec emax (fsub hi lo) (Z2F 11)
  /\ map (fun i => fadd (fmul (Z2F (Z.of_nat i)) step) lo) (seq 0 12)
     = map (fun i => SFadd prec emax
                       (SFmul prec emax (Z2F (Z.of_nat i)) step) lo) (seq 0 12)
  /\ map (fun a => fmul a ANG_TO_BOHR) lattice_params_ang
     = map (fun a => SFmul prec emax a ANG_TO_BOHR) lattice_params_ang.
Proof. vm_compute. repeat split; reflexivity. Qed.

(** C2: the sweep has 12 values, evenly spaced from 2.2 to 2.9 inclusive
    (each within 1e-15 of the exact grid point); their file names
    [calculations/cu_a{a:.3f}.in] are the twelve listed, all different; and
    whatever the file system before the run, after it each of these files
    holds the template instantiated with its value. *)
Theorem generate_writes_sweep (f0 : fs) :
  evenly_spaced (22 # 10) (29 # 10) 12 (1 # 10 ^ 15) lattice_params_ang = true
  /\ hd S754_nan lattice_params_ang = Q2F (22 # 10)
  /\ last lattice_params_ang S754_nan = Q2F (29 # 10)
  /\ map input_filename lattice_params_ang =
     ["calculations/cu_a2.200.in"; "calculations/cu_a2.264.in";
      "calculations/cu_a2.327.in"; "calculations/cu_a2.391.in";
      "calculations/cu_a2.455.in"; "calculations/cu_a2.518.in";
      "calculations/cu_a2.582.in"; "calculations/cu_a2.645.in";
      "calculations/cu_a2.709.in"; "calculations/cu_a2.773.in";
      "calculations/cu_a2.836.in"; "calculations/cu_a2.900.in"]
  /\ NoDup (map input_filename lattice_params_ang)
  /\ Forall (fun a => lookup (input_filename a) (fst (generate f0))
                      = Some (input_template a (fmul a ANG_TO_BOHR)))
            lattice_params_ang.
Proof.
  split; [vm_compute; reflexivity|].
  split; [vm_compute; reflexivity|].
  split; [vm_compute; reflexivity|].
  split; [exact sweep_names|].
  split; [exact sweep_names_NoDup|].
  apply generate_lookup. exact sweep_names_NoDup.
Qed.

(** C5: for every value [a] of the sweep, the analyzer's pattern applied
    to the generator's [output_filename] captures the text [{a:.3f}], and
    [float] of that text is [a] rounded to 3 decimal places. *)
Theorem filename_round_trip :
  Forall (fun a =>
            re_search filename_re (output_filename a) = Some (format_f 3 a)
            /\ py_float (format_f 3 a) = Some (py_round 3 a))
         lattice_params_ang.
Proof.
  rewrite sweep_values.
  repeat (apply Forall_cons; [split; vm_compute; reflexivity|]).
  apply Forall_nil.
Qed.

(** C6: in every file the generator writes, the [celldm(1)] entry is the
    product of the lattice parameter and [ANG_TO_BOHR], the float nearest
    to 1.88972687777, printed with 8 decimals. *)
Theorem celldm_is_bohr :
  map (fun pc => field_value "celldm(1)" (snd pc)) (fst (generate []))
  = map (fun a => Some (format_f 8 (fmul a ANG_TO_BOHR))) lattice_params_ang
  /\ map fst (fst (generate [])) = map input_filename lattice_params_ang
  /\ ANG_TO_BOHR = Q2F (188972687777 # 100000000000)
  /\ map (fun a => format_f 8 (fmul a ANG_TO_BOHR)) lattice_params_ang
     = ["4.15739913"; "4.27765448"; "4.39790982"; "4.51816517";
        "4.63842052"; "4.75867586"; "4.87893121"; "4.99918656";
        "5.11944191"; "5.23969725"; "5.35995260"; "5.48020795"].
Proof.
  split; [vm_compute; reflexivity|].
  split; [vm_compute; reflexivity|].
  split; [reflexivity|].
  vm_compute; reflexivity.
Qed.

End GenerateFacts.

(** ** The order on floats *)

Module OrderFacts.

Import F64.

Lemma fcompare_lex x y :
  is_nan x = false -> is_nan y = false ->
  fcompare x y =
  Some (match (lvl x ?= lvl y)%Z with
        | Eq => (F2Q x ?= F2Q y)%Q
        | c => c
        end).
Proof.
  destruct x as [sx|sx| |sx mx ex], y as [sy|sy| |sy my ey];
    try discriminate; intros _ _;
    try destruct sx; try destruct sy; reflexivity.
Qed.

Lemma flt_iff x y :
  is_nan x = false -> is_nan y = false ->
  flt x y = true <->
  (lvl x < lvl y)%Z \/ (lvl x = lvl y /\ F2Q x < F2Q y).
Proof.
  intros Hx Hy. unfold flt. rewrite (fcompare_lex _ _ Hx Hy).
  destruct (Z.compare_spec (lvl x) (lvl y)) as [E|E|E].
  - rewrite Qlt_alt.
    destruct (F2Q x ?= F2Q y)%Q; split; intros H;
      try discriminate; try (right; auto; fail); try reflexivity;
      destruct H as [H|[_ H]]; try lia; discriminate.
  - split; auto.
  - split; [discriminate|]. intros [H|[H _]]; lia.
Qed.

Lemma fle_iff x y :
  is_nan x = false -> is_nan y = false ->
  fle x y = true <->
  (lvl x < lvl y)%Z \/ (lvl x = lvl y /\ F2Q x <= F2Q y).
Proof.
  intros Hx Hy. unfold fle. rewrite (fcompare_lex _ _ Hx Hy).
  destruct (Z.compare_spec (lvl x) (lvl y)) as [E|E|E].
  - rewrite Qle_alt.
    destruct (F2Q x ?= F2Q y)%Q; split; intros H;
      try discriminate; try (right; split; auto; discriminate); try reflexivity;
      destruct H as [H|[_ H]]; try lia; congruence.
  - split; auto.
  - split; [discriminate|]. intros [H|[H _]]; lia.
Qed.

Lemma flt_nan_r x y : is_nan y = true -> flt x y = false.
Proof. destruct y; try discriminate. destruct x; reflexivity. Qed.

Lemma flt_nan_l x y : is_nan x = true -> flt x y = false.
Proof. destruct x; try discriminate. reflexivity. Qed.

Lemma fle_nan_l x y : is_nan x = true -> fle x y = false.
Proof. destruct x; try discriminate. reflexivity. Qed.

Lemma fle_nan_r x y : is_nan y = true -> fle x y = false.
Proof. destruct y; try discriminate. destruct x; reflexivity. Qed.

Lemma fle_not_flt x y : fle x y = true -> flt y x = false.
Proof.
  intros H.
  destruct (is_nan x) eqn:Hx; [rewrite fle_nan_l in H; auto; discriminate|].
  destruct (is_nan y) eqn:Hy; [rewrite fle_nan_r in H; auto; discriminate|].
  apply (fle_iff _ _ Hx Hy) in H.
  destruct (flt y x) eqn:E; auto.
  apply (flt_iff _ _ Hy Hx) in E.
  destruct H as [H|[H1 H2]], E as [E|[E1 E2]]; try lia.
  exfalso. apply (Qlt_irrefl (F2Q x)). eapply Qle_lt_trans; eauto.
Qed.

Lemma not_fle_flt x y :
  is_nan x = false -> is_nan y = false -> fle x y = false -> flt y x = true.
Proof.
  intros Hx Hy H. apply (flt_iff _ _ Hy Hx).
  destruct (Z.compare_spec (lvl x) (lvl y)) as [E|E|E].
  - right. split; auto.
    destruct (Qlt_le_dec (F2Q y) (F2Q x)) as [L|L]; auto.
    assert (fle x y = true) by (apply (fle_iff _ _ Hx Hy); auto).
    congruence.
  - assert (fle x y = true) by (apply (fle_iff _ _ Hx Hy); auto).
    congruence.
  - left. lia.
Qed.

Lemma flt_trans x y z : flt x y = true -> flt y z = true -> flt x z = true.
Proof.
  intros H1 H2.
  destruct (is_nan x) eqn:Hx; [rewrite flt_nan_l in H1; auto; discriminate|].
  destruct (is_nan y) eqn:Hy; [rewrite flt_nan_r in H1; auto; discriminate|].
  destruct (is_nan z) eqn:Hz; [rewrite flt_nan_r in H2; auto; discriminate|].
  apply (flt_iff _ _ Hx Hy) in H1. apply (flt_iff _ _ Hy Hz) in H2.
  apply (flt_iff _ _ Hx Hz).
  destruct H1 as [H1|[H1 H1']], H2 as [H2|[H2 H2']]; try (left; lia).
  right. split; [lia|]. eapply Qlt_trans; eauto.
Qed.

Lemma fle_trans x y z : fle x y = true -> fle y z = true -> fle x z = true.
Proof.
  intros H1 H2.
  destruct (is_nan x) eqn:Hx; [rewrite fle_nan_l in H1; auto; discriminate|].
  destruct (is_nan y) eqn:Hy; [rewrite fle_nan_r in H1; auto; discriminate|].
  destruct (is_nan z) eqn:Hz; [rewrite fle_nan_r in H2; auto; discriminate|].
  apply (fle_iff _ _ Hx Hy) in H1. apply (fle_iff _ _ Hy Hz) in H2.
  apply (fle_iff _ _ Hx Hz).
  destruct H1 as [H1|[H1 H1']], H2 as [H2|[H2 H2']]; try (left; lia).
  right. split; [lia|]. eapply Qle_trans; eauto.
Qed.

Lemma fle_refl x : is_nan x = false -> fle x x = true.
Proof.
  intros Hx. apply (fle_iff _ _ Hx Hx). right. split; auto. apply Qle_refl.
Qed.

Lemma fle_total x y :
  is_nan x = false -> is_nan y = false -> fle x y = true \/ fle y x = true.
Proof.
  intros Hx Hy. destruct (fle x y) eqn:E; auto. right.
  pose proof (not_fle_flt _ _ Hx Hy E) as L.
  apply (flt_iff _ _ Hy Hx) in L. apply (fle_iff _ _ Hy Hx).
  destruct L as [L|[L1 L2]]; auto. right. split; auto. apply Qlt_le_weak; auto.
Qed.

End OrderFacts.

(** ** numpy's reductions *)

Module NumpyFacts.

Import F64 Numpy OrderFacts.

Lemma argmin_loop_spec (l : list float) :
  forall (pre : list float) (mp : float) (mi : nat),
    is_nan mp = false ->
    (mi < List.length pre)%nat ->
    nth mi (pre ++ l) S754_nan = mp ->
    Forall (fun x => flt x mp = false) pre ->
    let i := argmin_loop l (List.length pre) mp mi in
    (i < List.length (pre ++ l))%nat
    /\ Forall (fun x => flt x (nth i (pre ++ l) S754_nan) = false) (pre ++ l).
Proof.
  induction l as [|x l IH]; intros pre mp mi Hmp Hmi Hnth Hpre; simpl.
  - rewrite app_nil_r in *. split; auto. rewrite Hnth. auto.
  - assert (Hlen : List.length (pre ++ [x]) = S (List.length pre))
      by (rewrite length_app; simpl; lia).
    assert (Happ : pre ++ x :: l = (pre ++ [x]) ++ l)
      by (rewrite <- app_assoc; reflexivity).
    destruct (fle mp x) eqn:Hle.
    + rewrite Happ, <- Hlen. apply IH; auto.
      * rewrite Hlen. lia.
      * rewrite <- Happ. auto.
      * apply Forall_app. split; auto. constructor; auto.
        apply fle_not_flt; auto.
    + destruct (is_nan x) eqn:Hx.
      * split.
        -- rewrite length_app. simpl. lia.
        -- rewrite app_nth2, Nat.sub_diag by lia. simpl.
           apply Forall_forall. intros y _. apply flt_nan_r; auto.
      * rewrite Happ, <- Hlen. apply IH; auto.
        -- rewrite Hlen. lia.
        -- rewrite <- Happ. rewrite app_nth2, Nat.sub_diag by lia. reflexivity.
        -- pose proof (not_fle_flt _ _ Hmp Hx Hle) as Hlt.
           apply Forall_app. split.
           ++ eapply Forall_impl; [|exact Hpre]. simpl. intros y Hy.
              destruct (flt y x) eqn:E; auto.
              rewrite (flt_trans _ _ _ E Hlt) in Hy. discriminate.
           ++ constructor; auto.
              apply fle_not_flt. apply fle_refl; auto.
Qed.

(** [argmin] of a non-empty array is an index of the array, and no entry
    compares below the entry it selects. *)
Lemma argmin_spec (l : list float) :
  l <> [] ->
  (argmin l < List.length l)%nat
  /\ Forall (fun x => flt x (nth (argmin l) l S754_nan) = false) l.
Proof.
  destruct l as [|x l]; [congruence|]. intros _. unfold argmin.
  destruct (is_nan x) eqn:Hx.
  - split; [simpl; lia|]. simpl.
    apply Forall_forall. intros y _. apply flt_nan_r; auto.
  - change (x :: l) with ([x] ++ l).
    apply (@argmin_loop_spec l [x] x 0%nat); auto.
    constructor; auto. apply fle_not_flt. apply fle_refl; auto.
Qed.

End NumpyFacts.

(** ** The analysis: what a normal run has computed *)

Module AnalyzeFacts.

Import F64 Text Numpy Files Analyze Spec OrderFacts NumpyFacts FilesFacts.
Local Open Scope string_scope.

Lemma set_last_length (y : list float) v :
  List.length (set_last y v) = List.length y.
Proof.
  induction y as [|x y IH]; auto.
  destruct y as [|x' r]; auto.
  change (S (List.length (set_last (x' :: r) v)) = S (List.length (x' :: r))).
  f_equal. exact IH.
Qed.

Lemma linspace_length start stop n : List.length (linspace start stop n) = n.
Proof.
  unfold linspace.
  destruct (1 <? n)%nat; [rewrite set_last_length|];
    destruct (0 <? n - 1)%nat; try destruct (feq _ _);
    rewrite !length_map, length_seq; reflexivity.
Qed.



(** Every collected row comes from an output file whose name gives the
    lattice parameter and whose text gives the energy, converted to eV. *)
Lemma collect_rows (f : fs) (l : list string) :
  forall rows, collect f l = Ok rows ->
  Forall (fun row =>
            exists filename g energy,
              In filename l
              /\ re_search filename_re filename = Some g
              /\ py_float g = Some (row_param row)
              /\ extract_energy f filename = Ok (Some energy)
              /\ row_energy row = fmul energy RY_TO_EV) rows.
Proof.
  induction l as [|filename l IH]; intros rows H.
  - injection H as <-. constructor.
  - cbn [collect] in H.
    destruct (visit f filename) as [r|x] eqn:Hv; [|discriminate].
    destruct (collect f l) as [rows'|x]; [|discriminate].
    injection H as <-.
    assert (Htail : Forall (fun row =>
            exists filename0 g energy,
              In filename0 (filename :: l)
              /\ re_search filename_re filename0 = Some g
              /\ py_float g = Some (row_param row)
              /\ extract_energy f filename0 = Ok (Some energy)
              /\ row_energy row = fmul energy RY_TO_EV) rows').
    { eapply Forall_impl; [|apply IH; reflexivity].
      intros row (fn & g & en & Hin & Hrest).
      exists fn, g, en. split; [right; assumption|assumption]. }
    destruct r as [row|]; auto.
    constructor; auto.
    unfold visit in Hv.
    destruct (re_search filename_re filename) as [g|] eqn:Hg; [|discriminate].
    destruct (py_float g) as [a|] eqn:Ha; [|discriminate].
    destruct (extract_energy f filename) as [[en|]|x] eqn:He; try discriminate.
    injection Hv as <-.
    exists filename, g, en. cbn [row_param row_energy].
    repeat split; auto. left; reflexivity.
Qed.

Lemma round_pos_not_nan s n d : is_nan (round_pos s n d) = false.
Proof.
  unfold round_pos.
  destruct (scale (Zpos n) (Zpos d) (cexp n d)) as [N D].
  destruct (rne_div N D =? 2 ^ prec)%Z.
  - destruct (2 ^ (prec - 1))%Z; auto. destruct (_ <=? _)%Z; auto.
  - destruct (rne_div N D); auto. destruct (_ <=? _)%Z; auto.
Qed.

Lemma signed_not_nan s n d : is_nan (signed s n d) = false.
Proof. destruct n; auto. apply round_pos_not_nan. Qed.

(** [float] never yields NaN on the text of a capturing group. *)
Lemma py_float_not_nan g v : py_float g = Some v -> is_nan v = false.
Proof.
  unfold py_float.
  destruct (match g with
            | String "-" r => (true, r)
            | _ => (false, g)
            end) as [neg body].
  destruct (drop (span is_digit body) body) as [|c fp].
  - destruct (span is_digit body =? 0)%nat; [discriminate|].
    intros H. injection H as <-. apply signed_not_nan.
  - destruct (Ascii.eqb c ".") eqn:Ec.
    + apply Ascii.eqb_eq in Ec. subst c.
      destruct (_ && _); [|discriminate].
      intros H. injection H as <-. apply signed_not_nan.
    + destruct c as [[] [] [] [] [] [] [] []]; try discriminate.
Qed.

Lemma collect_params_not_nan f l rows :
  collect f l = Ok rows ->
  forallb (fun x => negb (is_nan x)) (map row_param rows) = true.
Proof.
  intros H. apply forallb_forall. intros x Hx.
  apply in_map_iff in Hx. destruct Hx as (row & <- & Hin).
  pose proof (collect_rows _ _ H) as HF.
  rewrite Forall_forall in HF.
  destruct (HF row Hin) as (fn & g & en & _ & _ & Hp & _).
  rewrite (py_float_not_nan _ Hp). reflexivity.
Qed.

(** Indexing two arrays of the same length by a permutation of their
    indices permutes their pairs. *)
Lemma combine_take_idx (a b : list float) (idx : list nat) :
  combine (take_idx a idx) (take_idx b idx)
  = map (fun i => (nth i a S754_nan, nth i b S754_nan)) idx.
Proof.
  unfold take_idx. induction idx as [|i idx IH]; simpl; congruence.
Qed.

Lemma map_nth_seq (a b : list float) :
  List.length a = List.length b ->
  map (fun i => (nth i a S754_nan, nth i b S754_nan)) (seq 0 (List.length a))
  = combine a b.
Proof.
  revert b. induction a as [|x a IH]; intros [|y b] H; try discriminate; auto.
  simpl. f_equal. rewrite <- seq_shift, map_map. apply IH. simpl in H. lia.
Qed.

Lemma take_idx_pairs (a b : list float) (idx : list nat) :
  List.length a = List.length b ->
  Permutation idx (seq 0 (List.length a)) ->
  Permutation (combine (take_idx a idx) (take_idx b idx)) (combine a b).
Proof.
  intros Hlen Hperm. rewrite combine_take_idx, <- (map_nth_seq _ _ Hlen).
  apply Permutation_map. exact Hperm.
Qed.

Lemma combine_pairs (rows : list row) :
  combine (map row_param rows) (map row_energy rows) = pairs rows.
Proof. induction rows as [|r rows IH]; simpl; congruence. Qed.

(** Positions read with [getitem] inside the array. *)
Lemma getitem_nat (a : list float) (i : nat) :
  (i < List.length a)%nat ->
  getitem a (Z.of_nat i) = Some (nth i a S754_nan).
Proof.
  intros H. unfold getitem.
  destruct (Z.of_nat i <? 0)%Z eqn:E; [apply Z.ltb_lt in E; lia|].
  rewrite Nat2Z.id. apply nth_error_nth'. exact H.
Qed.

Lemma curve_points (a e : list float) (idx : list nat) :
  List.length a = List.length e ->
  Forall (fun i => (i < List.length a)%nat) idx ->
  curve a e (map Z.of_nat idx)
  = Some (points (map (fun i => (nth i a S754_nan, nth i e S754_nan)) idx)).
Proof.
  intros Hlen. induction 1 as [|i idx Hi _ IH]; auto.
  cbn [map curve points]. rewrite IH.
  rewrite (getitem_nat _ Hi), (getitem_nat e); [reflexivity|lia].
Qed.

Lemma sample_idx_values :
  linspace_int 0 999 subsample = map Z.of_nat sample_idx
  /\ List.length sample_idx = 100%nat
  /\ forallb (fun i => (i <? 1000)%nat) sample_idx = true.
Proof. vm_compute. auto. Qed.

Section Run.

Variable polyfit : list float -> list float -> nat -> option (list float).
Variable argsort : list float -> list nat.

(** The equations that hold of the report of a run that ends normally. *)
Lemma analyze_finished (e : env) (r : report) :
  analyze polyfit argsort e = Finished r ->
  collect (files e) (output_files (files e)) = Ok (collected r)
  /\ collected r <> []
  /\ lattice_params r
     = take_idx (map row_param (collected r))
         (argsort (map row_param (collected r)))
  /\ energies r
     = take_idx (map row_energy (collected r))
         (argsort (map row_param (collected r)))
  /\ polyfit (lattice_params r) (energies r) 4 = Some (coeffs r)
  /\ a_fine r
     = linspace (amin (lattice_params r)) (amax (lattice_params r)) 1000
  /\ e_fine r = map (polyval (poly1d (coeffs r))) (a_fine r)
  /\ min_idx r = argmin (e_fine r)
  /\ a_eq r = nth (min_idx r) (a_fine r) S754_nan
  /\ e_min r = nth (min_idx r) (e_fine r) S754_nan
  /\ stdout r
     = (map row_line (collected r) ++ summary (a_eq r) (e_min r) ++ closing)%list
  /\ assets_dir e = true
  /\ files_after r = write_file tikz_path (tikz_code r) (files e).
Proof.
  unfold analyze.
  destruct (collect (files e) (output_files (files e))) as [rows|x];
    [|discriminate].
  destruct (List.length (map row_energy rows) =? 0)%nat eqn:Hlen;
    [discriminate|].
  destruct (polyfit _ _ 4) as [cs|] eqn:Hfit; [|discriminate].
  destruct (curve _ _ _) as [fit|]; [|discriminate].
  destruct (assets_dir e); [|discriminate].
  intros H. injection H as <-.
  cbn [collected lattice_params energies coeffs a_fine e_fine min_idx a_eq
       e_min tikz_code files_after stdout].
  repeat split; auto.
  - intros ->. discriminate.
  - rewrite <- app_assoc. reflexivity.
Qed.

(** Progress: once rows are collected, [polyfit] returns and [../assets]
    can be written to, the run ends normally; the indices of the sampled
    curve are inside the grid. *)
Lemma run_ends (e : env) (rows : list row) (cs : list float) :
  collect (files e) (output_files (files e)) = Ok rows ->
  rows <> [] ->
  polyfit (take_idx (map row_param rows) (argsort (map row_param rows)))
    (take_idx (map row_energy rows) (argsort (map row_param rows))) 4
  = Some cs ->
  assets_dir e = true ->
  exists r,
    analyze polyfit argsort e = Finished r
    /\ tikz_code r
       = tikz_text (combine (lattice_params r) (energies r))
           (points (map (fun i => (nth i (a_fine r) S754_nan,
                                   nth i (e_fine r) S754_nan)) sample_idx))
           (a_eq r) (y_bottom r) (y_top r)
    /\ y_bottom r
       = fsub (amin (energies r))
           (fmul (Q2F (1 # 10)) (fsub (amax (energies r)) (amin (energies r))))
    /\ y_top r
       = fadd (amax (energies r))
           (fmul (Q2F (1 # 10)) (fsub (amax (energies r)) (amin (energies r)))).
Proof.
  intros Hc Hne Hfit Hdir.
  destruct sample_idx_values as (Hidx & Hlen & Hrange).
  assert (Hin : forall a : list float,
             List.length a = 1000%nat ->
             Forall (fun i => (i < List.length a)%nat) sample_idx).
  { intros a La. rewrite La. apply Forall_forall. intros i Hi.
    rewrite forallb_forall in Hrange. apply Nat.ltb_lt. exact (Hrange i Hi). }
  unfold analyze. rewrite Hc.
  destruct (List.length (map row_energy rows) =? 0)%nat eqn:E.
  { destruct rows; [congruence|discriminate]. }
  rewrite Hfit.
  set (lp := take_idx (map row_param rows) (argsort (map row_param rows))).
  set (en := take_idx (map row_energy rows) (argsort (map row_param rows))).
  set (grid := linspace (amin lp) (amax lp) 1000).
  assert (Lg : List.length grid = 1000%nat) by apply linspace_length.
  rewrite Lg. change (Z.of_nat 1000 - 1)%Z with 999%Z. rewrite Hidx.
  rewrite (@curve_points grid (map (polyval (poly1d cs)) grid) sample_idx);
    [|rewrite length_map; reflexivity|apply Hin; exact Lg].
  rewrite Hdir. eexists. split; [reflexivity|].
  cbn [tikz_code lattice_params energies a_fine e_fine a_eq y_bottom y_top].
  repeat split.
Qed.

(** The grid and the values of the fit on it. *)
Lemma grid_facts (e : env) (r : report) :
  analyze polyfit argsort e = Finished r ->
  List.length (a_fine r) = 1000%nat
  /\ List.length (e_fine r) = 1000%nat
  /\ (min_idx r < 1000)%nat
  /\ In (a_eq r) (a_fine r)
  /\ e_min r = polyval (poly1d (coeffs r)) (a_eq r)
  /\ Forall (fun x => flt (polyval (poly1d (coeffs r)) x) (e_min r) = false)
       (a_fine r).
Proof.
  intros H.
  destruct (@analyze_finished e r H) as
    (_ & _ & _ & _ & _ & Hgrid & Hfine & Hidx & Haeq & Hemin & _).
  assert (La : List.length (a_fine r) = 1000%nat)
    by (rewrite Hgrid; apply linspace_length).
  assert (Le : List.length (e_fine r) = 1000%nat)
    by (rewrite Hfine, length_map; exact La).
  assert (Hne : e_fine r <> []) by (intros E; rewrite E in Le; discriminate).
  destruct (argmin_spec Hne) as [Hlt Hmin]. rewrite <- Hidx in Hlt, Hmin.
  rewrite <- Hemin in Hmin.
  assert (Hval : e_min r = polyval (poly1d (coeffs r)) (a_eq r)).
  { rewrite Hemin, Haeq, Hfine.
    rewrite (nth_indep _ S754_nan (polyval (poly1d (coeffs r)) S754_nan))
      by (rewrite length_map; lia).
    apply map_nth. }
  repeat split; auto.
  - lia.
  - rewrite Haeq. apply nth_In. lia.
  - rewrite Hfine in Hmin. rewrite Forall_map in Hmin. exact Hmin.
Qed.

End Run.

End AnalyzeFacts.

(** ** The sample instances *)

Module SamplesFacts.

Import F64 Text Numpy Files Analyze Spec Samples OrderFacts.

Lemma insert_idx_perm a i l : Permutation (insert_idx a i l) (i :: l).
Proof.
  induction l as [|j l IH]; simpl; auto.
  destruct (fle _ _); auto.
  rewrite IH. apply perm_swap.
Qed.

Lemma insertion_perm a l : Permutation (fold_right (insert_idx a) [] l) l.
Proof.
  induction l as [|i l IH]; simpl; auto.
  rewrite insert_idx_perm. auto.
Qed.

Section Keys.

Variable a : list float.
Hypothesis no_nan : forallb (fun x => negb (is_nan x)) a = true.

Let key (i : nat) : float := nth i a S754_nan.
Let R (i j : nat) : Prop := fle (key i) (key j) = true.

Lemma key_not_nan i : (i < List.length a)%nat -> is_nan (key i) = false.
Proof.
  intros Hi. rewrite forallb_forall in no_nan.
  apply negb_true_iff. apply no_nan. apply nth_In. exact Hi.
Qed.

Lemma insert_idx_sorted i l :
  (i < List.length a)%nat ->
  Forall (fun j => (j < List.length a)%nat) l ->
  Sorted R l -> Sorted R (insert_idx a i l).
Proof.
  intros Hi Hl Hs. induction Hs as [|j l Hs IH Hhd]; simpl.
  - repeat constructor.
  - inversion Hl as [|? ? Hj Hl']; subst.
    fold (key i). fold (key j).
    destruct (fle (key i) (key j)) eqn:E.
    + repeat constructor; auto.
    + constructor; auto.
      assert (Hji : R j i).
      { destruct (fle_total (key i) (key j)); auto using key_not_nan.
        unfold R in *. congruence. }
      destruct l as [|k l]; simpl.
      * repeat constructor. exact Hji.
      * inversion Hhd; subst. fold (key i). fold (key k).
        destruct (fle (key i) (key k)); constructor; auto.
Qed.

Lemma insertion_sorted l :
  Forall (fun j => (j < List.length a)%nat) l ->
  Sorted R (fold_right (insert_idx a) [] l).
Proof.
  induction 1 as [|i l Hi Hl IH]; simpl; [constructor|].
  apply insert_idx_sorted; auto.
  apply Forall_forall. intros j Hj.
  rewrite Forall_forall in Hl. apply Hl.
  eapply Permutation_in; [apply insertion_perm|exact Hj].
Qed.

Lemma sorted_keys l : Sorted R l -> nondecreasing (take_idx a l).
Proof.
  unfold nondecreasing, take_idx.
  induction 1 as [|j l Hs IH Hhd]; simpl; constructor; auto.
  destruct Hhd; simpl; constructor. assumption.
Qed.

End Keys.

(** The insertion sort of the indices meets the contract of [argsort]. *)
Lemma insertion_argsort_spec : argsort_spec insertion_argsort.
Proof.
  intros a Ha. unfold insertion_argsort. split.
  - apply insertion_perm.
  - apply sorted_keys. apply insertion_sorted; auto.
    apply Forall_forall. intros j Hj. apply in_seq in Hj. lia.
Qed.

Lemma three_collect :
  collect (files three_env) (output_files (files three_env)) = Ok three_rows
  /\ three_rows <> [].
Proof. split; [vm_compute; reflexivity|vm_compute; discriminate]. Qed.

(** The run on [three_env] with the two sample routines ends normally. *)
Lemma three_runs :
  exists r, analyze fixed_fit insertion_argsort three_env = Finished r.
Proof.
  destruct three_collect as [Hc Hne].
  destruct (@AnalyzeFacts.run_ends fixed_fit insertion_argsort three_env
              three_rows _ Hc Hne eq_refl eq_refl) as (r & Hr & _).
  exists r. exact Hr.
Qed.

End SamplesFacts.

(** ** The analysis: statements about a run *)

Module AnalyzeClaims.

Import F64 Text Numpy Files Analyze Spec Samples.
Import OrderFacts NumpyFacts FilesFacts AnalyzeFacts SamplesFacts.
Local Open Scope string_scope.

Section Claims.

Variable polyfit : list float -> list float -> nat -> option (list float).
Variable argsort : list float -> list nat.


(** C9: when the loop over the output files ends with an empty list of
    energies, the script prints the one line ['No energies extracted.
    Check that calculations have completed.'] and exits with status 1;
    this holds whatever [polyfit] is, and no file is written. *)
Theorem no_energies_exit (e : env) (rows : list row) :
  collect (files e) (output_files (files e)) = Ok rows ->
  map row_energy rows = [] ->
  analyze polyfit argsort e
  = Exited 1 ["No energies extracted. Check that calculations have completed."]
  /\ final_files e (analyze polyfit argsort e) = files e.
Proof.
  intros Hc Hnil.
  assert (Hrun : analyze polyfit argsort e
                 = Exited 1
                     ["No energies extracted. Check that calculations have completed."]).
  { unfold analyze. rewrite Hc, Hnil.
    destruct rows; [reflexivity|discriminate]. }
  split; [exact Hrun|]. rewrite Hrun. reflexivity.
Qed.

(** C10: given an [argsort] that meets its contract, in a run that ends
    normally the sorted lattice parameters are in nondecreasing order, and
    the sorted (lattice parameter, energy) pairs are a permutation of the
    collected pairs. *)
Theorem sort_keeps_pairs (e : env) (r : report) :
  argsort_spec argsort ->
  analyze polyfit argsort e = Finished r ->
  nondecreasing (lattice_params r)
  /\ Permutation (combine (lattice_params r) (energies r))
       (pairs (collected r)).
Proof.
  intros Hspec H.
  destruct (@analyze_finished polyfit argsort e r H) as
    (Hc & _ & Hp & He & _).
  destruct (Hspec _ (collect_params_not_nan _ _ Hc)) as [Hperm Hsorted].
  split.
  - rewrite Hp. exact Hsorted.
  - rewrite Hp, He, <- combine_pairs.
    apply take_idx_pairs; [rewrite !length_map; reflexivity|exact Hperm].
Qed.


End Claims.


Lemma no_energies_exit_witness :
  collect (files unfinished_env) (output_files (files unfinished_env)) = Ok []
  /\ analyze failing_fit insertion_argsort unfinished_env
     = Exited 1 ["No energies extracted. Check that calculations have completed."].
Proof.
  split; [vm_compute; reflexivity|].
  apply (@no_energies_exit failing_fit insertion_argsort unfinished_env []);
    vm_compute; reflexivity.
Defined.

Lemma sort_keeps_pairs_witness :
  exists r,
    analyze fixed_fit insertion_argsort three_env = Finished r
    /\ nondecreasing (lattice_params r)
    /\ Permutation (combine (lattice_params r) (energies r))
         (pairs (collected r)).
Proof.
  destruct three_runs as [r Hr]. exists r. split; [exact Hr|].
  exact (@sort_keeps_pairs fixed_fit insertion_argsort three_env r
           insertion_argsort_spec Hr).
Defined.


End AnalyzeClaims.

(** ** Determinism of the analysis *)

Module Determinism.

Import F64 Text Numpy Files Analyze Spec Samples FilesFacts.
Local Open Scope string_scope.

Lemma ascii_compare_trans c1 c2 c3 :
  Ascii.compare c1 c2 <> Gt -> Ascii.compare c2 c3 <> Gt ->
  Ascii.compare c1 c3 <> Gt
  /\ (Ascii.compare c1 c3 = Eq ->
      Ascii.compare c1 c2 = Eq /\ Ascii.compare c2 c3 = Eq).
Proof.
  unfold Ascii.compare.
  destruct (N.compare_spec (N_of_ascii c1) (N_of_ascii c2));
    destruct (N.compare_spec (N_of_ascii c2) (N_of_ascii c3));
    destruct (N.compare_spec (N_of_ascii c1) (N_of_ascii c3));
    intros; split; intros; try congruence; try lia; auto.
Qed.

Lemma compare_trans s1 : forall s2 s3,
  String.compare s1 s2 <> Gt -> String.compare s2 s3 <> Gt ->
  String.compare s1 s3 <> Gt.
Proof.
  induction s1 as [|c1 s1 IH]; intros [|c2 s2] [|c3 s3]; simpl;
    try congruence.
  intros H12 H23.
  destruct (Ascii.compare c1 c2) eqn:E12; try congruence;
    destruct (Ascii.compare c2 c3) eqn:E23; try congruence;
    destruct (@ascii_compare_trans c1 c2 c3) as [Hle Heq];
    try congruence;
    destruct (Ascii.compare c1 c3) eqn:E13; try congruence;
    try (destruct Heq; congruence).
  apply IH with s2; assumption.
Qed.

Lemma leb_trans s1 s2 s3 :
  String.leb s1 s2 = true -> String.leb s2 s3 = true -> String.leb s1 s3 = true.
Proof.
  unfold String.leb. intros H12 H23.
  pose proof (@compare_trans s1 s2 s3) as H.
  destruct (String.compare s1 s2); try discriminate;
    destruct (String.compare s2 s3); try discriminate;
    destruct (String.compare s1 s3); auto;
    exfalso; apply H; congruence.
Qed.

Lemma leb_false s1 s2 : String.leb s1 s2 = false -> String.leb s2 s1 = true.
Proof.
  intros H. destruct (String.leb_total s1 s2); congruence.
Qed.

(** Insertions commute, so [sorted] does not depend on the order in which
    the names are listed. *)
Lemma insert_comm x y l : insert x (insert y l) = insert y (insert x l).
Proof.
  induction l as [|z l IH]; simpl.
  - destruct (String.leb x y) eqn:Exy, (String.leb y x) eqn:Eyx; auto.
    + rewrite (String.leb_antisym _ _ Exy Eyx). reflexivity.
    + apply leb_false in Exy. congruence.
  - destruct (String.leb y z) eqn:Eyz, (String.leb x z) eqn:Exz; simpl.
    + destruct (String.leb x y) eqn:Exy, (String.leb y x) eqn:Eyx;
        rewrite ?Exz, ?Eyz; auto.
      * rewrite (String.leb_antisym _ _ Exy Eyx). reflexivity.
      * apply leb_false in Exy. congruence.
    + rewrite Exz, Eyz.
      destruct (String.leb x y) eqn:Exy; auto.
      rewrite (leb_trans _ _ _ Exy Eyz) in Exz. discriminate.
    + rewrite Exz, Eyz.
      destruct (String.leb y x) eqn:Eyx; auto.
      rewrite (leb_trans _ _ _ Eyx Exz) in Eyz. discriminate.
    + rewrite Exz, Eyz. f_equal. exact IH.
Qed.

Lemma sorted_perm l1 l2 : Permutation l1 l2 -> sorted l1 = sorted l2.
Proof.
  unfold sorted. induction 1; simpl; try congruence.
  apply insert_comm.
Qed.

Lemma lookup_in (p : string) (f : fs) :
  In p (map fst f) <-> lookup p f <> None.
Proof.
  induction f as [|[q c] f IH]; simpl.
  - split; [tauto|congruence].
  - destruct (String.eqb q p) eqn:E.
    + apply String.eqb_eq in E. split; [discriminate|auto].
    + apply String.eqb_neq in E. rewrite <- IH. tauto.
Qed.

Lemma output_files_ext (f1 f2 : fs) :
  NoDup (map fst f1) -> NoDup (map fst f2) ->
  (forall p, glob_match p = true -> lookup p f1 = lookup p f2) ->
  output_files f1 = output_files f2.
Proof.
  intros N1 N2 H. unfold output_files. apply sorted_perm.
  apply NoDup_Permutation; try (apply NoDup_filter; assumption).
  intros p. rewrite !filter_In, !lookup_in.
  split; intros [Hin Hg]; split; auto; [rewrite <- H|rewrite H]; auto.
Qed.

Lemma visit_ext (f1 f2 : fs) (p : string) :
  lookup p f1 = lookup p f2 -> visit f1 p = visit f2 p.
Proof.
  intros H. unfold visit, extract_energy. rewrite H. reflexivity.
Qed.

Lemma collect_ext (f1 f2 : fs) (l : list string) :
  Forall (fun p => lookup p f1 = lookup p f2) l ->
  collect f1 l = collect f2 l.
Proof.
  induction 1 as [|p l Hp _ IH]; auto.
  cbn [collect]. rewrite (visit_ext _ _ _ Hp), IH. reflexivity.
Qed.

Lemma output_files_match (f : fs) :
  Forall (fun p => glob_match p = true) (output_files f).
Proof.
  apply Forall_forall. intros p Hp. unfold output_files in Hp.
  assert (Hin : In p (filter glob_match (map fst f))).
  { eapply Permutation_in; [|exact Hp].
    clear. unfold sorted.
    induction (filter glob_match (map fst f)) as [|x l IH]; simpl; auto.
    assert (Hins : forall y s, Permutation (insert y s) (y :: s)).
    { clear. intros y s. induction s as [|z s IH]; simpl; auto.
      destruct (String.leb y z); auto.
      rewrite IH. apply perm_swap. }
    rewrite Hins. auto. }
  apply filter_In in Hin. tauto.
Qed.

Section Runs.

Variable polyfit : list float -> list float -> nat -> option (list float).
Variable argsort : list float -> list nat.

(** C7: two runs in environments whose output files (the names matched
    by the glob pattern, with their texts) are the same, however the
    directories list them and whatever other files they hold, end the same
    way: the same exception, the same exit status and output, or reports
    with the same extracted rows, sorted data, coefficients, grid,
    equilibrium values, printed lines and TikZ file. *)
Theorem analysis_deterministic (e1 e2 : env) :
  NoDup (map fst (files e1)) ->
  NoDup (map fst (files e2)) ->
  (forall p, glob_match p = true ->
             lookup p (files e1) = lookup p (files e2)) ->
  assets_dir e1 = assets_dir e2 ->
  same_results (analyze polyfit argsort e1) (analyze polyfit argsort e2).
Proof.
  intros N1 N2 H Hdir.
  unfold analyze.
  rewrite <- (@output_files_ext _ _ N1 N2 H), <- Hdir.
  rewrite <- (@collect_ext (files e1) (files e2) (output_files (files e1))).
  2:{ eapply Forall_impl; [|apply output_files_match]. exact H. }
  destruct (collect (files e1) (output_files (files e1))) as [rows|x];
    [|reflexivity].
  destruct (List.length (map row_energy rows) =? 0)%nat; [split; reflexivity|].
  destruct (polyfit _ _ 4) as [cs|]; [|reflexivity].
  destruct (curve _ _ _) as [fit|]; [|reflexivity].
  destruct (assets_dir e1); [|reflexivity].
  cbn [same_results collected lattice_params energies coeffs a_fine e_fine
       min_idx a_eq e_min y_bottom y_top stdout tikz_code files_after].
  rewrite !lookup_write_same.
  repeat split; reflexivity.
Qed.

End Runs.

Lemma analysis_deterministic_witness :
  same_results (analyze fixed_fit insertion_argsort three_env)
    (analyze fixed_fit insertion_argsort shuffled_env).
Proof.
  apply analysis_deterministic.
  - apply distinct_NoDup_names. vm_compute. reflexivity.
  - apply distinct_NoDup_names. vm_compute. reflexivity.
  - intros p Hp. cbn [files three_env shuffled_env three_files lookup].
    destruct (String.eqb "calculations/cu_a2.900.out" p) eqn:E1;
      [apply String.eqb_eq in E1; subst p; vm_compute; reflexivity|].
    destruct (String.eqb "calculations/cu_a2.200.out" p) eqn:E2;
      [apply String.eqb_eq in E2; subst p; vm_compute; reflexivity|].
    destruct (String.eqb "calculations/cu_a2.518.in" p) eqn:E3;
      [apply String.eqb_eq in E3; subst p; vm_compute in Hp; discriminate|].
    destruct (String.eqb "calculations/cu_a2.518.out" p) eqn:E4;
      [apply String.eqb_eq in E4; subst p; vm_compute; reflexivity|].
    destruct (String.eqb "calculations/notes.txt" p) eqn:E5;
      [apply String.eqb_eq in E5; subst p; vm_compute in Hp; discriminate|].
    reflexivity.
  - reflexivity.
Defined.

End Determinism.

(** ** The matcher against the language of the patterns *)

Module RegexFacts.

Import F64 Text Files Analyze Spec Samples.
Local Open Scope string_scope.

Lemma app_assoc_str (a b c : string) : (a ++ b) ++ c = a ++ (b ++ c).
Proof. induction a as [|x a IH]; simpl; congruence. Qed.

Lemma length_app_str (a b : string) : length (a ++ b) = (length a + length b)%nat.
Proof. induction a as [|x a IH]; simpl; congruence. Qed.

Lemma take_drop k : forall s, take k s ++ drop k s = s.
Proof. induction k as [|k IH]; intros [|c s]; simpl; auto. now rewrite IH. Qed.

Lemma drop_app (l r : string) : drop (length l) (l ++ r) = r.
Proof. induction l as [|c l IH]; simpl; auto. Qed.

Lemma take_app (l r : string) : take (length l) (l ++ r) = l.
Proof. induction l as [|c l IH]; simpl; congruence. Qed.


Lemma length_drop k : forall s, length (drop k s) = (length s - k)%nat.
Proof. induction k as [|k IH]; intros [|c s]; simpl; auto. Qed.

Lemma prefix_split l : forall s, prefix l s = true -> s = l ++ drop (length l) s.
Proof.
  induction l as [|c l IH]; intros [|d s] H; simpl in *; auto; try discriminate.
  destruct (ascii_dec c d); [|discriminate]. subst. f_equal. auto.
Qed.

Lemma prefix_app l r : prefix l (l ++ r) = true.
Proof.
  induction l as [|c l IH]; simpl; [destruct r; reflexivity|].
  destruct (ascii_dec c c); congruence.
Qed.

Lemma span_le p s : (span p s <= length s)%nat.
Proof. induction s as [|c s IH]; simpl; auto. destruct (p c); simpl; lia. Qed.

Lemma span_take p : forall k s,
  (k <= span p s)%nat -> forallb_str p (take k s) = true.
Proof.
  induction k as [|k IH]; intros [|c s] H; simpl in *; auto.
  destruct (p c); simpl in *; [apply IH|]; lia.
Qed.

Lemma span_app p w r : forallb_str p w = true -> (length w <= span p (w ++ r))%nat.
Proof.
  induction w as [|c w IH]; simpl; intros H; [lia|].
  apply andb_prop in H. destruct H as [Hc Hw]. rewrite Hc.
  specialize (IH Hw). lia.
Qed.

Lemma span_stop p s c r : drop (span p s) s = String c r -> p c = false.
Proof.
  induction s as [|d s IH]; simpl; [discriminate|].
  destruct (p d) eqn:E; simpl; auto. intros H. injection H as -> _. exact E.
Qed.

Lemma backtrack_some {A} k (f : nat -> option A) r :
  backtrack k f = Some r -> exists j, (1 <= j <= k)%nat /\ f j = Some r.
Proof.
  induction k as [|k IH]; simpl; [discriminate|].
  destruct (f (S k)) eqn:E.
  - intros H. injection H as ->. exists (S k). split; [lia|exact E].
  - intros H. destruct (IH H) as (j & Hj & Hf). exists j. split; [lia|exact Hf].
Qed.

Lemma backtrack_none {A} k (f : nat -> option A) :
  backtrack k f = None -> forall j, (1 <= j <= k)%nat -> f j = None.
Proof.
  induction k as [|k IH]; simpl; intros H j Hj; [lia|].
  destruct (f (S k)) eqn:E; [discriminate|].
  destruct (Nat.eq_dec j (S k)) as [->|Hne]; auto. apply IH; auto. lia.
Qed.

Lemma take_nonempty j s : (1 <= j <= length s)%nat -> take j s <> "".
Proof. destruct j, s; simpl; intros; try lia; discriminate. Qed.

(** Soundness: what [match_here] accepts is a match of the pattern at the
    start of the text. *)
Lemma match_here_sound re : forall s cap g,
  match_here re s cap = Some g ->
  exists m post, s = m ++ post /\ matches re m cap g.
Proof.
  induction re as [|[l|p|p] re IH]; intros s cap g H; cbn [match_here] in H.
  - injection H as <-. exists "", s. split; [reflexivity|constructor].
  - destruct (prefix l s) eqn:P; [|discriminate].
    destruct (IH _ _ _ H) as (m & post & Hs & Hm).
    exists (l ++ m), post. split; [|constructor; exact Hm].
    rewrite app_assoc_str, <- Hs. apply prefix_split. exact P.
  - apply backtrack_some in H. destruct H as (j & Hj & H).
    destruct (IH _ _ _ H) as (m & post & Hs & Hm).
    pose proof (span_le p s) as Hle.
    exists (take j s ++ m), post. split.
    + rewrite app_assoc_str, <- Hs. symmetry. apply take_drop.
    + constructor; auto.
      * apply take_nonempty. lia.
      * apply span_take. lia.
  - apply backtrack_some in H. destruct H as (j & Hj & H).
    destruct (IH _ _ _ H) as (m & post & Hs & Hm).
    pose proof (span_le p s) as Hle.
    exists (take j s ++ m), post. split.
    + rewrite app_assoc_str, <- Hs. symmetry. apply take_drop.
    + constructor; auto.
      * apply take_nonempty. lia.
      * apply span_take. lia.
Qed.

(** Completeness: where the pattern has a match, [match_here] finds one. *)
Lemma match_here_complete re m cap g :
  matches re m cap g -> forall post, match_here re (m ++ post) cap <> None.
Proof.
  induction 1 as [cap|l re s cap g Hm IH|p re w s cap g Hw Hp Hm IH
                  |p re w s cap g Hw Hp Hm IH];
    intros post; cbn [match_here].
  - discriminate.
  - rewrite app_assoc_str, prefix_app, drop_app. apply IH.
  - rewrite app_assoc_str. intros Hnone.
    apply (IH post).
    assert (Hj : (1 <= length w <= span p (w ++ s ++ post))%nat).
    { pose proof (span_app p w (s ++ post) Hp).
      destruct w; [congruence|simpl in *; lia]. }
    pose proof (@backtrack_none _ _ _ Hnone (length w) Hj) as E.
    cbv beta in E. rewrite drop_app in E. exact E.
  - rewrite app_assoc_str. intros Hnone.
    apply (IH post).
    assert (Hj : (1 <= length w <= span p (w ++ s ++ post))%nat).
    { pose proof (span_app p w (s ++ post) Hp).
      destruct w; [congruence|simpl in *; lia]. }
    pose proof (@backtrack_none _ _ _ Hnone (length w) Hj) as E.
    cbv beta in E. rewrite drop_app, take_app in E. exact E.
Qed.

Lemma match_at_0 re s g :
  match_at re s 0 g -> match_here re s "" <> None.
Proof.
  intros (m & post & Hs & _ & Hm). simpl in Hs. subst s.
  apply (match_here_complete Hm).
Qed.

Lemma match_at_S re c s n g :
  match_at re (String c s) (S n) g <-> match_at re s n g.
Proof.
  unfold match_at. simpl.
  split; intros (m & post & Hs & Hn & Hm); exists m, post;
    repeat split; auto; lia.
Qed.

(** [re_search] returns the group of a match at the leftmost position at
    which the pattern matches. *)
Lemma re_search_some re : forall s g,
  re_search re s = Some g ->
  exists n, match_at re s n g
            /\ forall n' g', (n' < n)%nat -> ~ match_at re s n' g'.
Proof.
  induction s as [|c s IH]; intros g H; cbn [re_search] in H.
  - destruct (match_here re "" "") as [g0|] eqn:E; [|discriminate].
    injection H as ->. exists 0%nat. split; [|intros; lia].
    destruct (match_here_sound _ _ _ E) as (m & post & Hs & Hm).
    exists m, post. repeat split; auto.
  - destruct (match_here re (String c s) "") as [g0|] eqn:E.
    + injection H as ->. exists 0%nat. split; [|intros; lia].
      destruct (match_here_sound _ _ _ E) as (m & post & Hs & Hm).
      exists m, post. repeat split; auto. simpl. lia.
    + destruct (IH _ H) as (n & Hn & Hleft).
      exists (S n). split; [apply match_at_S; exact Hn|].
      intros [|n'] g' Hlt Hat.
      * apply match_at_0 in Hat. congruence.
      * apply match_at_S in Hat. apply (Hleft n' g'); [lia|exact Hat].
Qed.

(** [re_search] fails only when the pattern matches nowhere. *)
Lemma re_search_none re : forall s,
  re_search re s = None -> forall n g, ~ match_at re s n g.
Proof.
  induction s as [|c s IH]; intros H n g Hat; cbn [re_search] in H.
  - destruct (match_here re "" "") eqn:E; [discriminate|].
    destruct Hat as (m & post & Hs & Hn & Hm).
    simpl in Hn. assert (n = 0%nat) by lia. subst n. simpl in Hs.
    apply (match_here_complete Hm post). rewrite <- Hs. exact E.
  - destruct (match_here re (String c s) "") eqn:E; [discriminate|].
    destruct n as [|n].
    + apply match_at_0 in Hat. congruence.
    + apply match_at_S in Hat. apply (IH H n g Hat).
Qed.

(** *** The energy pattern captures one text per position *)

Lemma run_unique (p : ascii -> bool) : forall w w' c c' X X',
  forallb_str p w = true -> forallb_str p w' = true ->
  p c = false -> p c' = false ->
  w ++ String c X = w' ++ String c' X' ->
  w = w' /\ String c X = String c' X'.
Proof.
  induction w as [|a w IH]; intros [|b w'] c c' X X' Hw Hw' Hc Hc' E;
    simpl in *.
  - split; [reflexivity|exact E].
  - injection E as -> _. apply andb_prop in Hw'. destruct Hw' as [Hb _].
    congruence.
  - injection E as <- _. apply andb_prop in Hw. destruct Hw as [Ha _].
    congruence.
  - injection E as <- E. apply andb_prop in Hw, Hw'.
    destruct Hw as [_ Hw], Hw' as [_ Hw'].
    destruct (IH _ _ _ _ _ Hw Hw' Hc Hc' E) as [-> E'].
    split; [reflexivity|exact E'].
Qed.

Lemma space_not_numeric c : is_space c = true -> cls_minus_digit_dot c = false.
Proof.
  destruct c as [[] [] [] [] [] [] [] []]; try discriminate; reflexivity.
Qed.

Lemma numeric_not_space c : cls_minus_digit_dot c = true -> is_space c = false.
Proof.
  intros H. destruct (is_space c) eqn:E; auto.
  rewrite (space_not_numeric _ E) in H. discriminate.
Qed.

Lemma nonempty_head p w :
  w <> "" -> forallb_str p w = true ->
  exists c r, w = String c r /\ p c = true.
Proof.
  destruct w as [|c r]; [congruence|]. intros _ H. simpl in H.
  apply andb_prop in H. exists c, r. tauto.
Qed.

(** The shape of a match of the energy pattern. *)
Lemma energy_match_inv m g :
  matches energy_re m "" g ->
  exists w1 w2 w3 w4,
    m = "!" ++ w1 ++ "total energy" ++ w2 ++ "=" ++ w3 ++ g ++ w4 ++ "Ry"
    /\ (w1 <> "" /\ forallb_str is_space w1 = true)
    /\ (w2 <> "" /\ forallb_str is_space w2 = true)
    /\ (w3 <> "" /\ forallb_str is_space w3 = true)
    /\ (g <> "" /\ forallb_str cls_minus_digit_dot g = true)
    /\ (w4 <> "" /\ forallb_str is_space w4 = true).
Proof.
  unfold energy_re. intros H.
  inversion H as [|l1 r1 s1 c1 g1 H1| |]; subst; clear H.
  inversion H1 as [| |p2 r2 w1 s2 c2 g2 N1 P1 H2|]; subst; clear H1.
  inversion H2 as [|l3 r3 s3 c3 g3 H3| |]; subst; clear H2.
  inversion H3 as [| |p4 r4 w2 s4 c4 g4 N2 P2 H4|]; subst; clear H3.
  inversion H4 as [|l5 r5 s5 c5 g5 H5| |]; subst; clear H4.
  inversion H5 as [| |p6 r6 w3 s6 c6 g6 N3 P3 H6|]; subst; clear H5.
  inversion H6 as [| | |p7 r7 w s7 c7 g7 N P H7]; subst; clear H6.
  inversion H7 as [| |p8 r8 w4 s8 c8 g8 N4 P4 H8|]; subst; clear H7.
  inversion H8 as [|l9 r9 s9 c9 g9 H9| |]; subst; clear H8.
  inversion H9; subst; clear H9.
  exists w1, w2, w3, w4. repeat split; auto.
Qed.

Lemma energy_group_unique s n g g' :
  match_at energy_re s n g -> match_at energy_re s n g' -> g = g'.
Proof.
  intros (m & post & Hs & _ & Hm) (m' & post' & Hs' & _ & Hm').
  destruct (energy_match_inv Hm)
    as (w1 & w2 & w3 & w4 & -> & [_ P1] & [_ P2] & [_ P3] & [Ng Pg] & [N4 P4]).
  destruct (energy_match_inv Hm')
    as (v1 & v2 & v3 & v4 & -> & [_ Q1] & [_ Q2] & [_ Q3] & [Ng' Qg] & [M4 Q4]).
  rewrite Hs in Hs'. clear Hs Hm Hm'.
  destruct (@nonempty_head _ _ Ng Pg) as (c & g0 & -> & Hc).
  destruct (@nonempty_head _ _ Ng' Qg) as (c' & g0' & -> & Hc').
  destruct (@nonempty_head _ _ N4 P4) as (d & u4 & -> & Hd).
  destruct (@nonempty_head _ _ M4 Q4) as (d' & u4' & -> & Hd').
  repeat rewrite app_assoc_str in Hs'. simpl in Hs'.
  injection Hs' as E.
  apply (run_unique is_space) in E; auto. destruct E as [<- E].
  injection E as E.
  apply (run_unique is_space) in E; auto. destruct E as [<- E].
  injection E as E.
  apply (run_unique is_space) in E; auto using numeric_not_space.
  destruct E as [<- E].
  change (String c (g0 ++ String d (u4 ++ String "R" (String "y" post)))
          = String c' (g0' ++ String d' (u4' ++ String "R" (String "y" post'))))
    with ((String c g0) ++ String d (u4 ++ String "R" (String "y" post))
          = (String c' g0') ++ String d' (u4' ++ String "R" (String "y" post')))
    in E.
  apply (run_unique cls_minus_digit_dot) in E;
    auto using space_not_numeric. tauto.
Qed.

(** *** Numerals are accepted by [float] *)

Lemma forallb_str_app p a b :
  forallb_str p (a ++ b) = forallb_str p a && forallb_str p b.
Proof.
  induction a as [|c a IH]; simpl; auto. rewrite IH. apply andb_assoc.
Qed.

Lemma count_char_app c a b :
  count_char c (a ++ b) = (count_char c a + count_char c b)%nat.
Proof. induction a as [|d a IH]; simpl; auto. rewrite IH. lia. Qed.

Lemma dot_not_digit : is_digit "." = false.
Proof. reflexivity. Qed.

Lemma digits_no_dot s :
  forallb_str cls_digit_dot s = true -> count_char "." s = 0%nat ->
  forallb_str is_digit s = true.
Proof.
  induction s as [|c s IH]; simpl; auto.
  intros H Hc. apply andb_prop in H. destruct H as [Hd Hs].
  unfold cls_digit_dot in Hd.
  destruct (Ascii.eqb c ".") eqn:E.
  - simpl in Hc. discriminate.
  - rewrite orb_false_r in Hd. rewrite Hd. simpl. apply IH; auto.
Qed.

Lemma digits_only_has_digit s :
  forallb_str is_digit s = true ->
  forallb_str (fun c => negb (is_digit c)) s = true -> s = "".
Proof.
  destruct s as [|c s]; auto. simpl.
  intros H1 H2. apply andb_prop in H1. apply andb_prop in H2.
  destruct H1 as [H1 _], H2 as [H2 _]. rewrite H1 in H2. discriminate.
Qed.

Lemma numeral_float g : numeral g = true -> exists v, py_float g = Some v.
Proof.
  unfold numeral, py_float.
  destruct (match g with
            | String "-" r => (true, r)
            | _ => (false, g)
            end) as [neg body] eqn:Eg.
  assert (Hbody : match g with String "-" r => r | _ => g end = body).
  { destruct g as [|c r]; [injection Eg; auto|].
    destruct c as [[] [] [] [] [] [] [] []]; injection Eg; auto. }
  rewrite Hbody. clear Eg Hbody g.
  intros H. apply andb_prop in H. destruct H as [H Hdig].
  apply andb_prop in H. destruct H as [Hcls Hcnt].
  apply Nat.leb_le in Hcnt. apply negb_true_iff in Hdig.
  pose proof (take_drop (span is_digit body) body) as Hsplit.
  pose proof (@span_take is_digit (span is_digit body) body (le_n _)) as Hip.
  set (k := span is_digit body) in *.
  destruct (drop k body) as [|c fp] eqn:Erest.
  - destruct (k =? 0)%nat eqn:Ek; [|eauto].
    apply Nat.eqb_eq in Ek. rewrite Ek in Hsplit. simpl in Hsplit.
    subst body. discriminate.
  - pose proof (span_stop is_digit body Erest) as Hc.
    rewrite <- Hsplit in Hcls, Hcnt, Hdig.
    rewrite forallb_str_app in Hcls, Hdig. rewrite count_char_app in Hcnt.
    apply andb_prop in Hcls. destruct Hcls as [_ Hcls].
    simpl in Hcls. apply andb_prop in Hcls. destruct Hcls as [Hcd Hfp].
    unfold cls_digit_dot in Hcd. rewrite Hc in Hcd. simpl in Hcd.
    apply Ascii.eqb_eq in Hcd. subst c.
    simpl in Hcnt.
    assert (Hfpd : forallb_str is_digit fp = true)
      by (apply digits_no_dot; auto; lia).
    rewrite Hfpd. simpl.
    destruct ((k =? 0)%nat && (length fp =? 0)%nat) eqn:E; [|simpl; eauto].
    apply andb_prop in E. destruct E as [E1 E2].
    apply Nat.eqb_eq in E1, E2.
    destruct fp; [|discriminate]. rewrite E1 in Hdig. simpl in Hdig.
    discriminate.
Qed.

(** C3, as the code has it: for a file that exists, [extract_energy]
    returns [None] exactly when the pattern matches nowhere in the text of
    the file (a run of white space of the pattern may span line breaks);
    when it returns a float, that float is [float] of the one text the
    pattern captures at the leftmost position at which it matches; and
    when the text captured there is a decimal numeral, a float is
    returned. *)
Theorem extract_energy_spec (f : fs) (filename content : string) :
  lookup filename f = Some content ->
  (extract_energy f filename = Ok None
   <-> forall n g, ~ match_at energy_re content n g)
  /\ (forall v, extract_energy f filename = Ok (Some v) ->
        exists n g,
          match_at energy_re content n g
          /\ (forall n' g', (n' < n)%nat -> ~ match_at energy_re content n' g')
          /\ (forall g', match_at energy_re content n g' -> g' = g)
          /\ py_float g = Some v)
  /\ (forall g, re_search energy_re content = Some g -> numeral g = true ->
        exists v, py_float g = Some v
                  /\ extract_energy f filename = Ok (Some v)).
Proof.
  intros Hl. unfold extract_energy. rewrite Hl.
  destruct (re_search energy_re content) as [g|] eqn:Hs.
  - destruct (re_search_some _ _ Hs) as (n & Hat & Hleft).
    split; [|split].
    + split.
      * destruct (py_float g); discriminate.
      * intros Hno. destruct (Hno n g Hat).
    + intros v Hv. exists n, g.
      split; [exact Hat|]. split; [exact Hleft|].
      split; [intros g' Hg'; exact (energy_group_unique Hg' Hat)|].
      destruct (py_float g); [congruence|discriminate].
    + intros g' Hg' Hnum. injection Hg' as <-.
      destruct (numeral_float _ Hnum) as (v & Hv).
      exists v. rewrite Hv. auto.
  - split; [|split].
    + split; auto. intros _. apply re_search_none. exact Hs.
    + discriminate.
    + discriminate.
Qed.

Lemma extract_energy_spec_witness :
  lookup "calculations/cu_a2.200.out" three_files = Some (qe_output "-213.05")
  /\ exists v, py_float "-213.05" = Some v
               /\ extract_energy three_files "calculations/cu_a2.200.out"
                  = Ok (Some v).
Proof.
  split; [vm_compute; reflexivity|].
  destruct (@extract_energy_spec three_files "calculations/cu_a2.200.out"
              (qe_output "-213.05")) as (_ & _ & H).
  - vm_compute. reflexivity.
  - apply (H "-213.05"); vm_compute; reflexivity.
Defined.

(** C3 as stated fails twice.  A text in which the group captures [-]
    alone makes [float] raise: neither a float nor [None] is returned.  And
    a text no line of which matches the pattern gives a float, not [None],
    when the match spans a line break. *)
Lemma extract_energy_counterexample :
  extract_energy [("calculations/cu_a1.out", "! total energy = - Ry")]
    "calculations/cu_a1.out" = Raise ValueError
  /\ (let text := "!" ++ newline ++ "total energy = -1.5 Ry" in
      forallb (fun line => match re_search energy_re line with
                           | None => true
                           | Some _ => false
                           end) (split_lines text) = true
      /\ extract_energy [("calculations/cu_a1.out", text)]
           "calculations/cu_a1.out" = Ok (Some (Q2F (- (3 # 2))))).
Proof.
  split; [vm_compute; reflexivity|].
  split; vm_compute; reflexivity.
Qed.

End RegexFacts.

(** ** Rounding to binary64 *)

Module RoundFacts.

Import F64 Spec OrderFacts.
Local Open Scope Z_scope.

(** *** Nearest integer *)

Lemma rne_div_le N D K : 0 < D -> N <= K * D -> rne_div N D <= K.
Proof.
  intros HD H. unfold rne_div.
  pose proof (Z.div_mod N D ltac:(lia)) as E.
  pose proof (Z.mod_pos_bound N D HD) as B.
  assert (Hq : N / D <= K) by (apply Z.div_le_upper_bound; lia).
  destruct (Z.compare_spec (2 * (N mod D)) D) as [C|C|C]; try lia.
  - destruct (Z.even (N / D)); try lia.
    assert (N / D <> K) by nia. lia.
  - assert (N / D <> K) by nia. lia.
Qed.

Lemma rne_div_ge N D K : 0 < D -> K * D <= N -> K <= rne_div N D.
Proof.
  intros HD H. unfold rne_div.
  assert (Hq : K <= N / D) by (apply Z.div_le_lower_bound; lia).
  destruct (2 * (N mod D) ?= D); try destruct (Z.even (N / D)); lia.
Qed.

Lemma rne_div_err N D :
  0 < D -> - D <= 2 * (rne_div N D * D - N) <= D.
Proof.
  intros HD. unfold rne_div.
  pose proof (Z.div_mod N D ltac:(lia)) as E.
  pose proof (Z.mod_pos_bound N D HD) as B.
  destruct (Z.compare_spec (2 * (N mod D)) D) as [C|C|C];
    try destruct (Z.even (N / D)); nia.
Qed.

(** *** Powers of two *)

Local Open Scope Q_scope.

Lemma two_neq_0 : ~ 2 == 0.
Proof. discriminate. Qed.

Lemma pow2_pos k : 0 < pow2 k.
Proof. apply Qpower_0_lt. reflexivity. Qed.

Lemma pow2_neq_0 k : ~ pow2 k == 0.
Proof. intros E. pose proof (pow2_pos k) as H. rewrite E in H. discriminate. Qed.

Lemma pow2_add a b : pow2 (a + b) == pow2 a * pow2 b.
Proof. apply Qpower_plus. exact two_neq_0. Qed.

Lemma pow2_sub a b : pow2 (a - b) == pow2 a / pow2 b.
Proof. apply Qpower_minus. exact two_neq_0. Qed.

Lemma pow2_opp a : pow2 (- a) == / pow2 a.
Proof. apply Qpower_opp. Qed.

Lemma pow2_le a b : (a <= b)%Z -> pow2 a <= pow2 b.
Proof. intros H. apply Qpower_le_compat_l; [exact H|discriminate]. Qed.


Lemma pow2_lt_inv a b : pow2 a < pow2 b -> (a < b)%Z.
Proof. intros H. apply (Qpower_lt_compat_l_inv _ _ _ H). reflexivity. Qed.

Lemma pow2_Z k : (0 <= k)%Z -> pow2 k == inject_Z (2 ^ k).
Proof. intros H. unfold pow2. rewrite Zpower_Qpower by exact H. reflexivity. Qed.

Lemma pow2_S a : pow2 (a + 1) == 2 * pow2 a.
Proof. rewrite pow2_add. unfold pow2 at 2. simpl. ring. Qed.

(** *** [scale] *)

Lemma scale_spec (n d : positive) (e : Z) :
  let (N, D) := scale (Zpos n) (Zpos d) e in
  (0 < D)%Z /\ (0 < N)%Z
  /\ inject_Z N == (Zpos n # d) / pow2 e * inject_Z D.
Proof.
  unfold scale. pose proof (pow2_pos e) as Hp.
  assert (Hq : Zpos n # d == inject_Z (Zpos n) / inject_Z (Zpos d))
    by (rewrite Qmake_Qdiv; reflexivity).
  destruct (Z.leb_spec 0 e) as [He|He]; cbv iota beta.
  - split; [|split].
    + apply Z.mul_pos_pos; [lia|]. apply Z.pow_pos_nonneg; lia.
    + lia.
    + rewrite Hq, inject_Z_mult, <- pow2_Z by lia.
      field. repeat split; try discriminate; apply pow2_neq_0.
  - split; [|split].
    + lia.
    + apply Z.mul_pos_pos; [lia|]. apply Z.pow_pos_nonneg; lia.
    + rewrite Hq, inject_Z_mult, <- pow2_Z by lia. rewrite pow2_opp.
      field. repeat split; try discriminate; apply pow2_neq_0.
Qed.

Lemma Qdiv_le_iff a b c : 0 < b -> (a / b <= c <-> a <= c * b).
Proof.
  intros Hb. rewrite <- (Qmult_le_r (a / b) c b Hb).
  setoid_replace (a / b * b) with a; [reflexivity|].
  field. intros E. rewrite E in Hb. discriminate.
Qed.

Lemma Qdiv_ge_iff a b c : 0 < b -> (c <= a / b <-> c * b <= a).
Proof.
  intros Hb. rewrite <- (Qmult_le_r c (a / b) b Hb).
  setoid_replace (a / b * b) with a; [reflexivity|].
  field. intros E. rewrite E in Hb. discriminate.
Qed.

(** The value [n/d] in terms of what [scale] returns. *)
Lemma scale_le (n d : positive) (e N D K : Z) :
  scale (Zpos n) (Zpos d) e = (N, D) ->
  ((N <= K * D)%Z <-> Zpos n # d <= inject_Z K * pow2 e).
Proof.
  intros E. pose proof (scale_spec n d e) as H. rewrite E in H.
  destruct H as (HD & HN & Hv). pose proof (pow2_pos e) as Hp.
  assert (HDq : 0 < inject_Z D) by (rewrite <- (Zlt_Qlt 0); exact HD).
  rewrite Zle_Qle, inject_Z_mult, Hv.
  rewrite (Qmult_le_r _ _ _ HDq). apply Qdiv_le_iff. exact Hp.
Qed.

Lemma scale_ge (n d : positive) (e N D K : Z) :
  scale (Zpos n) (Zpos d) e = (N, D) ->
  ((K * D <= N)%Z <-> inject_Z K * pow2 e <= Zpos n # d).
Proof.
  intros E. pose proof (scale_spec n d e) as H. rewrite E in H.
  destruct H as (HD & HN & Hv). pose proof (pow2_pos e) as Hp.
  assert (HDq : 0 < inject_Z D) by (rewrite <- (Zlt_Qlt 0); exact HD).
  rewrite Zle_Qle, inject_Z_mult, Hv.
  rewrite (Qmult_le_r _ _ _ HDq). apply Qdiv_ge_iff. exact Hp.
Qed.

(** *** The binade of a positive rational *)

Lemma log2_bounds (n : positive) :
  pow2 (Z.log2 (Zpos n)) <= inject_Z (Zpos n)
  /\ inject_Z (Zpos n) < pow2 (Z.log2 (Zpos n) + 1).
Proof.
  pose proof (Z.log2_spec (Zpos n) ltac:(lia)) as [H1 H2].
  pose proof (Z.log2_nonneg (Zpos n)) as H0.
  rewrite !pow2_Z by lia. rewrite <- Zle_Qle, <- Zlt_Qlt.
  split; [exact H1|]. replace (Z.log2 (Z.pos n) + 1)%Z with (Z.succ (Z.log2 (Z.pos n))) by lia.
  exact H2.
Qed.

Lemma ilog2_spec (n d : positive) :
  pow2 (ilog2 n d) <= Zpos n # d /\ Zpos n # d < pow2 (ilog2 n d + 1).
Proof.
  unfold ilog2.
  set (k := (Z.log2 (Zpos n) - Z.log2 (Zpos d))%Z).
  destruct (scale (Zpos n) (Zpos d) k) as [N D] eqn:E.
  pose proof (@scale_ge n d k N D 1 E) as Hge.
  rewrite Z.mul_1_l, Qmult_1_l in Hge.
  destruct (log2_bounds n) as [Hn1 Hn2]. destruct (log2_bounds d) as [Hd1 Hd2].
  pose proof (pow2_pos (Z.log2 (Zpos d))) as Pd.
  pose proof (pow2_pos (Z.log2 (Zpos n))) as Pn.
  assert (Hq : Zpos n # d == inject_Z (Zpos n) / inject_Z (Zpos d))
    by (rewrite Qmake_Qdiv; reflexivity).
  assert (Hdpos : 0 < inject_Z (Zpos d)) by reflexivity.
  assert (Hup : Zpos n # d < pow2 (k + 1)).
  { rewrite Hq. apply Qlt_shift_div_r; [exact Hdpos|].
    assert (E1 : pow2 (k + 1) * pow2 (Z.log2 (Zpos d))
                 == pow2 (Z.log2 (Zpos n) + 1)).
    { rewrite <- pow2_add. unfold k.
      replace (Z.log2 (Z.pos n) - Z.log2 (Z.pos d) + 1 + Z.log2 (Z.pos d))%Z
        with (Z.log2 (Z.pos n) + 1)%Z by lia. reflexivity. }
    pose proof (pow2_pos (k + 1)) as Pk.
    revert E1 Pk Hn2 Hd1 Pd.
    generalize (pow2 (k + 1)) (pow2 (Z.log2 (Z.pos n) + 1))
      (pow2 (Z.log2 (Z.pos d))) (inject_Z (Z.pos n)) (inject_Z (Z.pos d)).
    intros; nra. }
  assert (Hlow : pow2 (k - 1) < Zpos n # d).
  { rewrite Hq. apply Qlt_shift_div_l; [exact Hdpos|].
    assert (E1 : pow2 (k - 1) * pow2 (Z.log2 (Zpos d) + 1)
                 == pow2 (Z.log2 (Zpos n))).
    { rewrite <- pow2_add. unfold k.
      replace (Z.log2 (Z.pos n) - Z.log2 (Z.pos d) - 1
               + (Z.log2 (Z.pos d) + 1))%Z
        with (Z.log2 (Z.pos n))%Z by lia. reflexivity. }
    pose proof (pow2_pos (k - 1)) as Pk.
    revert E1 Pk Hn1 Hd2 Hdpos.
    generalize (pow2 (k - 1)) (pow2 (Z.log2 (Z.pos n)))
      (pow2 (Z.log2 (Z.pos d) + 1)) (inject_Z (Z.pos n)) (inject_Z (Z.pos d)).
    intros; nra. }
  destruct (Z.leb_spec D N) as [L|L].
  - split; [apply Hge; exact L|exact Hup].
  - split.
    + apply Qlt_le_weak. exact Hlow.
    + replace (k - 1 + 1)%Z with k by lia.
      apply Qnot_le_lt. intros H. apply Hge in H. lia.
Qed.

Lemma cexp_cases (n d : positive) :
  (cexp n d = ilog2 n d - 52 /\ -1074 <= ilog2 n d - 52)%Z
  \/ (cexp n d = -1074 /\ ilog2 n d - 52 < -1074)%Z.
Proof. unfold cexp, emin, emax, prec. lia. Qed.

(** *** What [round_pos] returns

    With [c] the exponent of the binade of [n/d], the result stands for
    [M * 2^c], where [M] is the integer nearest to [(n/d) / 2^c]. *)
Lemma round_pos_value (s : bool) (n d : positive) :
  exists M : Z,
    (0 <= M <= 2 ^ 53)%Z
    /\ (forall K, Zpos n # d <= inject_Z K * pow2 (cexp n d) -> (M <= K)%Z)
    /\ (forall K, inject_Z K * pow2 (cexp n d) <= Zpos n # d -> (K <= M)%Z)
    /\ 2 * (inject_Z M * pow2 (cexp n d) - (Zpos n # d)) <= pow2 (cexp n d)
    /\ 2 * ((Zpos n # d) - inject_Z M * pow2 (cexp n d)) <= pow2 (cexp n d)
    /\ ((M = 0%Z /\ round_pos s n d = S754_zero s)
        \/ ((0 < M)%Z
            /\ exists m e,
                 round_pos s n d = S754_finite s m e
                 /\ (Zpos m < 2 ^ 53)%Z /\ (cexp n d <= e <= 971)%Z
                 /\ inject_Z (Zpos m) * pow2 e
                    == inject_Z M * pow2 (cexp n d))
        \/ ((0 < M)%Z /\ round_pos s n d = S754_infinity s
            /\ pow2 1024 <= inject_Z M * pow2 (cexp n d))).
Proof.
  unfold round_pos.
  set (c := cexp n d).
  destruct (scale (Zpos n) (Zpos d) c) as [N D] eqn:E.
  pose proof (scale_spec n d c) as Hs. rewrite E in Hs.
  destruct Hs as (HD & HN & Hv).
  pose proof (fun K => @scale_le n d c N D K E) as Hle.
  pose proof (fun K => @scale_ge n d c N D K E) as Hge.
  pose proof (ilog2_spec n d) as [Hk1 Hk2].
  pose proof (pow2_pos c) as Pc.
  set (M := rne_div N D).
  assert (HM0 : (0 <= M)%Z) by (apply rne_div_ge; lia).
  assert (Hup : forall K, Zpos n # d <= inject_Z K * pow2 c -> (M <= K)%Z).
  { intros K HK. apply rne_div_le; [exact HD|]. apply Hle. exact HK. }
  assert (Hlo : forall K, inject_Z K * pow2 c <= Zpos n # d -> (K <= M)%Z).
  { intros K HK. apply rne_div_ge; [exact HD|]. apply Hge. exact HK. }
  assert (Hc : (ilog2 n d - 52 <= c)%Z) by (unfold c, cexp, emin, emax, prec; lia).
  assert (HM53 : (M <= 2 ^ 53)%Z).
  { apply Hup. rewrite <- pow2_Z, <- pow2_add by lia.
    apply Qlt_le_weak. eapply Qlt_le_trans; [exact Hk2|].
    apply pow2_le. lia. }
  assert (Herr : 2 * (inject_Z M * pow2 c - (Zpos n # d)) <= pow2 c
                 /\ 2 * ((Zpos n # d) - inject_Z M * pow2 c) <= pow2 c).
  { pose proof (rne_div_err N HD) as [E1 E2]. fold M in E1, E2.
    rewrite Zle_Qle in E1, E2.
    rewrite inject_Z_opp in E1.
    unfold Z.sub in E1, E2.
    rewrite inject_Z_mult, inject_Z_plus, inject_Z_mult, inject_Z_opp in E1, E2.
    rewrite Hv in E1, E2.
    assert (HDq : 0 < inject_Z D) by (rewrite <- (Zlt_Qlt 0); exact HD).
    assert (HX : (Zpos n # d) / pow2 c * pow2 c == Zpos n # d)
      by (field; apply pow2_neq_0).
    revert E1 E2 HDq HX Pc.
    generalize ((Zpos n # d) / pow2 c). 
    generalize (Zpos n # d) (pow2 c) (inject_Z D) (inject_Z M).
    intros q P D' M' X E1 E2 HDq HX Pc.
    change (inject_Z 2) with 2 in *.
    assert (B1 : 2 * (M' - X) <= 1) by nra.
    assert (B2 : -1 <= 2 * (M' - X)) by nra.
    split; nra. }
  destruct Herr as [Herr1 Herr2].
  exists M. repeat (split; [assumption || lia|]).
  assert (Hval : (2 ^ 53 = M -> inject_Z (2 ^ 52) * pow2 (c + 1)
                                == inject_Z M * pow2 c)%Z).
  { intros <-. rewrite pow2_S.
    change (inject_Z (2 ^ 53)) with (2 * inject_Z (2 ^ 52)). ring. }
  assert (Hbig : (971 < c -> 2 ^ 52 <= M)%Z).
  { intros Hgt. apply Hlo.
    destruct (cexp_cases n d) as [[Hc1 _]|[Hc1 _]]; fold c in Hc1; [|lia].
    rewrite <- pow2_Z, <- pow2_add by lia.
    replace (52 + c)%Z with (ilog2 n d) by lia. exact Hk1. }
  change (2 ^ prec)%Z with (2 ^ 53)%Z.
  change (2 ^ (prec - 1))%Z with (Zpos (2 ^ 52)%positive).
  change (emax - prec)%Z with 971%Z.
  destruct (Z.eqb_spec M (2 ^ 53)) as [EM|EM].
  - right. destruct (Z.leb_spec (c + 1) 971) as [L|L].
    + left. split; [lia|]. exists (2 ^ 52)%positive, (c + 1)%Z.
      repeat split; try lia. apply Hval. lia.
    + right. split; [lia|]. split; [reflexivity|].
      rewrite EM. rewrite <- pow2_Z, <- pow2_add by lia.
      apply pow2_le. lia.
  - destruct M as [|m|m] eqn:EqM; [left; auto| |lia].
    right. destruct (Z.leb_spec c 971) as [L|L].
    + left. split; [lia|]. exists m, c. repeat split; try lia.
    + right. split; [lia|]. split; [reflexivity|].
      specialize (Hbig L).
      apply Qle_trans with (inject_Z (2 ^ 52) * pow2 c).
      * rewrite <- pow2_Z, <- pow2_add by lia. apply pow2_le. lia.
      * apply Qmult_le_compat_r; [|apply Qlt_le_weak; exact Pc].
        rewrite <- Zle_Qle. exact Hbig.
Qed.

(** *** Rounding a positive rational *)

Lemma Q2F_pos (q : Q) :
  0 < q -> exists n, q = (Zpos n # Qden q) /\ Q2F q = round_pos false n (Qden q).
Proof.
  destruct q as [[|n|n] d]; unfold Qlt; simpl; intros H; try lia.
  exists n. split; reflexivity.
Qed.

Lemma Q2F_zero (q : Q) : q == 0 -> Q2F q = S754_zero false.
Proof.
  destruct q as [[|n|n] d]; unfold Qeq; simpl; intros H; try reflexivity; lia.
Qed.

Lemma pos_repr_inv lo f :
  pos_repr lo f = true ->
  exists m e, f = S754_finite false m e
              /\ (Zpos m < 2 ^ 53)%Z /\ (lo <= e <= 971)%Z.
Proof.
  destruct f as [| | |[] m e]; try discriminate. unfold pos_repr.
  change (2 ^ prec)%Z with (2 ^ 53)%Z. change (emax - prec)%Z with 971%Z.
  intros H. apply andb_prop in H. destruct H as [H H3].
  apply andb_prop in H. destruct H as [H1 H2].
  exists m, e. repeat split; lia.
Qed.

Lemma F2Q_finite m e :
  F2Q (S754_finite false m e) = inject_Z (Zpos m) * pow2 e.
Proof. reflexivity. Qed.

Lemma F2Q_finite_pos m e : 0 < F2Q (S754_finite false m e).
Proof.
  rewrite F2Q_finite. apply Qmult_lt_0_compat; [reflexivity|apply pow2_pos].
Qed.

(** A representable float is a multiple of every power of two up to
    its own exponent. *)
Lemma repr_multiple m e c :
  (c <= e)%Z ->
  inject_Z (Zpos m * 2 ^ (e - c)) * pow2 c == F2Q (S754_finite false m e).
Proof.
  intros H. rewrite F2Q_finite, inject_Z_mult, <- pow2_Z by lia.
  rewrite <- Qmult_assoc, <- pow2_add.
  replace (e - c + c)%Z with e by lia. reflexivity.
Qed.

Lemma repr_lt_pow2 m e :
  (Zpos m < 2 ^ 53)%Z -> F2Q (S754_finite false m e) < pow2 (53 + e).
Proof.
  intros H. rewrite F2Q_finite, pow2_add.
  apply Qmult_lt_compat_r; [apply pow2_pos|].
  rewrite pow2_Z by lia. rewrite <- Zlt_Qlt. exact H.
Qed.

(** Rounding does not cross a representable float from below. *)
Lemma Q2F_le (q : Q) (f : float) :
  0 < q -> pos_repr emin f = true -> q <= F2Q f ->
  nonneg (Q2F q) = true /\ F2Q (Q2F q) <= F2Q f.
Proof.
  intros Hq Hf Hle.
  destruct (Q2F_pos Hq) as (n & Eq & ->).
  destruct (pos_repr_inv _ _ Hf) as (mf & ef & -> & Hm & He).
  change emin with (-1074)%Z in He.
  destruct (round_pos_value false n (Qden q))
    as (M & HM & Hup & _ & _ & _ & Hres).
  rewrite <- Eq in *.
  destruct (ilog2_spec n (Qden q)) as [Hk1 _]. rewrite <- Eq in Hk1.
  assert (Hc : (cexp n (Qden q) <= ef)%Z).
  { assert (ilog2 n (Qden q) < 53 + ef)%Z.
    { apply pow2_lt_inv. eapply Qle_lt_trans; [exact Hk1|].
      eapply Qle_lt_trans; [exact Hle|]. apply repr_lt_pow2. exact Hm. }
    destruct (cexp_cases n (Qden q)) as [[-> _]|[-> _]]; lia. }
  pose proof (repr_multiple mf Hc) as HK.
  assert (HMK : inject_Z M * pow2 (cexp n (Qden q))
                <= F2Q (S754_finite false mf ef)).
  { rewrite <- HK. apply Qmult_le_compat_r.
    - rewrite <- Zle_Qle. apply Hup. rewrite HK. exact Hle.
    - apply Qlt_le_weak. apply pow2_pos. }
  destruct Hres as [[_ ->]|[(_ & m & e & -> & _ & _ & Hv)|(_ & _ & Hbig)]].
  - split; [reflexivity|]. apply Qlt_le_weak. apply F2Q_finite_pos.
  - split; [reflexivity|]. rewrite F2Q_finite, Hv. rewrite F2Q_finite in HMK.
    exact HMK.
  - exfalso. apply (Qlt_irrefl (pow2 1024)).
    eapply Qle_lt_trans; [exact Hbig|].
    eapply Qle_lt_trans; [exact HMK|].
    eapply Qlt_le_trans; [apply repr_lt_pow2; exact Hm|].
    apply pow2_le. lia.
Qed.

(** Rounding does not cross a representable float from above. *)
Lemma Q2F_ge (q : Q) (f : float) :
  pos_repr emin f = true -> F2Q f <= q ->
  Q2F q = S754_infinity false
  \/ exists m e, Q2F q = S754_finite false m e /\ F2Q f <= F2Q (Q2F q).
Proof.
  intros Hf Hle.
  destruct (pos_repr_inv _ _ Hf) as (mf & ef & -> & Hm & He).
  change emin with (-1074)%Z in He.
  assert (Hq : 0 < q)
    by (eapply Qlt_le_trans; [apply (F2Q_finite_pos mf ef)|exact Hle]).
  destruct (Q2F_pos Hq) as (n & Eq & ->).
  destruct (round_pos_value false n (Qden q))
    as (M & HM & _ & Hlo & _ & _ & Hres).
  rewrite <- Eq in *.
  destruct (ilog2_spec n (Qden q)) as [Hk1 _]. rewrite <- Eq in Hk1.
  set (c := cexp n (Qden q)) in *.
  assert (HMK : F2Q (S754_finite false mf ef) <= inject_Z M * pow2 c).
  { destruct (Z_le_gt_dec c ef) as [Hc|Hc].
    - pose proof (repr_multiple mf Hc) as HK.
      rewrite <- HK. apply Qmult_le_compat_r.
      + rewrite <- Zle_Qle. apply Hlo. rewrite HK. exact Hle.
      + apply Qlt_le_weak. apply pow2_pos.
    - destruct (cexp_cases n (Qden q)) as [[Hc1 _]|[Hc1 _]];
        fold c in Hc1; [|lia].
      apply Qle_trans with (inject_Z (2 ^ 52) * pow2 c).
      + rewrite <- pow2_Z, <- pow2_add by lia.
        apply Qlt_le_weak. eapply Qlt_le_trans; [apply repr_lt_pow2; exact Hm|].
        apply pow2_le. lia.
      + apply Qmult_le_compat_r; [|apply Qlt_le_weak; apply pow2_pos].
        rewrite <- Zle_Qle. apply Hlo.
        rewrite <- pow2_Z, <- pow2_add by lia.
        replace (52 + c)%Z with (ilog2 n (Qden q)) by lia. exact Hk1. }
  destruct Hres as [[HM0 _]|[(_ & m & e & -> & _ & _ & Hv)|(_ & -> & _)]].
  - exfalso. subst M. apply (Qlt_irrefl 0).
    eapply Qlt_le_trans; [apply (F2Q_finite_pos mf ef)|].
    rewrite Qmult_0_l in HMK. exact HMK.
  - right. exists m, e. split; [reflexivity|]. rewrite (F2Q_finite m e), Hv.
    exact HMK.
  - left. reflexivity.
Qed.

(** In the normal range the relative error of rounding is at most
    [eps]. *)
Lemma Q2F_rel (q : Q) :
  pow2 (-1022) <= q ->
  Q2F q = S754_infinity false
  \/ exists m e, Q2F q = S754_finite false m e
                 /\ q * (1 - eps) <= F2Q (Q2F q) <= q * (1 + eps).
Proof.
  intros Hle.
  assert (Hq : 0 < q) by (eapply Qlt_le_trans; [apply pow2_pos|exact Hle]).
  destruct (Q2F_pos Hq) as (n & Eq & ->).
  destruct (round_pos_value false n (Qden q))
    as (M & HM & _ & Hlo & Herr1 & Herr2 & Hres).
  rewrite <- Eq in *.
  destruct (ilog2_spec n (Qden q)) as [Hk1 Hk2]. rewrite <- Eq in Hk1, Hk2.
  set (c := cexp n (Qden q)) in *.
  assert (Hk : (-1022 <= ilog2 n (Qden q))%Z).
  { assert (-1022 < ilog2 n (Qden q) + 1)%Z; [|lia].
    apply pow2_lt_inv. eapply Qle_lt_trans; [exact Hle|exact Hk2]. }
  destruct (cexp_cases n (Qden q)) as [[Hc1 _]|[Hc1 Hc2]];
    fold c in Hc1; [|lia].
  assert (Hc : inject_Z (2 ^ 52) * pow2 c <= q).
  { rewrite <- pow2_Z, <- pow2_add by lia.
    replace (52 + c)%Z with (ilog2 n (Qden q)) by lia. exact Hk1. }
  assert (HM52 : (2 ^ 52 <= M)%Z) by (apply Hlo; exact Hc).
  destruct Hres as [[HM0 _]|[(_ & m & e & -> & _ & _ & Hv)|(_ & -> & _)]].
  - lia.
  - right. exists m, e. split; [reflexivity|]. rewrite (F2Q_finite m e), Hv.
    unfold eps. change (inject_Z (2 ^ 52)) with (4503599627370496 # 1) in Hc.
    change (1 # 2 ^ 53) with (1 # 9007199254740992).
    revert Hc Herr1 Herr2.
    generalize (inject_Z M * pow2 c) (pow2 c). intros V P Hc Herr1 Herr2.
    split; lra.
  - left. reflexivity.
Qed.

End RoundFacts.

(** ** The grid stays between its end points *)

Module GridFacts.

Import F64 Numpy Spec OrderFacts RoundFacts.
Local Open Scope Q_scope.

Ltac eps_const :=
  unfold eps in *;
  change (1 # 2 ^ 53) with (1 # 9007199254740992) in *.

Lemma nonneg_inv x :
  nonneg x = true ->
  x = S754_zero false \/ exists m e, x = S754_finite false m e.
Proof. destruct x as [[]|[]| |[] m e]; try discriminate; eauto. Qed.










(** The integers that [linspace] multiplies by. *)
Lemma arange_values :
  Z2F 0 = S754_zero false
  /\ Z2F 999 = S754_finite false 8787296929185792 (-43)
  /\ F2Q (Z2F 999) == 999.
Proof. vm_compute. repeat split; reflexivity. Qed.

Lemma arange_pos i :
  (1 <= i < 999)%nat ->
  exists m e, Z2F (Z.of_nat i) = S754_finite false m e
              /\ 1 <= F2Q (Z2F (Z.of_nat i)) <= 998.
Proof.
  intros Hi. unfold Z2F.
  assert (H1 : 1 <= inject_Z (Z.of_nat i))
    by (change 1 with (inject_Z 1); rewrite <- Zle_Qle; lia).
  assert (H2 : inject_Z (Z.of_nat i) <= 998)
    by (change 998 with (inject_Z 998); rewrite <- Zle_Qle; lia).
  assert (Hq : 0 < inject_Z (Z.of_nat i)) by lra.
  destruct (@Q2F_le _ (S754_finite false 998 0) Hq eq_refl) as [Nr Hr];
    [exact H2|].
  destruct (@Q2F_ge (inject_Z (Z.of_nat i)) (S754_finite false 1 0) eq_refl)
    as [E|(m & e & E & Hge)]; [exact H1|rewrite E in Nr; discriminate|].
  exists m, e. split; [exact E|].
  change (F2Q (S754_finite false 998 0)) with (998 * 1) in Hr.
  change (F2Q (S754_finite false 1 0)) with (1 * 1) in Hge.
  split; lra.
Qed.

Lemma arange_div i :
  (i < 999)%nat -> nonneg (fdiv (Z2F (Z.of_nat i)) (Z2F 999)) = true.
Proof.
  intros Hi. destruct arange_values as (E0 & E999 & V999).
  destruct (Nat.eq_dec i 0) as [->|Hi0].
  - change (Z.of_nat 0) with 0%Z. rewrite E0, E999. reflexivity.
  - destruct (@arange_pos i ltac:(lia)) as (m & e & E & Hv).
    rewrite E in *.
    assert (Ediv : fdiv (S754_finite false m e) (Z2F 999)
                   = Q2F (F2Q (S754_finite false m e) / F2Q (Z2F 999)))
      by (rewrite E999; reflexivity).
    rewrite Ediv.
    assert (Hq : F2Q (S754_finite false m e) / F2Q (Z2F 999)
                 == F2Q (S754_finite false m e) * (1 # 999))
      by (rewrite V999; field).
    destruct (@Q2F_le (F2Q (S754_finite false m e) / F2Q (Z2F 999))
                (S754_finite false 1 0)) as [Nr _]; auto.
    + rewrite Hq. lra.
    + rewrite Hq. change (F2Q (S754_finite false 1 0)) with (1 * 1). lra.
Qed.





(** Rounding in the normal range, below a representable float. *)
Lemma Q2F_normal (q : Q) (f : float) :
  pow2 (-1022) <= q -> q <= F2Q f -> pos_repr emin f = true ->
  exists m e, Q2F q = S754_finite false m e
              /\ q * (1 - eps) <= F2Q (Q2F q) <= q * (1 + eps).
Proof.
  intros Hn Hle Hf.
  assert (Hq : 0 < q) by (eapply Qlt_le_trans; [apply pow2_pos|exact Hn]).
  destruct (@Q2F_le _ f Hq Hf Hle) as [Nr _].
  destruct (Q2F_rel Hn) as [E|H]; [rewrite E in Nr; discriminate|exact H].
Qed.

Lemma fadd_zero_l x : nonneg x = true -> fadd (S754_zero false) x = x.
Proof.
  intros H. destruct (nonneg_inv _ H) as [->|(m & e & ->)]; reflexivity.
Qed.

Lemma fmul_zero_r x :
  nonneg x = true -> fmul x (S754_zero false) = S754_zero false.
Proof.
  intros H. destruct (nonneg_inv _ H) as [->|(m & e & ->)]; reflexivity.
Qed.


End GridFacts.

(** ** The equilibrium lies between the extreme lattice parameters *)

Module RangeFacts.

Import F64 Text Numpy Files Analyze Spec.
Import OrderFacts NumpyFacts AnalyzeFacts RegexFacts RoundFacts GridFacts.
Import Samples SamplesFacts.

Lemma set_last_snoc (l : list float) x v : set_last (l ++ [x]) v = l ++ [v].
Proof.
  induction l as [|y l IH]; auto.
  change ((y :: l) ++ [x]) with (y :: (l ++ [x])).
  destruct (l ++ [x]) eqn:E.
  - destruct l; discriminate.
  - change (set_last (y :: f :: l0) v) with (y :: set_last (f :: l0) v).
    rewrite IH. reflexivity.
Qed.

Lemma linspace_1000 (lo hi : float) :
  linspace lo hi 1000
  = map (fun i =>
           fadd (if feq (fdiv (fsub hi lo) (Z2F 999)) (S754_zero false)
                 then fmul (fdiv (Z2F (Z.of_nat i)) (Z2F 999)) (fsub hi lo)
                 else fmul (Z2F (Z.of_nat i)) (fdiv (fsub hi lo) (Z2F 999)))
             lo) (seq 0 999) ++ [hi].
Proof.
  unfold linspace.
  change (1000 - 1)%nat with 999%nat.
  change (0 <? 999)%nat with true. change (1 <? 1000)%nat with true.
  cbv iota. change (Z.of_nat 999) with 999%Z.
  change (seq 0 1000) with (seq 0 (S 999)). rewrite seq_S.
  destruct (feq (fdiv (fsub hi lo) (Z2F 999)) (S754_zero false));
    rewrite !map_map, map_app; cbn [map]; apply set_last_snoc.
Qed.


(** [a.min()] and [a.max()] of an array without NaN. *)
Lemma amin_loop (r : list float) : forall m,
  is_nan m = false -> forallb (fun x => negb (is_nan x)) r = true ->
  let res := fold_left (fun m v => if fle m v || is_nan m then m else v) r m in
  (res = m \/ In res r) /\ fle res m = true
  /\ Forall (fun x => fle res x = true) r.
Proof.
  induction r as [|v r IH]; intros m Hm Hr; simpl.
  - split; [auto|]. split; [apply fle_refl; exact Hm|constructor].
  - simpl in Hr. apply andb_prop in Hr. destruct Hr as [Hv Hr].
    apply negb_true_iff in Hv. rewrite Hm, orb_false_r.
    destruct (fle m v) eqn:E.
    + destruct (IH m Hm Hr) as (H1 & H2 & H3).
      split; [tauto|]. split; [exact H2|].
      constructor; [|exact H3]. eapply fle_trans; eauto.
    + destruct (IH v Hv Hr) as (H1 & H2 & H3).
      split; [destruct H1 as [H1|H1]; [right; left; symmetry; exact H1|tauto]|].
      assert (Hvm : fle v m = true)
        by (destruct (fle_total m v Hm Hv); congruence).
      split; [eapply fle_trans; eauto|].
      constructor; [exact H2|exact H3].
Qed.

Lemma amin_spec (l : list float) :
  l <> [] -> forallb (fun x => negb (is_nan x)) l = true ->
  In (amin l) l /\ Forall (fun x => fle (amin l) x = true) l.
Proof.
  destruct l as [|x r]; [congruence|]. intros _ H. simpl in H.
  apply andb_prop in H. destruct H as [Hx Hr]. apply negb_true_iff in Hx.
  destruct (amin_loop r x Hx Hr) as (H1 & H2 & H3).
  unfold amin. split.
  - destruct H1 as [->|H1]; [left; reflexivity|right; exact H1].
  - constructor; assumption.
Qed.

Lemma amax_loop (r : list float) : forall m,
  is_nan m = false -> forallb (fun x => negb (is_nan x)) r = true ->
  let res := fold_left (fun m v => if fle v m || is_nan m then m else v) r m in
  (res = m \/ In res r) /\ fle m res = true
  /\ Forall (fun x => fle x res = true) r.
Proof.
  induction r as [|v r IH]; intros m Hm Hr; simpl.
  - split; [auto|]. split; [apply fle_refl; exact Hm|constructor].
  - simpl in Hr. apply andb_prop in Hr. destruct Hr as [Hv Hr].
    apply negb_true_iff in Hv. rewrite Hm, orb_false_r.
    destruct (fle v m) eqn:E.
    + destruct (IH m Hm Hr) as (H1 & H2 & H3).
      split; [tauto|]. split; [exact H2|].
      constructor; [|exact H3]. eapply fle_trans; eauto.
    + destruct (IH v Hv Hr) as (H1 & H2 & H3).
      split; [destruct H1 as [H1|H1]; [right; left; symmetry; exact H1|tauto]|].
      assert (Hvm : fle m v = true)
        by (destruct (fle_total v m Hv Hm); congruence).
      split; [eapply fle_trans; eauto|].
      constructor; [exact H2|exact H3].
Qed.

Lemma amax_spec (l : list float) :
  l <> [] -> forallb (fun x => negb (is_nan x)) l = true ->
  In (amax l) l /\ Forall (fun x => fle x (amax l) = true) l.
Proof.
  destruct l as [|x r]; [congruence|]. intros _ H. simpl in H.
  apply andb_prop in H. destruct H as [Hx Hr]. apply negb_true_iff in Hx.
  destruct (amax_loop r x Hx Hr) as (H1 & H2 & H3).
  unfold amax. split.
  - destruct H1 as [->|H1]; [left; reflexivity|right; exact H1].
  - constructor; assumption.
Qed.

(** *** Lattice parameters read from file names *)

Local Open Scope Z_scope.








Lemma drop_length_le n : forall s, (String.length (drop n s) <= String.length s)%nat.
Proof. intros s. rewrite length_drop. lia. Qed.

(** The group of the file-name pattern is made of digits and points and
    is no longer than the name. *)
Lemma re_search_filename (s g : string) :
  re_search filename_re s = Some g ->
  forallb_str cls_digit_dot g = true
  /\ (String.length g <= String.length s)%nat.
Proof.
  intros H. destruct (re_search_some _ _ H) as (n & (m & post & Hs & Hn & Hm) & _).
  unfold filename_re in Hm.
  inversion Hm as [|l re s1 cap g1 Hm1| |]; subst.
  inversion Hm1 as [| | |p re w s2 cap g2 Hw Hp Hm2]; subst.
  inversion Hm2 as [|l re s3 cap g3 Hm3| |]; subst.
  inversion Hm3; subst.
  split; [exact Hp|].
  pose proof (drop_length_le n s) as Hd. rewrite Hs in Hd.
  rewrite !length_app_str in Hd. lia.
Qed.

Lemma sorted_perm_self (l : list string) : Permutation (sorted l) l.
Proof.
  unfold sorted. induction l as [|x l IH]; simpl; auto.
  assert (Hins : forall y s, Permutation (insert y s) (y :: s)).
  { clear. intros y s. induction s as [|z s IH]; simpl; auto.
    destruct (String.leb y z); auto. rewrite IH. apply perm_swap. }
  rewrite Hins. auto.
Qed.

Lemma output_files_in (f : fs) (p : string) :
  In p (output_files f) -> In p (map fst f).
Proof.
  intros H. unfold output_files in H.
  apply (Permutation_in _ (sorted_perm_self _)) in H.
  apply filter_In in H. tauto.
Qed.



Section Range.

Variable polyfit : list float -> list float -> nat -> option (list float).
Variable argsort : list float -> list nat.


End Range.



End RangeFacts.

(** ** The generator and the directory it writes to *)

Module GenerateRuns.

Import F64 Text Numpy Files Generate Analyze Spec.
Import FilesFacts GenerateFacts Determinism.
Local Open Scope string_scope.

(** Writing the text a path already holds changes nothing. *)
Lemma write_file_same path text (f : fs) :
  lookup path f = Some text -> write_file path text f = f.
Proof.
  induction f as [|[p c] r IH]; simpl; [discriminate|].
  destruct (String.eqb p path) eqn:E.
  - intros H. injection H as ->. reflexivity.
  - intros H. now rewrite IH.
Qed.

Lemma write_file_names path text (f : fs) q :
  In q (map fst (write_file path text f)) <-> q = path \/ In q (map fst f).
Proof.
  induction f as [|[p c] r IH]; simpl.
  - split; intros [H|H]; auto; contradiction.
  - destruct (String.eqb p path) eqn:E; simpl.
    + apply String.eqb_eq in E. subst p. intuition auto.
    + rewrite IH. tauto.
Qed.

(** The file system and the printed lines of the loop do not depend on
    each other. *)
Lemma fold_body_snd (l : list float) : forall f g out,
  snd (fold_left body l (f, out)) = snd (fold_left body l (g, out)).
Proof.
  induction l as [|a l IH]; intros f g out; simpl; [reflexivity|].
  apply IH.
Qed.

Lemma generate_fst (f : fs) :
  fst (generate f) = fst (fold_left body lattice_params_ang (f, [])).
Proof.
  unfold generate.
  destruct (fold_left body lattice_params_ang (f, [])). reflexivity.
Qed.

Lemma generate_snd (f g : fs) : snd (generate f) = snd (generate g).
Proof.
  unfold generate.
  pose proof (fold_body_snd lattice_params_ang f g []) as H.
  destruct (fold_left body lattice_params_ang (f, [])),
           (fold_left body lattice_params_ang (g, [])).
  cbn [fst snd] in *. rewrite H. reflexivity.
Qed.

Lemma fold_body_other (l : list float) q : forall st,
  ~ In q (map input_filename l) ->
  lookup q (fst (fold_left body l st)) = lookup q (fst st).
Proof.
  induction l as [|a l IH]; intros st Hn; simpl; [reflexivity|].
  rewrite IH by (intros H; apply Hn; simpl; auto).
  destruct st as [f out]. simpl.
  apply lookup_write_other. intros E. apply Hn. simpl. auto.
Qed.

Lemma fold_body_names (l : list float) q : forall st,
  In q (map fst (fst (fold_left body l st)))
  <-> In q (map fst (fst st)) \/ In q (map input_filename l).
Proof.
  induction l as [|a l IH]; intros st; simpl; [tauto|].
  rewrite IH. destruct st as [f out]. simpl. rewrite write_file_names.
  split; intros H; intuition auto.
Qed.

Lemma fold_body_fixed (l : list float) : forall f out,
  Forall (fun a => lookup (input_filename a) f
                   = Some (input_template a (fmul a ANG_TO_BOHR))) l ->
  fst (fold_left body l (f, out)) = f.
Proof.
  induction l as [|a l IH]; intros f out H; simpl; [reflexivity|].
  inversion H as [|? ? Ha Hl]; subst.
  rewrite (write_file_same _ _ Ha). now apply IH.
Qed.

(** No name the generator writes to is one the analysis looks at. *)
Lemma input_names_not_globbed :
  forallb (fun p => negb (glob_match p))
    (map input_filename lattice_params_ang) = true.
Proof. rewrite sweep_names. vm_compute. reflexivity. Qed.

(** X1: The generator touches its twelve input files and nothing else: every
    other path, and in particular every path the analysis globs, holds
    afterwards what it held before, and the paths present afterwards are
    those present before together with the twelve names. *)
Theorem generate_keeps_other_files (f : fs) :
  (forall q, ~ In q (map input_filename lattice_params_ang) ->
             lookup q (fst (generate f)) = lookup q f)
  /\ (forall q, glob_match q = true ->
                lookup q (fst (generate f)) = lookup q f)
  /\ (forall q, In q (map fst (fst (generate f)))
                <-> In q (map fst f)
                    \/ In q (map input_filename lattice_params_ang)).
Proof.
  rewrite generate_fst. split; [|split].
  - intros q Hq. exact (@fold_body_other lattice_params_ang q (f, []) Hq).
  - intros q Hq. apply (@fold_body_other lattice_params_ang q (f, [])).
    intros Hin.
    pose proof (proj1 (forallb_forall _ _) input_names_not_globbed q Hin) as H.
    cbv beta in H. rewrite Hq in H. discriminate.
  - intros q. apply fold_body_names.
Qed.

(** X2: Running the generator a second time changes no file and prints the
    same lines: the files are overwritten with the text they hold. *)
Theorem generate_idempotent (f : fs) :
  generate (fst (generate f)) = generate f.
Proof.
  assert (Hfst : fst (generate (fst (generate f))) = fst (generate f)).
  { rewrite (generate_fst (fst (generate f))).
    apply fold_body_fixed. apply generate_lookup. apply sweep_names_NoDup. }
  pose proof (generate_snd (fst (generate f)) f) as Hsnd.
  destruct (generate (fst (generate f))) as [f2 o2].
  destruct (generate f) as [f1 o1].
  cbn [fst snd] in *. congruence.
Qed.

(** A loop over names none of which is globbed leaves no globbed name
    in a directory that had none. *)
Lemma fold_body_no_glob (l : list float) (f : fs) :
  forallb (fun p => negb (glob_match p)) (map input_filename l) = true ->
  forallb (fun p => negb (glob_match p)) (map fst f) = true ->
  filter glob_match (map fst (fst (fold_left body l (f, [])))) = [].
Proof.
  intros Hl Hf.
  destruct (filter glob_match _) as [|p r] eqn:E; [reflexivity|exfalso].
  assert (Hin : In p (filter glob_match
                        (map fst (fst (fold_left body l (f, []))))))
    by (rewrite E; left; reflexivity).
  destruct (proj1 (filter_In glob_match p _) Hin) as [Hp Hg].
  destruct (proj1 (fold_body_names l p (f, [])) Hp) as [Hq|Hq].
  - pose proof (proj1 (forallb_forall _ _) Hf p Hq) as H.
    cbv beta in H. rewrite Hg in H. discriminate.
  - pose proof (proj1 (forallb_forall _ _) Hl p Hq) as H.
    cbv beta in H. rewrite Hg in H. discriminate.
Qed.

Section AfterGeneration.

Variable polyfit : list float -> list float -> nat -> option (list float).
Variable argsort : list float -> list nat.

(** X3: The generator creates no output file ([pw.x] is not run): the
    analysis of a directory that held no [cu_a*.out] file before the
    generator ran finds no energies and exits with status 1. *)
Theorem analysis_after_generation (f : fs) (dir : bool) :
  forallb (fun p => negb (glob_match p)) (map fst f) = true ->
  analyze polyfit argsort (mkEnv (fst (generate f)) dir)
  = Exited 1 ["No energies extracted. Check that calculations have completed."].
Proof.
  intros Hf.
  assert (Hnone : filter glob_match (map fst (fst (generate f))) = []).
  { rewrite generate_fst.
    exact (@fold_body_no_glob lattice_params_ang f input_names_not_globbed Hf). }
  unfold analyze, output_files. cbn [files]. rewrite Hnone. reflexivity.
Qed.

End AfterGeneration.

Lemma analysis_after_generation_witness :
  analyze Samples.failing_fit Samples.insertion_argsort
    (mkEnv (fst (generate [("calculations/notes.txt", "sweep")])) true)
  = Exited 1 ["No energies extracted. Check that calculations have completed."].
Proof.
  apply analysis_after_generation. vm_compute. reflexivity.
Defined.

End GenerateRuns.

(** ** How a run of the analysis can end *)

Module AnalyzeRuns.

Import F64 Text Numpy Files Analyze Spec Samples RunSpec.
Import OrderFacts NumpyFacts FilesFacts AnalyzeFacts SamplesFacts.
Import Determinism RegexFacts RangeFacts.
Local Open Scope string_scope.

Lemma visit_raise (f : fs) (p : string) (x : exn) :
  lookup p f <> None ->
  (visit f p = Raise x <-> x = ValueError /\ (bad_name p \/ bad_energy f p)).
Proof.
  intros Hp. unfold visit, extract_energy, bad_name, bad_energy.
  destruct (re_search filename_re p) as [g|] eqn:Eg.
  2:{ split; [discriminate|]. intros [_ [(g & H & _)|(g & a & c & g' & H & _)]];
      discriminate. }
  destruct (py_float g) as [a|] eqn:Ea.
  2:{ split.
      - intros H. injection H as <-. split; auto. left. exists g. auto.
      - intros [-> _]. reflexivity. }
  destruct (lookup p f) as [c|] eqn:Ec; [|congruence].
  destruct (re_search energy_re c) as [g'|] eqn:Eg'.
  2:{ split; [discriminate|].
      intros [_ [(g0 & H & H')|(g0 & a0 & c0 & g0' & _ & _ & H1 & H2 & _)]].
      - injection H as <-. congruence.
      - injection H1 as <-. congruence. }
  destruct (py_float g') as [v|] eqn:Ev.
  - split; [discriminate|].
    intros [_ [(g0 & H & H')|(g0 & a0 & c0 & g0' & _ & _ & H1 & H2 & H3)]].
    + injection H as <-. congruence.
    + injection H1 as <-. rewrite Eg' in H2. injection H2 as <-. congruence.
  - split.
    + intros H. injection H as <-. split; auto. right.
      exists g, a, c, g'. auto.
    + intros [-> _]. reflexivity.
Qed.

Lemma collect_raise (f : fs) (l : list string) (x : exn) :
  collect f l = Raise x -> exists p, In p l /\ visit f p = Raise x.
Proof.
  induction l as [|p l IH]; cbn [collect]; [discriminate|].
  destruct (visit f p) as [r|y] eqn:Ev.
  - destruct (collect f l) as [rows|y]; [discriminate|].
    intros H. injection H as <-. destruct IH as (q & Hq & Hv); auto.
    exists q. simpl. auto.
  - intros H. injection H as <-. exists p. simpl. auto.
Qed.

Lemma collect_raise_in (f : fs) (l : list string) (p : string) (x : exn) :
  In p l -> visit f p = Raise x -> exists y, collect f l = Raise y.
Proof.
  induction l as [|q l IH]; [contradiction|]. cbn [collect].
  intros [->|Hin] Hv.
  - rewrite Hv. eauto.
  - destruct (visit f q) as [r|y]; [|eauto].
    destruct (IH Hin Hv) as [y ->]. eauto.
Qed.

Lemma output_files_exist (f : fs) (p : string) :
  In p (output_files f) -> lookup p f <> None.
Proof. intros H. apply lookup_in. now apply output_files_in. Qed.

Lemma visit_skip (f : fs) (p content : string) :
  lookup p f = Some content ->
  (visit f p = Ok None <-> skipped p content).
Proof.
  intros Hp. unfold visit, extract_energy, skipped. rewrite Hp.
  destruct (re_search filename_re p) as [g|] eqn:Eg.
  2:{ split; auto. }
  destruct (py_float g) as [a|] eqn:Ea.
  2:{ split; [discriminate|].
      intros [H|(g0 & a0 & H & H' & _)]; [discriminate|].
      injection H as <-. congruence. }
  destruct (re_search energy_re content) as [g'|] eqn:Eg'.
  - split.
    + destruct (py_float g'); discriminate.
    + intros [H|(g0 & a0 & _ & _ & H)]; discriminate.
  - split; auto. intros _. right. exists g, a. auto.
Qed.

(** The sampled curve never leaves a grid of 1000 points. *)
Lemma curve_total (grid vals : list float) :
  List.length grid = 1000%nat -> List.length vals = 1000%nat ->
  curve grid vals (linspace_int 0 999 subsample) <> None.
Proof.
  intros Lg Lv.
  destruct sample_idx_values as (Hidx & _ & Hrange).
  rewrite Hidx, (@curve_points grid vals sample_idx); [discriminate|congruence|].
  rewrite Lg. apply Forall_forall. intros i Hi.
  apply Nat.ltb_lt.
  exact (proj1 (forallb_forall _ _) Hrange i Hi).
Qed.

Section Runs.

Variable polyfit : list float -> list float -> nat -> option (list float).
Variable argsort : list float -> list nat.


(** X5: One globbed file whose name, or whose energy line, holds text that
    is no number ([cu_a1.2.3.out], [= - Ry]) aborts the whole run with
    [ValueError], whatever the other files hold; no file is written. *)
Theorem malformed_number_aborts (e : env) (p : string) :
  In p (output_files (files e)) ->
  bad_name p \/ bad_energy (files e) p ->
  analyze polyfit argsort e = Crashed ValueError
  /\ final_files e (analyze polyfit argsort e) = files e.
Proof.
  intros Hp Hbad.
  assert (Hv : visit (files e) p = Raise ValueError)
    by (apply (@visit_raise _ _ ValueError (@output_files_exist _ _ Hp)); auto).
  destruct (@collect_raise_in _ _ _ _ Hp Hv) as [y Hy].
  destruct (@collect_raise _ _ _ Hy) as (q & Hq & Hvq).
  apply (@visit_raise _ _ y (@output_files_exist _ _ Hq)) in Hvq.
  destruct Hvq as [-> _].
  assert (H : analyze polyfit argsort e = Crashed ValueError)
    by (unfold analyze; rewrite Hy; reflexivity).
  rewrite H. split; reflexivity.
Qed.

(** X6: When [../assets] is missing, a run that has collected rows and fitted
    them ends with [FileNotFoundError] at the very end: nothing is
    written. *)
Theorem missing_assets_dir (e : env) (rows : list row) (cs : list float) :
  collect (files e) (output_files (files e)) = Ok rows ->
  rows <> [] ->
  polyfit (take_idx (map row_param rows) (argsort (map row_param rows)))
    (take_idx (map row_energy rows) (argsort (map row_param rows))) 4
  = Some cs ->
  assets_dir e = false ->
  analyze polyfit argsort e = Crashed FileNotFoundError
  /\ final_files e (analyze polyfit argsort e) = files e.
Proof.
  intros Hc Hne Hfit Hdir.
  assert (H : analyze polyfit argsort e = Crashed FileNotFoundError).
  { unfold analyze. rewrite Hc.
    destruct (List.length (map row_energy rows) =? 0)%nat eqn:E.
    { destruct rows; [congruence|discriminate]. }
    rewrite Hfit.
    set (grid := linspace _ _ 1000).
    assert (Lg : List.length grid = 1000%nat) by apply linspace_length.
    rewrite Lg. change (Z.of_nat 1000 - 1)%Z with 999%Z.
    destruct (curve grid _ _) as [fit|] eqn:Ecurve.
    - rewrite Hdir. reflexivity.
    - exfalso. revert Ecurve. apply curve_total; [exact Lg|].
      rewrite length_map. exact Lg. }
  rewrite H. split; reflexivity.
Qed.

End Runs.


Lemma malformed_number_aborts_witness :
  let e := mkEnv [("calculations/cu_a2.200.out", qe_output "-213.10");
                  ("calculations/cu_a2.300.out", qe_output "-21-3.05")] true in
  bad_energy (files e) "calculations/cu_a2.300.out"
  /\ analyze fixed_fit insertion_argsort e = Crashed ValueError.
Proof.
  intros e.
  assert (Hb : bad_energy (files e) "calculations/cu_a2.300.out").
  { exists "2.300", (Q2F (23 # 10)), (qe_output "-21-3.05"), "-21-3.05".
    repeat split; vm_compute; reflexivity. }
  split; [exact Hb|].
  apply (@malformed_number_aborts fixed_fit insertion_argsort e
           "calculations/cu_a2.300.out").
  - vm_compute. right. left. reflexivity.
  - right. exact Hb.
Defined.

Lemma missing_assets_dir_witness :
  collect three_files (output_files three_files) = Ok three_rows
  /\ analyze fixed_fit insertion_argsort (mkEnv three_files false)
     = Crashed FileNotFoundError.
Proof.
  destruct three_collect as [Hc Hne].
  split; [exact Hc|].
  exact (proj1 (@missing_assets_dir fixed_fit insertion_argsort
                  (mkEnv three_files false) three_rows _ Hc Hne
                  eq_refl eq_refl)).
Defined.

End AnalyzeRuns.

(** ** The files the analysis visits *)

Module VisitFacts.

Import F64 Text Numpy Files Analyze Spec Samples RunSpec.
Import OrderFacts NumpyFacts FilesFacts AnalyzeFacts SamplesFacts.
Import Determinism RegexFacts RangeFacts AnalyzeRuns.
Local Open Scope string_scope.

Lemma insert_sorted (x : string) (l : list string) :
  StronglySorted (fun a b => String.leb a b = true) l ->
  StronglySorted (fun a b => String.leb a b = true) (insert x l).
Proof.
  induction 1 as [|y l Hs IH Hy]; simpl.
  - constructor; constructor.
  - destruct (String.leb x y) eqn:E.
    + constructor; [constructor; assumption|].
      constructor; [exact E|].
      eapply Forall_impl; [|exact Hy]. intros z Hz.
      exact (leb_trans _ _ _ E Hz).
    + constructor; [exact IH|].
      assert (Hp : Permutation (insert x l) (x :: l)).
      { clear. induction l as [|z s IHs]; simpl; auto.
        destruct (String.leb x z); auto.
        rewrite IHs. apply perm_swap. }
      apply Forall_forall. intros z Hz.
      apply (Permutation_in _ Hp) in Hz. destruct Hz as [<-|Hz].
      * exact (leb_false _ _ E).
      * exact (proj1 (Forall_forall _ _) Hy z Hz).
Qed.

Lemma sorted_sorted (l : list string) :
  StronglySorted (fun a b => String.leb a b = true) (sorted l).
Proof.
  unfold sorted. induction l as [|x l IH]; simpl.
  - constructor.
  - apply insert_sorted. exact IH.
Qed.

Lemma has_slash_app (a b : string) :
  has_slash (a ++ b) = has_slash a || has_slash b.
Proof.
  unfold has_slash. rewrite forallb_str_app.
  destruct (forallb_str _ a), (forallb_str _ b); reflexivity.
Qed.

Lemma drop_add (a b : nat) : forall s, drop (a + b) s = drop b (drop a s).
Proof.
  induction a as [|a IH]; intros s; simpl; [reflexivity|].
  destruct s as [|c s]; [destruct b; reflexivity|]. apply IH.
Qed.

(** The glob pattern [calculations/cu_a*.out], read as a statement about
    the path. *)
Lemma glob_match_iff (p : string) :
  glob_match p = true
  <-> exists mid, p = "calculations/cu_a" ++ mid ++ ".out"
                  /\ has_slash mid = false.
Proof.
  unfold glob_match. split.
  - intros H.
    apply andb_prop in H. destruct H as [H H5].
    apply andb_prop in H. destruct H as [H H4].
    apply andb_prop in H. destruct H as [H H3].
    apply andb_prop in H. destruct H as [H1 H2].
    apply prefix_split in H1. apply prefix_split in H3.
    change (length "calculations/") with 13%nat in H1.
    change (length "cu_a") with 4%nat in H3.
    set (name := drop 13 p) in *. set (rest := drop 4 name) in *.
    apply Nat.leb_le in H4. apply String.eqb_eq in H5.
    assert (Ln : length name = (4 + length rest)%nat).
    { rewrite H3 at 1. rewrite length_app_str. reflexivity. }
    assert (Hd : drop (length rest - 4) rest = ".out").
    { rewrite <- H5. rewrite Ln.
      replace (4 + length rest - 4)%nat with (4 + (length rest - 4))%nat by lia.
      rewrite drop_add. reflexivity. }
    exists (take (length rest - 4) rest). split.
    + rewrite H1, H3. cbn [append]. do 17 f_equal.
      rewrite <- Hd. symmetry. apply take_drop.
    + apply negb_true_iff in H2. rewrite H3 in H2.
      rewrite has_slash_app in H2. apply orb_false_elim in H2.
      destruct H2 as [_ H2].
      rewrite <- (take_drop (length rest - 4) rest) in H2.
      rewrite has_slash_app in H2. apply orb_false_elim in H2. tauto.
  - intros (mid & -> & Hm).
    change ("calculations/cu_a" ++ mid ++ ".out")
      with ("calculations/" ++ ("cu_a" ++ (mid ++ ".out"))).
    rewrite prefix_app.
    change 13%nat with (length "calculations/"). rewrite drop_app.
    rewrite prefix_app, !has_slash_app, Hm, !length_app_str.
    change (length "cu_a") with 4%nat. change (length ".out") with 4%nat.
    replace (4 + (length mid + 4) - 4)%nat with (4 + length mid)%nat by lia.
    rewrite drop_add.
    change (drop 4 ("cu_a" ++ (mid ++ ".out"))) with (mid ++ ".out").
    rewrite drop_app.
    assert (Hl : (8 <=? 4 + (length mid + 4))%nat = true)
      by (apply Nat.leb_le; lia).
    rewrite Hl. reflexivity.
Qed.

(** X7: The loop visits exactly the paths [calculations/cu_a<mid>.out] of the
    directory, [mid] being any text without a slash, each as often as the
    directory lists it, in ascending order of the names by code
    points. *)
Theorem output_files_sorted (f : fs) :
  Permutation (output_files f) (filter glob_match (map fst f))
  /\ StronglySorted (fun a b => String.leb a b = true) (output_files f)
  /\ (forall p, In p (output_files f)
                <-> In p (map fst f)
                    /\ exists mid, p = "calculations/cu_a" ++ mid ++ ".out"
                                   /\ has_slash mid = false).
Proof.
  assert (Hp : Permutation (output_files f) (filter glob_match (map fst f)))
    by apply sorted_perm_self.
  split; [exact Hp|]. split; [apply sorted_sorted|].
  intros p. rewrite <- glob_match_iff, <- filter_In.
  split; intros H.
  - exact (Permutation_in _ Hp H).
  - exact (Permutation_in _ (Permutation_sym Hp) H).
Qed.

Lemma collect_cons_skip (f : fs) (p : string) (l : list string) :
  visit f p = Ok None -> collect f (p :: l) = collect f l.
Proof.
  intros Hv. cbn [collect]. rewrite Hv.
  destruct (collect f l); reflexivity.
Qed.

Lemma collect_insert_skip (f : fs) (p : string) (l : list string) :
  visit f p = Ok None -> collect f (insert p l) = collect f l.
Proof.
  intros Hv. induction l as [|q l IH]; cbn [insert].
  - apply collect_cons_skip. exact Hv.
  - destruct (String.leb p q).
    + apply collect_cons_skip. exact Hv.
    + cbn [collect]. rewrite IH. reflexivity.
Qed.

Lemma lookup_cons_other (p c q : string) (f : fs) :
  p <> q -> lookup q ((p, c) :: f) = lookup q f.
Proof.
  intros H. simpl. destruct (String.eqb p q) eqn:E; [|reflexivity].
  apply String.eqb_eq in E. contradiction.
Qed.

Section Runs.

Variable polyfit : list float -> list float -> nat -> option (list float).
Variable argsort : list float -> list nat.

(** Runs that collect the same rows, or fail on the same exception, end
    the same way. *)
Lemma analyze_same_collect (e1 e2 : env) :
  collect (files e1) (output_files (files e1))
  = collect (files e2) (output_files (files e2)) ->
  assets_dir e1 = assets_dir e2 ->
  same_results (analyze polyfit argsort e1) (analyze polyfit argsort e2).
Proof.
  intros H Hdir. unfold analyze. rewrite <- H, <- Hdir.
  destruct (collect (files e1) (output_files (files e1))) as [rows|x];
    [|reflexivity].
  destruct (List.length (map row_energy rows) =? 0)%nat; [split; reflexivity|].
  destruct (polyfit _ _ 4) as [cs|]; [|reflexivity].
  destruct (curve _ _ _) as [fit|]; [|reflexivity].
  destruct (assets_dir e1); [|reflexivity].
  cbn [same_results collected lattice_params energies coeffs a_fine e_fine
       min_idx a_eq e_min y_bottom y_top stdout tikz_code files_after].
  rewrite !lookup_write_same.
  repeat split; reflexivity.
Qed.

(** X8: A file that the loop skips leaves no trace: putting into the
    directory a file whose name the pattern does not match, or an output
    file without an energy line (a calculation that has not converged),
    changes nothing of what the run extracts, computes, prints and
    plots. *)
Theorem skipped_file_changes_nothing (e : env) (p content : string) :
  ~ In p (map fst (files e)) ->
  skipped p content ->
  same_results (analyze polyfit argsort e)
    (analyze polyfit argsort (mkEnv ((p, content) :: files e) (assets_dir e))).
Proof.
  intros Hnew Hskip. apply analyze_same_collect; [|reflexivity].
  cbn [files].
  set (f := files e) in *. set (f' := (p, content) :: f).
  assert (Hsame : collect f' (output_files f) = collect f (output_files f)).
  { apply collect_ext. apply Forall_forall. intros q Hq.
    apply lookup_cons_other. intros <-. apply Hnew.
    exact (@output_files_in f p Hq). }
  assert (Hv : visit f' p = Ok None).
  { apply (@visit_skip f' p content); [|exact Hskip].
    unfold f'. simpl. rewrite String.eqb_refl. reflexivity. }
  unfold output_files at 2. unfold f' at 2. cbn [map fst filter].
  destruct (glob_match p).
  - cbn [sorted fold_right].
    change (fold_right insert [] (filter glob_match (map fst f)))
      with (output_files f).
    rewrite (@collect_insert_skip f' p (output_files f) Hv). symmetry. exact Hsame.
  - symmetry. exact Hsame.
Qed.

End Runs.

Lemma skipped_file_changes_nothing_witness :
  skipped "calculations/cu_a2.600.out" "     Program PWSCF starts"
  /\ same_results (analyze fixed_fit insertion_argsort three_env)
       (analyze fixed_fit insertion_argsort
          (mkEnv (("calculations/cu_a2.600.out", "     Program PWSCF starts")
                    :: three_files) true)).
Proof.
  assert (Hs : skipped "calculations/cu_a2.600.out" "     Program PWSCF starts").
  { right. exists "2.600", (Q2F (26 # 10)). repeat split; vm_compute; reflexivity. }
  split; [exact Hs|].
  apply (@skipped_file_changes_nothing fixed_fit insertion_argsort three_env
           "calculations/cu_a2.600.out" "     Program PWSCF starts");
    [|exact Hs].
  intros H. vm_compute in H. intuition discriminate.
Defined.

End VisitFacts.

(** ** The energy line that is read *)

Module EnergyLine.

Import F64 Text Numpy Files Analyze Spec Samples RunSpec.
Import FilesFacts AnalyzeFacts RegexFacts.
Local Open Scope string_scope.

Lemma drop_in_prefix (p : ascii -> bool) (pre : string) : forall n X,
  (n < length pre)%nat -> forallb_str p pre = true ->
  exists c r, drop n (pre ++ X) = String c r /\ p c = true.
Proof.
  induction pre as [|a pre IH]; intros n X Hn Hp; simpl in Hn; [lia|].
  cbn [forallb_str] in Hp. apply andb_prop in Hp. destruct Hp as [Ha Hp].
  destruct n as [|n]; simpl.
  - eauto.
  - apply IH; [lia|exact Hp].
Qed.

Lemma energy_match_starts s n g :
  match_at energy_re s n g -> exists r, drop n s = String "!" r.
Proof.
  intros (m & post & Hs & _ & Hm).
  destruct (energy_match_inv Hm) as (w1 & w2 & w3 & w4 & -> & _).
  rewrite Hs. simpl. eauto.
Qed.

Lemma energy_line_matches (w1 w2 w3 num w4 : string) :
  (w1 <> "" /\ forallb_str is_space w1 = true) ->
  (w2 <> "" /\ forallb_str is_space w2 = true) ->
  (w3 <> "" /\ forallb_str is_space w3 = true) ->
  (num <> "" /\ forallb_str cls_minus_digit_dot num = true) ->
  (w4 <> "" /\ forallb_str is_space w4 = true) ->
  matches energy_re
    ("!" ++ w1 ++ "total energy" ++ w2 ++ "=" ++ w3 ++ num ++ w4 ++ "Ry" ++ "")
    "" num.
Proof.
  intros [N1 P1] [N2 P2] [N3 P3] [Ng Pg] [N4 P4]. unfold energy_re.
  apply matches_lit. apply matches_plus; auto.
  apply matches_lit. apply matches_plus; auto.
  apply matches_lit. apply matches_plus; auto.
  apply matches_cap; auto. apply matches_plus; auto.
  apply matches_lit. apply matches_nil.
Qed.

(** X9: Of several energy lines the first one is read, whatever follows it:
    when the text before the first [!] line holds no [!], the run of
    characters that line gives as the energy is what [extract_energy]
    converts, and when that run is no number the call raises
    [ValueError] even if a later line is well formed. *)
Theorem first_energy_line_wins
    (f : fs) (filename pre w1 w2 w3 num w4 rest : string) :
  lookup filename f
  = Some (pre ++ "!" ++ w1 ++ "total energy" ++ w2 ++ "=" ++ w3 ++ num
              ++ w4 ++ "Ry" ++ rest) ->
  forallb_str (fun c => negb (Ascii.eqb c "!")) pre = true ->
  (w1 <> "" /\ forallb_str is_space w1 = true) ->
  (w2 <> "" /\ forallb_str is_space w2 = true) ->
  (w3 <> "" /\ forallb_str is_space w3 = true) ->
  (num <> "" /\ forallb_str cls_minus_digit_dot num = true) ->
  (w4 <> "" /\ forallb_str is_space w4 = true) ->
  extract_energy f filename
  = match py_float num with
    | Some v => Ok (Some v)
    | None => Raise ValueError
    end.
Proof.
  intros Hf Hpre H1 H2 H3 Hg H4.
  pose proof (energy_line_matches H1 H2 H3 Hg H4) as Hm.
  set (line := "!" ++ w1 ++ "total energy" ++ w2 ++ "=" ++ w3 ++ num
                   ++ w4 ++ "Ry" ++ "") in Hm.
  set (content := pre ++ "!" ++ w1 ++ "total energy" ++ w2 ++ "=" ++ w3
                      ++ num ++ w4 ++ "Ry" ++ rest) in Hf.
  assert (Hc : content = pre ++ (line ++ rest)).
  { unfold content, line. f_equal.
    repeat rewrite app_assoc_str. reflexivity. }
  assert (Hat : match_at energy_re content (length pre) num).
  { exists line, rest. split; [rewrite Hc; apply drop_app|].
    split; [rewrite Hc, length_app_str; lia|exact Hm]. }
  unfold extract_energy. rewrite Hf.
  destruct (re_search energy_re content) as [g|] eqn:Es.
  2:{ exfalso. exact (@re_search_none _ _ Es _ _ Hat). }
  destruct (@re_search_some _ _ _ Es) as (n & Hn & Hleft).
  assert (Hge : (length pre <= n)%nat).
  { destruct (le_lt_dec (length pre) n) as [|Hlt]; [assumption|exfalso].
    destruct (energy_match_starts Hn) as [r Hr].
    rewrite Hc in Hr.
    destruct (@drop_in_prefix _ pre n (line ++ rest) Hlt Hpre)
      as (c & r' & Hd & Hc').
    rewrite Hd in Hr. injection Hr as -> _. discriminate Hc'. }
  assert (Hle : (n <= length pre)%nat).
  { destruct (le_lt_dec n (length pre)) as [|Hlt]; [assumption|exfalso].
    exact (Hleft _ _ Hlt Hat). }
  assert (n = length pre) by lia. subst n.
  rewrite (energy_group_unique Hn Hat). reflexivity.
Qed.

Lemma first_energy_line_wins_witness :
  extract_energy
    [("calculations/cu_a2.200.out", qe_output "-213.05" ++ qe_output "-213.99")]
    "calculations/cu_a2.200.out"
  = Ok (Some (Q2F (- (21305 # 100)))).
Proof.
  rewrite (@first_energy_line_wins _ "calculations/cu_a2.200.out"
             ("     convergence has been achieved in   9 iterations" ++ newline)
             "    " "              " "    " "-213.05" " "
             (newline ++ "     estimated scf accuracy    <       0.00000001 Ry"
                ++ newline ++ qe_output "-213.99")).
  - vm_compute. reflexivity.
  - vm_compute. reflexivity.
  - vm_compute. reflexivity.
  - split; [discriminate|reflexivity].
  - split; [discriminate|reflexivity].
  - split; [discriminate|reflexivity].
  - split; [discriminate|reflexivity].
  - split; [discriminate|reflexivity].
Defined.

End EnergyLine.

(** ** Which minimum is reported *)

Module MinimumFacts.

Import F64 Text Numpy Files Analyze Spec Samples.
Import OrderFacts NumpyFacts FilesFacts AnalyzeFacts SamplesFacts.

Lemma flt_not_nan x y : flt x y = true -> is_nan x = false /\ is_nan y = false.
Proof.
  intros H. split.
  - destruct (is_nan x) eqn:E; auto. rewrite (flt_nan_l _ _ E) in H. discriminate.
  - destruct (is_nan y) eqn:E; auto. rewrite (flt_nan_r _ _ E) in H. discriminate.
Qed.

Lemma fle_not_nan x y : fle x y = true -> is_nan x = false /\ is_nan y = false.
Proof.
  intros H. split.
  - destruct (is_nan x) eqn:E; auto. rewrite (fle_nan_l _ _ E) in H. discriminate.
  - destruct (is_nan y) eqn:E; auto. rewrite (fle_nan_r _ _ E) in H. discriminate.
Qed.

Lemma flt_fle_trans x y z :
  flt x y = true -> fle y z = true -> flt x z = true.
Proof.
  intros Hxy Hyz.
  destruct (flt_not_nan _ _ Hxy) as [Nx Ny].
  destruct (fle_not_nan _ _ Hyz) as [_ Nz].
  apply (flt_iff _ _ Nx Ny) in Hxy. apply (fle_iff _ _ Ny Nz) in Hyz.
  apply (flt_iff _ _ Nx Nz).
  destruct Hxy as [H1|[H1 H1']], Hyz as [H2|[H2 H2']].
  - left. lia.
  - left. lia.
  - left. lia.
  - right. split; [lia|]. eapply Qlt_le_trans; eassumption.
Qed.

(** The loop of [argmin], with the entries already seen: the index it
    returns has no NaN before it, and when it does not select a NaN the
    array holds none and every earlier entry is strictly larger. *)
Lemma argmin_loop_first (l : list float) :
  forall (pre : list float) (mp : float) (mi : nat),
    is_nan mp = false ->
    (mi < List.length pre)%nat ->
    nth mi (pre ++ l) S754_nan = mp ->
    Forall (fun x => fle mp x = true) pre ->
    (forall j, (j < mi)%nat -> flt mp (nth j pre S754_nan) = true) ->
    let i := argmin_loop l (List.length pre) mp mi in
    let v := nth i (pre ++ l) S754_nan in
    (forall j, (j < i)%nat -> is_nan (nth j (pre ++ l) S754_nan) = false)
    /\ (is_nan v = false ->
        forallb (fun x => negb (is_nan x)) (pre ++ l) = true
        /\ forall j, (j < i)%nat -> flt v (nth j (pre ++ l) S754_nan) = true).
Proof.
  induction l as [|x l IH]; intros pre mp mi Hmp Hmi Hnth Hpre Hfirst; simpl.
  - rewrite app_nil_r in *. rewrite Hnth.
    assert (Hnn : forall y, In y pre -> is_nan y = false).
    { intros y Hy. apply (fle_not_nan mp y).
      exact (proj1 (Forall_forall _ _) Hpre y Hy). }
    split.
    + intros j Hj. apply Hnn. apply nth_In. lia.
    + intros _. split; [|exact Hfirst].
      apply forallb_forall. intros y Hy. rewrite (Hnn y Hy). reflexivity.
  - assert (Hlen : List.length (pre ++ [x]) = S (List.length pre))
      by (rewrite length_app; simpl; lia).
    assert (Happ : pre ++ x :: l = (pre ++ [x]) ++ l)
      by (rewrite <- app_assoc; reflexivity).
    assert (Hnn : forall y, In y pre -> is_nan y = false).
    { intros y Hy. apply (fle_not_nan mp y).
      exact (proj1 (Forall_forall _ _) Hpre y Hy). }
    destruct (fle mp x) eqn:Hle.
    + rewrite Happ, <- Hlen. apply IH; auto.
      * rewrite Hlen. lia.
      * rewrite <- Happ. auto.
      * apply Forall_app. split; auto.
      * intros j Hj. rewrite app_nth1 by lia. auto.
    + destruct (is_nan x) eqn:Hx.
      * split.
        -- intros j Hj. rewrite app_nth1 by lia. apply Hnn. apply nth_In. lia.
        -- rewrite app_nth2, Nat.sub_diag by lia. simpl. congruence.
      * pose proof (not_fle_flt _ _ Hmp Hx Hle) as Hlt.
        rewrite Happ, <- Hlen. apply IH; auto.
        -- rewrite Hlen. lia.
        -- rewrite <- Happ. rewrite app_nth2, Nat.sub_diag by lia. reflexivity.
        -- apply Forall_app. split.
           ++ eapply Forall_impl; [|exact Hpre]. simpl. intros y Hy.
              pose proof (flt_fle_trans _ _ _ Hlt Hy) as H.
              destruct (flt_not_nan _ _ H) as [_ Ny].
              apply (flt_iff _ _ Hx Ny) in H. apply (fle_iff _ _ Hx Ny).
              destruct H as [H|[H H']]; [left; exact H|right].
              split; [exact H|]. apply Qlt_le_weak. exact H'.
           ++ constructor; auto. apply fle_refl; auto.
        -- intros j Hj.
           assert (Hjp : (j < List.length pre)%nat) by lia.
           rewrite app_nth1 by lia.
           apply (flt_fle_trans _ _ _ Hlt).
           apply (proj1 (Forall_forall _ _) Hpre). apply nth_In. lia.
Qed.

Lemma argmin_first (l : list float) :
  let i := argmin l in
  let v := nth i l S754_nan in
  (forall j, (j < i)%nat -> is_nan (nth j l S754_nan) = false)
  /\ (is_nan v = false ->
      forallb (fun x => negb (is_nan x)) l = true
      /\ forall j, (j < i)%nat -> flt v (nth j l S754_nan) = true).
Proof.
  destruct l as [|x l].
  - simpl. split; [intros j Hj; lia|discriminate].
  - unfold argmin. destruct (is_nan x) eqn:Hx.
    + simpl. split; [intros j Hj; lia|congruence].
    + change (x :: l) with ([x] ++ l).
      apply (@argmin_loop_first l [x] x 0%nat); auto.
      * constructor; auto. apply fle_refl; auto.
      * intros j Hj. lia.
Qed.

Section Runs.

Variable polyfit : list float -> list float -> nat -> option (list float).
Variable argsort : list float -> list nat.

(** X10: Ties go to the left, and NaN wins: in a run that ends normally no
    value of the fit at a grid point left of [a_eq] is NaN; when the
    reported minimum energy is not NaN, no value of the fit on the grid is
    NaN and the fit is strictly larger at every grid point left of [a_eq];
    so when the fit is NaN somewhere on the grid, the reported minimum is
    NaN, at the leftmost such point. *)
Theorem leftmost_minimum (e : env) (r : report) :
  analyze polyfit argsort e = Finished r ->
  (forall j, (j < min_idx r)%nat ->
             is_nan (nth j (e_fine r) S754_nan) = false)
  /\ (is_nan (e_min r) = false ->
      forallb (fun x => negb (is_nan x)) (e_fine r) = true
      /\ forall j, (j < min_idx r)%nat ->
           flt (polyval (poly1d (coeffs r)) (a_eq r))
               (polyval (poly1d (coeffs r)) (nth j (a_fine r) S754_nan))
           = true)
  /\ (existsb is_nan (e_fine r) = true -> is_nan (e_min r) = true).
Proof.
  intros H.
  destruct (@analyze_finished polyfit argsort e r H) as
    (_ & _ & _ & _ & _ & _ & Hfine & Hidx & _ & Hemin & _).
  destruct (@grid_facts polyfit argsort e r H) as (La & Le & Hlt & _ & Hval & _).
  pose proof (argmin_first (e_fine r)) as [Hbefore Hmin].
  cbv zeta in Hbefore, Hmin. rewrite <- Hidx in Hbefore, Hmin.
  rewrite <- Hemin in Hmin.
  split; [exact Hbefore|]. split.
  - intros Hn. destruct (Hmin Hn) as [Hall Hlow]. split; [exact Hall|].
    intros j Hj. specialize (Hlow j Hj).
    rewrite Hval in Hlow. rewrite Hfine in Hlow.
    rewrite (nth_indep _ S754_nan (polyval (poly1d (coeffs r)) S754_nan)) in Hlow
      by (rewrite length_map; lia).
    rewrite map_nth in Hlow. exact Hlow.
  - intros Hex. destruct (is_nan (e_min r)) eqn:En; [reflexivity|exfalso].
    destruct (Hmin eq_refl) as [Hall _].
    apply existsb_exists in Hex. destruct Hex as (y & Hy & Ny).
    pose proof (proj1 (forallb_forall _ _) Hall y Hy) as Hy'.
    cbv beta in Hy'. rewrite Ny in Hy'. discriminate.
Qed.

End Runs.

Lemma leftmost_minimum_witness :
  exists r,
    analyze fixed_fit insertion_argsort three_env = Finished r
    /\ forall j, (j < min_idx r)%nat ->
                 is_nan (nth j (e_fine r) S754_nan) = false.
Proof.
  destruct three_runs as [r Hr]. exists r. split; [exact Hr|].
  exact (proj1 (@leftmost_minimum fixed_fit insertion_argsort three_env r Hr)).
Defined.

End MinimumFacts.

(** ** [format] and [float] *)

Module FormatFacts.

Import F64 Text Numpy Files Generate Analyze Spec.
Import RegexFacts RoundFacts RangeFacts VisitFacts.
Local Open Scope string_scope.

Lemma uint_digits (d : Decimal.uint) :
  forallb_str is_digit (NilEmpty.string_of_uint d) = true.
Proof. induction d; simpl; auto. Qed.

Lemma dec_digits (z : Z) : forallb_str is_digit (dec z) = true.
Proof.
  unfold dec, NilZero.string_of_uint.
  destruct (N.to_uint (Z.to_N z)); try apply uint_digits. reflexivity.
Qed.

Lemma dec_nonempty (z : Z) : dec z <> "".
Proof.
  unfold dec, NilZero.string_of_uint.
  destruct (N.to_uint (Z.to_N z)); simpl; discriminate.
Qed.

Local Open Scope Z_scope.

Lemma digits_val_acc (d : Decimal.uint) : forall acc : positive,
  digits_val (Zpos acc) (NilEmpty.string_of_uint d)
  = Zpos (Pos.of_uint_acc d acc).
Proof.
  induction d; intros acc;
    cbn [NilEmpty.string_of_uint digits_val Pos.of_uint_acc]; auto;
    rewrite <- IHd; f_equal;
    match goal with
    | |- context [digit_val ?c] =>
        let v := eval vm_compute in (digit_val c) in
        change (digit_val c) with v
    end; lia.
Qed.

Lemma digits_val_uint (d : Decimal.uint) :
  digits_val 0 (NilEmpty.string_of_uint d) = Z.of_N (Pos.of_uint d).
Proof.
  induction d; cbn [NilEmpty.string_of_uint digits_val Pos.of_uint Z.of_N];
    auto;
    match goal with
    | |- digits_val ?a _ = Zpos (Pos.of_uint_acc _ ?p) =>
        change a with (Zpos p); apply digits_val_acc
    end.
Qed.

Lemma digits_val_dec (z : Z) : 0 <= z -> digits_val 0 (dec z) = z.
Proof.
  intros Hz. unfold dec, NilZero.string_of_uint.
  pose proof (DecimalN.Unsigned.of_to (Z.to_N z)) as H.
  unfold N.of_uint in H.
  destruct (N.to_uint (Z.to_N z)) eqn:E;
    try (rewrite digits_val_uint, H; apply Z2N.id; exact Hz).
  simpl in H. simpl. rewrite <- (Z2N.id z Hz), <- H. reflexivity.
Qed.

Lemma digits_val_app (s t : string) : forall acc,
  digits_val acc (s ++ t) = digits_val (digits_val acc s) t.
Proof. induction s as [|c s IH]; intros acc; simpl; auto. Qed.

Lemma digits_val_lin (s : string) : forall acc,
  digits_val acc s
  = acc * 10 ^ Z.of_nat (String.length s) + digits_val 0 s.
Proof.
  induction s as [|c s IH]; intros acc.
  - simpl. lia.
  - cbn [digits_val String.length]. rewrite IH, (IH (10 * 0 + digit_val c)).
    rewrite Nat2Z.inj_succ, Z.pow_succ_r by lia. ring.
Qed.

Lemma uint_length (d : Decimal.uint) :
  String.length (NilEmpty.string_of_uint d) = Decimal.nb_digits d.
Proof. induction d; simpl; auto. Qed.

Lemma of_uint_acc_lower (d : Decimal.uint) : forall acc : positive,
  Zpos acc * 10 ^ Z.of_nat (Decimal.nb_digits d) <= Zpos (Pos.of_uint_acc d acc).
Proof.
  induction d; intros acc; cbn [Decimal.nb_digits Pos.of_uint_acc];
    [rewrite Z.pow_0_r; lia|..];
    rewrite Nat2Z.inj_succ, Z.pow_succ_r by lia;
    (eapply Z.le_trans; [|apply IHd]);
    assert (0 < 10 ^ Z.of_nat (Decimal.nb_digits d))
      by (apply Z.pow_pos_nonneg; lia);
    nia.
Qed.

(** A decimal without leading zeros is at least the power of ten of its
    length. *)
Lemma unorm_lower (d : Decimal.uint) :
  Decimal.unorm d = d -> d <> Decimal.zero -> d <> Decimal.Nil ->
  10 ^ (Z.of_nat (Decimal.nb_digits d) - 1) <= Z.of_N (Pos.of_uint d).
Proof.
  intros Hu Hz Hn.
  destruct d; try congruence;
    try (cbn [Decimal.nb_digits Pos.of_uint Z.of_N];
         rewrite Nat2Z.inj_succ;
         replace (Z.succ (Z.of_nat (Decimal.nb_digits d)) - 1)
           with (Z.of_nat (Decimal.nb_digits d)) by lia;
         match goal with
         | |- _ <= Zpos (Pos.of_uint_acc _ ?p) =>
             pose proof (of_uint_acc_lower d p)
         end;
         assert (0 < 10 ^ Z.of_nat (Decimal.nb_digits d))
           by (apply Z.pow_pos_nonneg; lia);
         nia).
  exfalso. unfold Decimal.unorm in Hu. cbn [Decimal.nzhead] in Hu.
  pose proof (DecimalFacts.nb_digits_nzhead d) as Hl.
  destruct (Decimal.nzhead d) eqn:E;
    try (rewrite Hu in Hl; cbn [Decimal.nb_digits] in Hl; lia).
  apply Hz. symmetry. exact Hu.
Qed.

Lemma dec_length (r : Z) (nd : nat) :
  0 <= r < 10 ^ Z.of_nat nd -> (0 < nd)%nat ->
  (String.length (dec r) <= nd)%nat.
Proof.
  intros [Hr Hlt] Hnd. unfold dec, NilZero.string_of_uint.
  destruct (Z.to_N r) as [|p] eqn:En.
  - simpl. lia.
  - cbn [N.to_uint].
    pose proof (DecimalPos.Unsigned.to_uint_nonnil p) as Hnil.
    pose proof (DecimalPos.Unsigned.to_uint_nonzero p) as Hnz.
    pose proof (DecimalPos.Unsigned.of_to p) as Hof.
    pose proof (DecimalPos.Unsigned.to_of (Pos.to_uint p)) as Hto.
    rewrite Hof in Hto. cbn [N.to_uint] in Hto.
    pose proof (@unorm_lower (Pos.to_uint p) (eq_sym Hto) Hnz Hnil) as Hlow.
    rewrite Hof in Hlow.
    assert (Hp : Z.of_N (N.pos p) = r) by (rewrite <- En; apply Z2N.id; lia).
    rewrite Hp in Hlow.
    assert (Hlen : String.length
                     match Pos.to_uint p with
                     | Decimal.Nil => "0"%string
                     | _ => NilEmpty.string_of_uint (Pos.to_uint p)
                     end = Decimal.nb_digits (Pos.to_uint p)).
    { destruct (Pos.to_uint p); try apply uint_length. congruence. }
    rewrite Hlen.
    assert (Z.of_nat (Decimal.nb_digits (Pos.to_uint p)) - 1 < Z.of_nat nd).
    { apply (Z.pow_lt_mono_r_iff 10); lia. }
    lia.
Qed.

Local Open Scope string_scope.

Lemma repeat_zero_digits (k : nat) :
  forallb_str is_digit (repeat_str "0" k) = true.
Proof. induction k; simpl; auto. Qed.

Lemma repeat_zero_length (k : nat) : String.length (repeat_str "0" k) = k.
Proof. induction k; simpl; auto. Qed.

Lemma repeat_zero_val (k : nat) : digits_val 0 (repeat_str "0" k) = 0%Z.
Proof. induction k; simpl; auto. Qed.

Lemma pad_left_facts (nd : nat) (s : string) :
  forallb_str is_digit s = true -> (String.length s <= nd)%nat ->
  forallb_str is_digit (pad_left nd s) = true
  /\ String.length (pad_left nd s) = nd
  /\ digits_val 0 (pad_left nd s) = digits_val 0 s.
Proof.
  intros Hs Hl. unfold pad_left. split; [|split].
  - rewrite forallb_str_app, repeat_zero_digits, Hs. reflexivity.
  - rewrite length_app_str, repeat_zero_length. lia.
  - rewrite digits_val_app, repeat_zero_val. reflexivity.
Qed.

Lemma span_exact (p : ascii -> bool) (w : string) (c : ascii) (r : string) :
  forallb_str p w = true -> p c = false ->
  span p (w ++ String c r) = String.length w.
Proof.
  intros Hw Hc. induction w as [|a w IH]; simpl.
  - rewrite Hc. reflexivity.
  - cbn [forallb_str] in Hw. apply andb_prop in Hw. destruct Hw as [Ha Hw].
    rewrite Ha, IH by assumption. reflexivity.
Qed.

Lemma span_all (p : ascii -> bool) (w : string) :
  forallb_str p w = true -> span p w = String.length w.
Proof.
  intros Hw. induction w as [|a w IH]; simpl; auto.
  cbn [forallb_str] in Hw. apply andb_prop in Hw. destruct Hw as [Ha Hw].
  rewrite Ha, IH by assumption. reflexivity.
Qed.

Lemma drop_all (s : string) : drop (String.length s) s = "".
Proof. induction s; simpl; auto. Qed.

Lemma take_all (s : string) : take (String.length s) s = s.
Proof. induction s; simpl; congruence. Qed.

Lemma app_empty_r (s : string) : s ++ "" = s.
Proof. induction s; simpl; congruence. Qed.

Lemma digit_head (s : string) :
  s <> "" -> forallb_str is_digit s = true ->
  match s with
  | String "-" r => (true, r)
  | _ => (false, s)
  end = (false, s).
Proof.
  intros Hne Hs. destruct s as [|c r]; [congruence|].
  cbn [forallb_str] in Hs. apply andb_prop in Hs. destruct Hs as [Hc _].
  destruct c as [[] [] [] [] [] [] [] []]; try reflexivity. discriminate Hc.
Qed.

Lemma length_pos (s : string) : s <> "" -> (0 < String.length s)%nat.
Proof. destruct s; [congruence|simpl; lia]. Qed.

(** [float] reads back what [fixed] prints. *)
Lemma fixed_parse (s : bool) (nd : nat) (N : Z) :
  (0 <= N)%Z ->
  py_float (sign_str s ++ fixed nd N)
  = Some (signed s N (Z.to_pos (10 ^ Z.of_nat nd))).
Proof.
  intros HN.
  assert (Hp : (0 < 10 ^ Z.of_nat nd)%Z) by (apply Z.pow_pos_nonneg; lia).
  set (p := (10 ^ Z.of_nat nd)%Z) in *.
  pose proof (dec_digits (N / p)) as Dq.
  pose proof (dec_nonempty (N / p)) as Nq.
  pose proof (length_pos Nq) as Lq.
  assert (Hq : (0 <= N / p)%Z) by (apply Z.div_pos; lia).
  assert (Hbody : forall body,
             body = fixed nd N ->
             match body with
             | String "-" r => (true, r)
             | _ => (false, body)
             end = (false, body)).
  { intros body ->. unfold fixed. fold p.
    destruct (dec (N / p)) as [|c r] eqn:E; [congruence|].
    cbn [append].
    cbn [forallb_str] in Dq. apply andb_prop in Dq. destruct Dq as [Hc _].
    destruct c as [[] [] [] [] [] [] [] []]; try reflexivity. discriminate Hc. }
  assert (Hparse :
            (let body := fixed nd N in
             let k := span is_digit body in
             let ip := take k body in
             match drop k body with
             | EmptyString =>
                 if (k =? 0)%nat then None
                 else Some (signed s (digits_val 0 ip) 1)
             | String "." fp =>
                 if forallb_str is_digit fp
                    && negb ((k =? 0)%nat && (String.length fp =? 0)%nat)
                 then Some (signed s (digits_val 0 (ip ++ fp))
                              (Z.to_pos (10 ^ Z.of_nat (String.length fp))))
                 else None
             | String _ _ => None
             end) = Some (signed s N (Z.to_pos p))).
  { cbv zeta. unfold fixed. fold p.
    destruct (nd =? 0)%nat eqn:End.
    - apply Nat.eqb_eq in End. subst nd. change p with 1%Z.
      rewrite Z.div_1_r in *. rewrite app_empty_r.
      rewrite (span_all _ _ Dq), drop_all, take_all.
      destruct (String.length (dec N) =? 0)%nat eqn:E;
        [apply Nat.eqb_eq in E; lia|].
      rewrite digits_val_dec by lia. reflexivity.
    - apply Nat.eqb_neq in End.
      assert (Hr : (0 <= N mod p < p)%Z) by (apply Z.mod_pos_bound; lia).
      pose proof (@dec_length (N mod p) nd Hr ltac:(lia)) as Lr.
      destruct (@pad_left_facts nd (dec (N mod p)) (dec_digits _) Lr)
        as (Df & Lf & Vf).
      set (F := pad_left nd (dec (N mod p))) in *.
      change ("." ++ F) with (String "." F).
      rewrite (@span_exact is_digit (dec (N / p)) "." F Dq eq_refl).
      rewrite drop_app, take_app, Df, Lf.
      destruct (String.length (dec (N / p)) =? 0)%nat eqn:E;
        [apply Nat.eqb_eq in E; lia|].
      cbn [andb negb]. fold p.
      rewrite digits_val_app, digits_val_dec by lia.
      rewrite digits_val_lin, Lf, Vf, digits_val_dec by lia. fold p.
      do 2 f_equal. rewrite (Z.div_mod N p) at 3 by lia. ring. }
  unfold py_float. destruct s; cbn [sign_str append].
  - exact Hparse.
  - rewrite (Hbody _ eq_refl). exact Hparse.
Qed.

Lemma forallb_str_impl (p q : ascii -> bool) (s : string) :
  (forall c, p c = true -> q c = true) ->
  forallb_str p s = true -> forallb_str q s = true.
Proof.
  intros H. induction s as [|c s IH]; simpl; auto.
  intros Hs. apply andb_prop in Hs. destruct Hs as [Hc Hs].
  rewrite (H c Hc), IH by assumption. reflexivity.
Qed.

Lemma digit_is_cls c : is_digit c = true -> cls_digit_dot c = true.
Proof. intros H. unfold cls_digit_dot. rewrite H. reflexivity. Qed.

Lemma fixed_cls (nd : nat) (N : Z) :
  (0 <= N)%Z ->
  fixed nd N <> "" /\ forallb_str cls_digit_dot (fixed nd N) = true.
Proof.
  intros HN. unfold fixed.
  assert (Hp : (0 < 10 ^ Z.of_nat nd)%Z) by (apply Z.pow_pos_nonneg; lia).
  set (p := (10 ^ Z.of_nat nd)%Z) in *.
  pose proof (dec_nonempty (N / p)) as Nq.
  split.
  - destruct (dec (N / p)); [congruence|discriminate].
  - rewrite forallb_str_app.
    rewrite (@forallb_str_impl _ _ _ digit_is_cls (dec_digits (N / p))).
    destruct (nd =? 0)%nat eqn:End; [reflexivity|].
    apply Nat.eqb_neq in End.
    assert (Hr : (0 <= N mod p < p)%Z) by (apply Z.mod_pos_bound; lia).
    pose proof (@dec_length (N mod p) nd Hr ltac:(lia)) as Lr.
    destruct (@pad_left_facts nd (dec (N mod p)) (dec_digits _) Lr)
      as (Df & _ & _).
    change ("." ++ pad_left nd (dec (N mod p)))
      with (String "." (pad_left nd (dec (N mod p)))).
    cbn [forallb_str andb].
    change (cls_digit_dot ".") with true. cbn [andb].
    exact (@forallb_str_impl _ _ _ digit_is_cls Df).
Qed.

Lemma scale_nonneg (n e : Z) :
  (0 < n)%Z -> let (N, D) := scale n 1 e in (0 <= N /\ 0 < D)%Z.
Proof.
  intros Hn. unfold scale. destruct (0 <=? e)%Z eqn:E.
  - apply Z.leb_le in E. split; [lia|].
    assert (0 < 2 ^ e)%Z by (apply Z.pow_pos_nonneg; lia). lia.
  - apply Z.leb_gt in E.
    assert (0 < 2 ^ (- e))%Z by (apply Z.pow_pos_nonneg; lia). split; nia.
Qed.

(** The number [format_f] prints, in units of the last digit. *)
Lemma format_digits (nd : nat) (s : bool) (m : positive) (e : Z) :
  exists N, (0 <= N)%Z
    /\ format_f nd (S754_finite s m e) = sign_str s ++ fixed nd N
    /\ py_round nd (S754_finite s m e)
       = signed s N (Z.to_pos (10 ^ Z.of_nat nd)).
Proof.
  unfold format_f, py_round.
  assert (Hm : (0 < Z.pos m * 10 ^ Z.of_nat nd)%Z).
  { assert (0 < 10 ^ Z.of_nat nd)%Z by (apply Z.pow_pos_nonneg; lia). lia. }
  pose proof (@scale_nonneg _ (- e) Hm) as Hs.
  destruct (scale (Z.pos m * 10 ^ Z.of_nat nd) 1 (- e)) as [N D].
  destruct Hs as [HN HD].
  exists (rne_div N D). split; [|split; reflexivity].
  apply rne_div_ge; lia.
Qed.

(** X11: Formatting with [nd] decimals and reading the text back gives the
    float nearest to the decimal that was printed, Python's
    [round(x, nd)]: the text [format] produces for a finite float is always
    one [float] accepts. *)
Theorem format_then_float (nd : nat) (x : float) :
  is_finite x = true -> py_float (format_f nd x) = Some (py_round nd x).
Proof.
  destruct x as [s| | |s m e]; try discriminate; intros _.
  - cbn [format_f py_round]. rewrite fixed_parse by lia. reflexivity.
  - destruct (format_digits nd s m e) as (N & HN & -> & ->).
    apply fixed_parse. exact HN.
Qed.

Lemma format_then_float_witness :
  format_f 2 (Q2F (2675 # 1000)) = "2.67"
  /\ py_float (format_f 2 (Q2F (2675 # 1000)))
     = Some (py_round 2 (Q2F (2675 # 1000))).
Proof.
  split; [vm_compute; reflexivity|].
  apply format_then_float. vm_compute. reflexivity.
Defined.

(** *** The names of the output files *)

Lemma re_search_skip (c : ascii) (r : string) :
  prefix "cu_a" (String c r) = false ->
  re_search filename_re (String c r) = re_search filename_re r.
Proof.
  intros H. cbn [re_search match_here filename_re]. rewrite H. reflexivity.
Qed.

Lemma re_search_no_c (s : string) :
  forallb_str (fun ch => negb (Ascii.eqb ch "c")) s = true ->
  re_search filename_re s = None.
Proof.
  induction s as [|ch s IH]; intros H.
  - reflexivity.
  - cbn [forallb_str] in H. apply andb_prop in H. destruct H as [Hc Hs].
    rewrite re_search_skip; [exact (IH Hs)|].
    cbn [prefix].
    destruct (ascii_dec "c" ch) as [<-|]; [discriminate Hc|reflexivity].
Qed.

Lemma cls_not_c ch : cls_digit_dot ch = true -> negb (Ascii.eqb ch "c") = true.
Proof.
  destruct ch as [[] [] [] [] [] [] [] []]; try reflexivity; discriminate.
Qed.

Lemma cls_not_slash ch :
  cls_digit_dot ch = true -> negb (Ascii.eqb ch "/") = true.
Proof.
  destruct ch as [[] [] [] [] [] [] [] []]; try reflexivity; discriminate.
Qed.

Lemma backtrack_S {A} (k : nat) (f : nat -> option A) :
  backtrack (S k) f = match f (S k) with
                      | Some r => Some r
                      | None => backtrack k f
                      end.
Proof. reflexivity. Qed.

(** The pattern on a name made of [cu_a], a run of digits and points,
    and [.out]: the group is the run. *)
Lemma match_here_name (D : string) :
  D <> "" -> forallb_str cls_digit_dot D = true ->
  match_here filename_re ("cu_a" ++ D ++ ".out") "" = Some D.
Proof.
  intros HD Hc. unfold filename_re.
  cbn [match_here]. rewrite prefix_app.
  rewrite drop_app.
  assert (Hspan : span cls_digit_dot (D ++ ".out") = S (String.length D)).
  { change (D ++ ".out") with (D ++ ("." ++ "out")).
    rewrite <- app_assoc_str.
    rewrite (@span_exact cls_digit_dot (D ++ ".") "o" "ut");
      [rewrite length_app_str; simpl; lia| |reflexivity].
    rewrite forallb_str_app, Hc. reflexivity. }
  rewrite Hspan, backtrack_S.
  assert (Hd1 : drop (S (String.length D)) (D ++ ".out") = "out").
  { change (D ++ ".out") with (D ++ ("." ++ "out")).
    rewrite <- app_assoc_str.
    replace (S (String.length D)) with (String.length (D ++ "."))
      by (rewrite length_app_str; simpl; lia).
    apply drop_app. }
  rewrite Hd1. cbn [prefix]. 
  change (if ascii_dec "." "o" then _ else false) with false. cbv iota.
  destruct (String.length D) as [|n] eqn:El.
  { destruct D; [congruence|discriminate]. }
  rewrite backtrack_S, <- El, drop_app, take_app.
  reflexivity.
Qed.

Lemma re_search_name (D : string) :
  D <> "" -> forallb_str cls_digit_dot D = true ->
  re_search filename_re ("calculations/cu_a" ++ D ++ ".out") = Some D.
Proof.
  intros HD Hc.
  change ("calculations/cu_a" ++ D ++ ".out")
    with (String "c" (String "a" (String "l" (String "c" (String "u"
         (String "l" (String "a" (String "t" (String "i" (String "o"
         (String "n" (String "s" (String "/" ("cu_a" ++ D ++ ".out")))))))))))))).
  do 13 (rewrite re_search_skip by reflexivity).
  destruct ("cu_a" ++ D ++ ".out") as [|c r] eqn:E; [discriminate|].
  cbn [re_search]. rewrite <- E, (match_here_name HD Hc). reflexivity.
Qed.

Lemma re_search_fail (re : regex) (c : ascii) (r : string) :
  match_here re (String c r) "" = None ->
  re_search re (String c r) = re_search re r.
Proof. intros H. cbn [re_search]. rewrite H. reflexivity. Qed.

Lemma match_here_minus (X : string) :
  match_here filename_re ("cu_a" ++ String "-" X) "" = None.
Proof.
  unfold filename_re. cbn [match_here]. rewrite prefix_app, drop_app.
  cbn [span]. change (cls_digit_dot "-") with false. reflexivity.
Qed.

Lemma re_search_minus_name (D : string) :
  forallb_str cls_digit_dot D = true ->
  re_search filename_re ("calculations/cu_a" ++ ("-" ++ D) ++ ".out") = None.
Proof.
  intros Hc.
  change ("calculations/cu_a" ++ ("-" ++ D) ++ ".out")
    with (String "c" (String "a" (String "l" (String "c" (String "u"
         (String "l" (String "a" (String "t" (String "i" (String "o"
         (String "n" (String "s" (String "/"
         (String "c" (String "u" (String "_" (String "a" (String "-"
            (D ++ ".out"))))))))))))))))))).
  do 13 (rewrite re_search_skip by reflexivity).
  rewrite re_search_fail by (exact (match_here_minus (D ++ ".out"))).
  do 4 (rewrite re_search_skip by reflexivity).
  apply re_search_no_c. rewrite forallb_str_app.
  rewrite (@forallb_str_impl _ _ _ cls_not_c Hc). reflexivity.
Qed.

(** The file-name pattern on the output name of a finite lattice
    parameter that is not negative. *)
Lemma name_parse (a : float) :
  is_finite a = true -> sign_of a = false ->
  exists N, (0 <= N)%Z /\ format_f 3 a = fixed 3 N
    /\ re_search filename_re (output_filename a) = Some (format_f 3 a)
    /\ py_float (format_f 3 a) = Some (py_round 3 a).
Proof.
  intros Hfin Hs.
  assert (HD : exists N, (0 <= N)%Z /\ format_f 3 a = fixed 3 N
                         /\ py_round 3 a
                            = signed false N (Z.to_pos (10 ^ Z.of_nat 3))).
  { destruct a as [s| | |s m e]; try discriminate; cbn [sign_of] in Hs; subst s.
    - exists 0%Z. split; [lia|split; reflexivity].
    - destruct (format_digits 3 false m e) as (N & HN & -> & ->).
      exists N. split; [exact HN|split; reflexivity]. }
  destruct HD as (N & HN & HD & Hr).
  destruct (@fixed_cls 3 N HN) as [Hne Hc].
  exists N. split; [exact HN|]. split; [exact HD|].
  unfold output_filename. rewrite HD. split.
  - apply re_search_name; assumption.
  - rewrite Hr. exact (@fixed_parse false 3 N HN).
Qed.

(** X12: Whatever the sweep, the analysis recognises the output file the
    generator names for a finite lattice parameter that is not negative:
    the glob pattern selects the name, the file-name pattern captures the
    three-decimal text, and [float] reads it as [round(a, 3)]. *)
Theorem output_name_recognised (a : float) :
  is_finite a = true -> sign_of a = false ->
  glob_match (output_filename a) = true
  /\ re_search filename_re (output_filename a) = Some (format_f 3 a)
  /\ py_float (format_f 3 a) = Some (py_round 3 a).
Proof.
  intros Hfin Hs.
  destruct (name_parse a Hfin Hs) as (N & HN & HD & Hre & Hfl).
  destruct (@fixed_cls 3 N HN) as [Hne Hc].
  split; [|split; assumption].
  unfold output_filename. rewrite HD.
  apply glob_match_iff. exists (fixed 3 N). split; [reflexivity|].
  unfold has_slash.
  rewrite (@forallb_str_impl _ _ _ cls_not_slash Hc). reflexivity.
Qed.

Lemma output_name_recognised_witness :
  output_filename (Q2F (35 # 10)) = "calculations/cu_a3.500.out"
  /\ re_search filename_re (output_filename (Q2F (35 # 10)))
     = Some (format_f 3 (Q2F (35 # 10))).
Proof.
  split; [vm_compute; reflexivity|].
  apply (@output_name_recognised (Q2F (35 # 10))); vm_compute; reflexivity.
Defined.

(** X13: A negative lattice parameter, [-0.0] included, gives a file name the
    glob pattern selects but the file-name pattern does not match (the
    class of the group holds no minus sign): the loop skips the file
    without opening it. *)
Theorem negative_name_skipped (a : float) (f : fs) :
  is_finite a = true -> sign_of a = true ->
  glob_match (output_filename a) = true
  /\ re_search filename_re (output_filename a) = None
  /\ visit f (output_filename a) = Ok None.
Proof.
  intros Hfin Hs.
  assert (HD : exists N, (0 <= N)%Z /\ format_f 3 a = "-" ++ fixed 3 N).
  { destruct a as [s| | |s m e]; try discriminate; cbn [sign_of] in Hs; subst s.
    - exists 0%Z. split; [lia|reflexivity].
    - destruct (format_digits 3 true m e) as (N & HN & -> & _).
      exists N. split; [exact HN|reflexivity]. }
  destruct HD as (N & HN & HD).
  destruct (@fixed_cls 3 N HN) as [Hne Hc].
  assert (Hre : re_search filename_re (output_filename a) = None).
  { unfold output_filename. rewrite HD. apply re_search_minus_name. exact Hc. }
  split; [|split; [exact Hre|]].
  - unfold output_filename. rewrite HD.
    apply glob_match_iff. exists ("-" ++ fixed 3 N). split; [reflexivity|].
    rewrite has_slash_app. unfold has_slash at 2.
    rewrite (@forallb_str_impl _ _ _ cls_not_slash Hc). reflexivity.
  - unfold visit. rewrite Hre. reflexivity.
Qed.

Lemma negative_name_skipped_witness :
  output_filename (Q2F (- (22 # 10))) = "calculations/cu_a-2.200.out"
  /\ re_search filename_re (output_filename (Q2F (- (22 # 10)))) = None.
Proof.
  split; [vm_compute; reflexivity|].
  apply (@negative_name_skipped (Q2F (- (22 # 10))) []);
    vm_compute; reflexivity.
Defined.

End FormatFacts.

(** ** Rounding and the order of floats, for both signs *)

Module SignedRounding.

Import F64 Numpy Spec Shape.
Import OrderFacts RoundFacts GridFacts.
Local Open Scope Q_scope.

Lemma round_pos_flip (n d : positive) :
  round_pos true n d = fneg (round_pos false n d).
Proof.
  unfold round_pos.
  destruct (scale (Zpos n) (Zpos d) (cexp n d)) as [N D].
  destruct (rne_div N D =? 2 ^ prec)%Z.
  - destruct (2 ^ (prec - 1))%Z; try reflexivity.
    destruct (_ <=? _)%Z; reflexivity.
  - destruct (rne_div N D); try reflexivity.
    destruct (_ <=? _)%Z; reflexivity.
Qed.

(** What rounding a positive rational gives. *)
Lemma round_pos_shape (n d : positive) :
  round_pos false n d = S754_zero false
  \/ (exists m e, round_pos false n d = S754_finite false m e
                  /\ pos_repr emin (S754_finite false m e) = true)
  \/ round_pos false n d = S754_infinity false.
Proof.
  destruct (round_pos_value false n d)
    as (M & _ & _ & _ & _ & _ & [[_ H]|[(_ & m & e & H & Hm & He & _)|(_ & H & _)]]).
  - left. exact H.
  - right. left. exists m, e. split; [exact H|].
    unfold pos_repr.
    destruct (cexp_cases n d) as [[Hc Hc']|[Hc _]];
      (apply andb_true_intro; split; [apply andb_true_intro; split|]);
      try (apply Z.ltb_lt; exact Hm); try (apply Z.leb_le);
      unfold emin, emax, prec; lia.
  - right. right. exact H.
Qed.

Lemma Q2F_neg (q : Q) :
  q < 0 ->
  exists n, q = (Zneg n # Qden q) /\ Q2F q = round_pos true n (Qden q)
            /\ Q2F (- q) = round_pos false n (Qden q).
Proof.
  destruct q as [[|n|n] d]; unfold Qlt; simpl; intros H; try lia.
  exists n. repeat split; reflexivity.
Qed.

Lemma F2Q_fneg (x : float) : F2Q (fneg x) == - F2Q x.
Proof.
  destruct x as [s| | |s m e]; simpl; try reflexivity.
  change (inject_Z (Z.neg m)) with (- inject_Z (Z.pos m)).
  destruct s; simpl; ring.
Qed.

Lemma canon_not_nan x : canon x = true -> is_nan x = false.
Proof. destruct x; simpl; intros; auto; discriminate. Qed.

Lemma canon_lvl x : canon x = true -> lvl x = 0%Z.
Proof. destruct x; simpl; intros; auto; discriminate. Qed.

Lemma F2Q_neg_finite m e : F2Q (S754_finite true m e) < 0.
Proof.
  simpl. pose proof (pow2_pos e) as Hp.
  change (inject_Z (Z.neg m)) with (- inject_Z (Z.pos m)).
  assert (0 < inject_Z (Zpos m)) by (unfold Qlt; simpl; lia).
  revert Hp H. generalize (pow2 e) (inject_Z (Z.pos m)). intros P M Hp H.
  nra.
Qed.

Lemma F2Q_true_false m e :
  F2Q (S754_finite true m e) == - F2Q (S754_finite false m e).
Proof. exact (F2Q_fneg (S754_finite false m e)). Qed.

(** An upward float is at least every zero and every negative float. *)
Lemma upward_not_nan t : upward t = true -> is_nan t = false.
Proof. destruct t as [s|s| |s m e]; simpl; auto; discriminate. Qed.

Lemma upward_F2Q t : upward t = true -> 0 <= F2Q t.
Proof.
  destruct t as [s|[]| |[] m e]; simpl; try discriminate; intros _;
    try apply Qle_refl.
  apply Qlt_le_weak. apply (F2Q_finite_pos m e).
Qed.

Lemma upward_lvl t : upward t = true -> (0 <= lvl t)%Z.
Proof. destruct t as [s|[]| |[] m e]; simpl; try discriminate; lia. Qed.

Lemma fle_upward x t :
  canon x = true -> F2Q x <= 0 -> upward t = true -> fle x t = true.
Proof.
  intros Hx Hq Ht.
  apply (fle_iff _ _ (canon_not_nan _ Hx) (upward_not_nan _ Ht)).
  rewrite (canon_lvl _ Hx). pose proof (upward_lvl _ Ht) as Hl.
  pose proof (upward_F2Q _ Ht) as Hv.
  destruct (Z.eq_dec (lvl t) 0) as [E|E]; [right|left; lia].
  split; [lia|]. eapply Qle_trans; eassumption.
Qed.

Lemma round_pos_upward n d : upward (round_pos false n d) = true.
Proof.
  destruct (round_pos_shape n d) as [-> | [(m & e & -> & _) | ->]]; reflexivity.
Qed.

Lemma upward_fneg_lvl t : upward t = true -> (lvl (fneg t) <= 0)%Z.
Proof. destruct t as [s|[]| |[] m e]; simpl; try discriminate; destruct s; simpl; lia. Qed.

Lemma fle_fneg_upward t x :
  upward t = true -> canon x = true -> 0 <= F2Q x -> fle (fneg t) x = true.
Proof.
  intros Ht Hx Hq.
  assert (Hn : is_nan (fneg t) = false)
    by (destruct t as [s|[]| |[] m e]; simpl in *; auto; discriminate).
  apply (fle_iff _ _ Hn (canon_not_nan _ Hx)).
  rewrite (canon_lvl _ Hx). pose proof (upward_fneg_lvl _ Ht) as Hl.
  pose proof (upward_F2Q _ Ht) as Hv. pose proof (F2Q_fneg t) as Hf.
  destruct (Z.eq_dec (lvl (fneg t)) 0) as [E|E]; [right|left; lia].
  split; [lia|]. rewrite Hf. lra.
Qed.

Lemma canon_pos m e :
  canon (S754_finite false m e) = true ->
  pos_repr emin (S754_finite false m e) = true.
Proof. intros H. exact H. Qed.

Lemma canon_cases x :
  canon x = true ->
  (exists s, x = S754_zero s)
  \/ (exists m e, x = S754_finite false m e
                  /\ pos_repr emin (S754_finite false m e) = true)
  \/ (exists m e, x = S754_finite true m e
                  /\ pos_repr emin (S754_finite false m e) = true).
Proof.
  destruct x as [s|s| |[] m e]; simpl; try discriminate; intros H.
  - left. eauto.
  - right. right. eauto.
  - right. left. eauto.
Qed.

Lemma Q2F_pos_upward (q : Q) : 0 < q -> upward (Q2F q) = true.
Proof.
  intros H. destruct (Q2F_pos H) as (n & _ & ->). apply round_pos_upward.
Qed.

Lemma Q2F_neg_flip (q : Q) : q < 0 -> Q2F q = fneg (Q2F (- q)).
Proof.
  intros H. destruct (Q2F_neg H) as (n & _ & -> & ->). apply round_pos_flip.
Qed.

Lemma nonneg_not_nan y : nonneg y = true -> is_nan y = false.
Proof. destruct y as [[]|[]| |[] m e]; simpl; auto; discriminate. Qed.

Lemma nonneg_lvl y : nonneg y = true -> lvl y = 0%Z.
Proof. destruct y as [[]|[]| |[] m e]; simpl; auto; discriminate. Qed.

Lemma nonneg_fneg y :
  nonneg y = true -> is_nan (fneg y) = false /\ lvl (fneg y) = 0%Z.
Proof. destruct y as [[]|[]| |[] m e]; simpl; auto; discriminate. Qed.

(** Rounding does not cross a float: a rational at or above a binary64
    number rounds to a float at or above it. *)
Lemma Q2F_above (x : float) (q : Q) :
  canon x = true -> F2Q x <= q -> fle x (Q2F q) = true.
Proof.
  intros Hx Hq.
  pose proof (canon_not_nan _ Hx) as Nx. pose proof (canon_lvl _ Hx) as Lx.
  destruct (Q_dec 0 q) as [[Hpos|Hneg]|Hz].
  - pose proof (Q2F_pos_upward Hpos) as Hup.
    destruct (canon_cases _ Hx) as [[s ->]|[(m & e & -> & Hr)|(m & e & -> & Hr)]].
    + apply fle_upward; [reflexivity|apply Qle_refl|exact Hup].
    + destruct (@Q2F_ge q (S754_finite false m e) Hr Hq)
        as [H|(m' & e' & H & Hv)].
      * rewrite H. reflexivity.
      * apply (fle_iff _ _ Nx (upward_not_nan _ Hup)). right.
        rewrite H at 1. split; [reflexivity|exact Hv].
    + apply fle_upward; [exact Hx| |exact Hup].
      apply Qlt_le_weak. apply F2Q_neg_finite.
  - destruct (canon_cases _ Hx) as [[s ->]|[(m & e & -> & Hr)|(m & e & -> & Hr)]].
    + exfalso. simpl in Hq. lra.
    + exfalso. pose proof (F2Q_finite_pos m e). lra.
    + rewrite (Q2F_neg_flip Hneg).
      pose proof (F2Q_true_false m e) as Hf.
      assert (Hp : 0 < - q) by lra.
      assert (Hle : - q <= F2Q (S754_finite false m e)) by lra.
      destruct (@Q2F_le (- q) (S754_finite false m e) Hp Hr Hle) as [Hn Hv].
      destruct (nonneg_fneg _ Hn) as [Ny Ly].
      apply (fle_iff _ _ Nx Ny). right. split; [rewrite Ly; reflexivity|].
      rewrite (F2Q_fneg (Q2F (- q))). lra.
  - rewrite (Q2F_zero (Qeq_sym _ _ Hz)).
    apply (fle_iff x (S754_zero false) Nx eq_refl). right. split; [rewrite Lx; reflexivity|].
    simpl. lra.
Qed.

(** A rational at or below a binary64 number rounds to a float at or
    below it. *)
Lemma Q2F_below (x : float) (q : Q) :
  canon x = true -> q <= F2Q x -> fle (Q2F q) x = true.
Proof.
  intros Hx Hq.
  pose proof (canon_not_nan _ Hx) as Nx. pose proof (canon_lvl _ Hx) as Lx.
  destruct (Q_dec 0 q) as [[Hpos|Hneg]|Hz].
  - destruct (canon_cases _ Hx) as [[s ->]|[(m & e & -> & Hr)|(m & e & -> & Hr)]].
    + exfalso. simpl in Hq. lra.
    + destruct (@Q2F_le q (S754_finite false m e) Hpos Hr Hq) as [Hn Hv].
      apply (fle_iff _ _ (nonneg_not_nan _ Hn) Nx). right.
      split; [rewrite (nonneg_lvl _ Hn); reflexivity|exact Hv].
    + exfalso. pose proof (F2Q_neg_finite m e). lra.
  - rewrite (Q2F_neg_flip Hneg).
    assert (Hp : 0 < - q) by lra.
    pose proof (Q2F_pos_upward Hp) as Hup.
    destruct (canon_cases _ Hx) as [[s ->]|[(m & e & -> & Hr)|(m & e & -> & Hr)]].
    + apply fle_fneg_upward; [exact Hup|reflexivity|apply Qle_refl].
    + apply fle_fneg_upward; [exact Hup|exact Hx|].
      apply Qlt_le_weak. apply F2Q_finite_pos.
    + pose proof (F2Q_true_false m e) as Hf.
      assert (Hge : F2Q (S754_finite false m e) <= - q) by lra.
      destruct (@Q2F_ge (- q) (S754_finite false m e) Hr Hge)
        as [H|(m' & e' & H & Hv)].
      * rewrite H. reflexivity.
      * assert (Ny : is_nan (fneg (Q2F (- q))) = false) by (rewrite H; reflexivity).
        apply (fle_iff _ _ Ny Nx). right.
        split; [rewrite H; reflexivity|].
        rewrite (F2Q_fneg (Q2F (- q))). lra.
  - rewrite (Q2F_zero (Qeq_sym _ _ Hz)).
    apply (fle_iff (S754_zero false) x eq_refl Nx). right. split; [rewrite Lx; reflexivity|].
    simpl. lra.
Qed.

Lemma canon_fneg x : canon (fneg x) = canon x.
Proof. destruct x; reflexivity. Qed.

Lemma round_pos_canon s n d :
  is_finite (round_pos s n d) = true -> canon (round_pos s n d) = true.
Proof.
  assert (H : is_finite (round_pos false n d) = true ->
              canon (round_pos false n d) = true).
  { destruct (round_pos_shape n d) as [-> | [(m & e & -> & Hr) | ->]];
      intros H; try reflexivity; [exact Hr|discriminate]. }
  destruct s; [|exact H].
  rewrite round_pos_flip, canon_fneg. intros Hf. apply H.
  destruct (round_pos false n d); auto.
Qed.

Lemma Q2F_canon q : is_finite (Q2F q) = true -> canon (Q2F q) = true.
Proof.
  unfold Q2F. destruct (Qnum q); [reflexivity| |]; apply round_pos_canon.
Qed.

(** A finite product is a zero or a binary64 number. *)
Lemma fmul_canon x y : is_finite (fmul x y) = true -> canon (fmul x y) = true.
Proof.
  destruct x as [s1|s1| |s1 m1 e1], y as [s2|s2| |s2 m2 e2];
    try discriminate; try (intros _; reflexivity).
  apply Q2F_canon.
Qed.

Lemma fle_zero_zero s1 s2 : fle (S754_zero s1) (S754_zero s2) = true.
Proof. reflexivity. Qed.

(** Adding a zero, a positive number or plus infinity does not go
    down. *)
Lemma fadd_up (x t : float) :
  canon x = true -> upward t = true -> fle x (fadd x t) = true.
Proof.
  intros Hx Ht.
  destruct t as [s'|[]| |[] m' e']; try discriminate.
  - destruct x as [s|s| |s m e]; try discriminate.
    + reflexivity.
    + apply fle_refl. reflexivity.
  - destruct x as [s|s| |s m e]; try discriminate; reflexivity.
  - destruct x as [s|s| |s m e]; try discriminate.
    + apply fle_upward; [reflexivity|apply Qle_refl|reflexivity].
    + apply Q2F_above; [exact Hx|].
      pose proof (F2Q_finite_pos m' e'). lra.
Qed.

(** Subtracting one does not go up. *)
Lemma fsub_down (x t : float) :
  canon x = true -> upward t = true -> fle (fsub x t) x = true.
Proof.
  intros Hx Ht. unfold fsub.
  destruct t as [s'|[]| |[] m' e']; try discriminate.
  - destruct x as [s|s| |s m e]; try discriminate.
    + reflexivity.
    + apply fle_refl. reflexivity.
  - destruct x as [s|s| |s m e]; try discriminate; reflexivity.
  - destruct x as [s|s| |s m e]; try discriminate.
    + apply (@fle_fneg_upward (S754_finite false m' e') (S754_zero s));
        [reflexivity|reflexivity|apply Qle_refl].
    + apply Q2F_below; [exact Hx|].
      pose proof (F2Q_neg_finite m' e').
      change (fneg (S754_finite false m' e')) with (S754_finite true m' e').
      lra.
Qed.

Lemma fle_F2Q x y :
  canon x = true -> canon y = true -> fle x y = true -> F2Q x <= F2Q y.
Proof.
  intros Hx Hy H.
  apply (fle_iff _ _ (canon_not_nan _ Hx) (canon_not_nan _ Hy)) in H.
  rewrite (canon_lvl _ Hx), (canon_lvl _ Hy) in H.
  destruct H as [H|[_ H]]; [lia|exact H].
Qed.

(** The difference of two floats in order is a zero, positive or plus
    infinity. *)
Lemma fsub_upward (hi lo : float) :
  canon hi = true -> canon lo = true -> fle lo hi = true ->
  upward (fsub hi lo) = true.
Proof.
  intros Hh Hl Hle. pose proof (@fle_F2Q lo hi Hl Hh Hle) as Hq. unfold fsub.
  destruct hi as [s|s| |s m e]; try discriminate;
    destruct lo as [s'|s'| |s' m' e']; try discriminate.
  - reflexivity.
  - destruct s'; [reflexivity|].
    exfalso. pose proof (F2Q_finite_pos m' e'). simpl F2Q at 2 in Hq. lra.
  - destruct s; [|reflexivity].
    exfalso. pose proof (F2Q_neg_finite m e). simpl F2Q at 1 in Hq. lra.
  - change (fadd (S754_finite s m e) (fneg (S754_finite s' m' e')))
      with (Q2F (F2Q (S754_finite s m e) + F2Q (fneg (S754_finite s' m' e')))).
    pose proof (F2Q_fneg (S754_finite s' m' e')) as Hf.
    set (q := F2Q (S754_finite s m e) + F2Q (fneg (S754_finite s' m' e'))).
    assert (Hq' : 0 <= q) by (unfold q; lra).
    destruct (Qle_lt_or_eq _ _ Hq') as [Hpos|Hz].
    + apply Q2F_pos_upward. exact Hpos.
    + rewrite (Q2F_zero (Qeq_sym _ _ Hz)). reflexivity.
Qed.

Lemma tenth_value : Q2F (1 # 10) = S754_finite false 7205759403792794 (-56).
Proof. vm_compute. reflexivity. Qed.

Lemma fmul_tenth_upward (t : float) :
  upward t = true -> upward (fmul (Q2F (1 # 10)) t) = true.
Proof.
  rewrite tenth_value. intros Ht.
  destruct t as [s'|[]| |[] m' e']; try discriminate; try reflexivity.
  apply Q2F_pos_upward.
  pose proof (F2Q_finite_pos 7205759403792794 (-56)).
  pose proof (F2Q_finite_pos m' e'). nra.
Qed.

(** The margins of the vertical line: one tenth of the range below the
    smallest and above the largest value. *)
Lemma margins (lo hi : float) :
  canon lo = true -> canon hi = true -> fle lo hi = true ->
  let t := fmul (Q2F (1 # 10)) (fsub hi lo) in
  fle (fsub lo t) lo = true /\ fle hi (fadd hi t) = true.
Proof.
  intros Hl Hh Hle t.
  assert (Ht : upward t = true)
    by (apply fmul_tenth_upward; apply fsub_upward; assumption).
  split; [apply fsub_down|apply fadd_up]; assumption.
Qed.

End SignedRounding.

(** ** The values that are collected and plotted *)

Module PlotFacts.

Import F64 Text Numpy Files Analyze Spec Samples Shape.
Import OrderFacts NumpyFacts FilesFacts AnalyzeFacts SamplesFacts.
Import RegexFacts RoundFacts GridFacts RangeFacts SignedRounding.
Local Open Scope string_scope.

Lemma is_finite_not_nan x : is_finite x = true -> is_nan x = false.
Proof. destruct x; simpl; auto; discriminate. Qed.

Lemma finite_all_not_nan (l : list float) :
  forallb is_finite l = true -> forallb (fun x => negb (is_nan x)) l = true.
Proof.
  intros H. apply forallb_forall. intros x Hx.
  rewrite (is_finite_not_nan _ (proj1 (forallb_forall _ _) H x Hx)).
  reflexivity.
Qed.

(** An entry of [a[idx]] that is not NaN is an entry of [a]. *)
Lemma take_idx_in (a : list float) (idx : list nat) (x : float) :
  In x (take_idx a idx) -> is_nan x = false -> In x a.
Proof.
  unfold take_idx. intros H Hx. apply in_map_iff in H.
  destruct H as (i & <- & _).
  destruct (Nat.lt_ge_cases i (List.length a)) as [Hi|Hi].
  - apply nth_In. exact Hi.
  - rewrite nth_overflow in Hx by exact Hi. discriminate.
Qed.

Lemma round_pos_sign s n d : sign_of (round_pos s n d) = s.
Proof.
  unfold round_pos.
  destruct (scale (Zpos n) (Zpos d) (cexp n d)) as [N D].
  destruct (rne_div N D =? 2 ^ prec)%Z.
  - destruct (2 ^ (prec - 1))%Z; try reflexivity.
    destruct (_ <=? _)%Z; reflexivity.
  - destruct (rne_div N D); try reflexivity.
    destruct (_ <=? _)%Z; reflexivity.
Qed.

Lemma signed_sign s n d : sign_of (signed s n d) = s.
Proof. destruct n; try reflexivity. apply round_pos_sign. Qed.

(** [float] of a text of digits and points is not negative. *)
Lemma py_float_sign (g : string) (v : float) :
  forallb_str cls_digit_dot g = true -> py_float g = Some v ->
  sign_of v = false.
Proof.
  intros Hcls. unfold py_float.
  assert (Hg : match g with
               | String "-" r => (true, r)
               | _ => (false, g)
               end = (false, g)).
  { destruct g as [|c r]; auto.
    cbn [forallb_str] in Hcls. apply andb_prop in Hcls. destruct Hcls as [Hc _].
    destruct c as [[] [] [] [] [] [] [] []]; try reflexivity. discriminate Hc. }
  rewrite Hg.
  destruct (drop (span is_digit g) g) as [|c fp].
  - destruct (span is_digit g =? 0)%nat; [discriminate|].
    intros H. injection H as <-. apply signed_sign.
  - destruct (Ascii.eqb c ".") eqn:Ec.
    + apply Ascii.eqb_eq in Ec. subst c.
      destruct (_ && _); [|discriminate].
      intros H. injection H as <-. apply signed_sign.
    + destruct c as [[] [] [] [] [] [] [] []]; try discriminate.
Qed.

Lemma Q2F_not_nan q : is_nan (Q2F q) = false.
Proof.
  unfold Q2F. destruct (Qnum q); [reflexivity| |]; apply round_pos_not_nan.
Qed.

Lemma ry_to_ev_value :
  RY_TO_EV = S754_finite false 7659324309854137 (-49).
Proof. vm_compute. reflexivity. Qed.

(** The conversion to eV makes no NaN and keeps the sign. *)
Lemma to_ev_facts (v : float) :
  is_nan v = false ->
  is_nan (fmul v RY_TO_EV) = false
  /\ sign_of (fmul v RY_TO_EV) = sign_of v.
Proof.
  rewrite ry_to_ev_value. intros Hv.
  destruct v as [s|s| |s m e]; try discriminate;
    try (split; [reflexivity|simpl; destruct s; reflexivity]).
  split; [apply Q2F_not_nan|].
  change (fmul (S754_finite s m e) (S754_finite false 7659324309854137 (-49)))
    with (Q2F (F2Q (S754_finite s m e)
               * F2Q (S754_finite false 7659324309854137 (-49)))).
  pose proof (F2Q_finite_pos 7659324309854137 (-49)) as Hc.
  destruct s.
  - pose proof (F2Q_neg_finite m e) as Hn.
    assert (Hq : (F2Q (S754_finite true m e)
                  * F2Q (S754_finite false 7659324309854137 (-49)) < 0)%Q) by nra.
    destruct (Q2F_neg Hq) as (n & _ & -> & _). apply round_pos_sign.
  - pose proof (F2Q_finite_pos m e) as Hp.
    assert (Hq : (0 < F2Q (S754_finite false m e)
                      * F2Q (S754_finite false 7659324309854137 (-49)))%Q) by nra.
    destruct (Q2F_pos Hq) as (n & _ & ->). apply round_pos_sign.
Qed.

(** X14: What the loop collects: a lattice parameter is never NaN and never
    negative (the pattern of the file names has no minus sign); an energy
    in eV is never NaN and has the sign of the energy in Ry it was
    converted from. *)
Theorem collected_values (f : fs) (l : list string) (rows : list row) :
  collect f l = Ok rows ->
  Forall (fun row =>
            is_nan (row_param row) = false
            /\ sign_of (row_param row) = false
            /\ is_nan (row_energy row) = false
            /\ exists filename energy,
                 In filename l
                 /\ extract_energy f filename = Ok (Some energy)
                 /\ row_energy row = fmul energy RY_TO_EV
                 /\ sign_of (row_energy row) = sign_of energy) rows.
Proof.
  intros Hc. pose proof (@collect_rows _ _ _ Hc) as Hrows.
  eapply Forall_impl; [|exact Hrows]. cbv beta.
  intros row (p & g & en & Hp & Hg & Hpar & Hen & Heq).
  destruct (@re_search_filename _ _ Hg) as [Hcls _].
  assert (Nen : is_nan en = false).
  { unfold extract_energy in Hen.
    destruct (lookup p f); [|discriminate].
    destruct (re_search energy_re s) as [g'|]; [|discriminate].
    destruct (py_float g') as [v|] eqn:Ev; [|discriminate].
    injection Hen as <-. exact (@py_float_not_nan _ _ Ev). }
  destruct (to_ev_facts _ Nen) as [N1 S1].
  split; [exact (@py_float_not_nan _ _ Hpar)|].
  split; [exact (@py_float_sign _ _ Hcls Hpar)|].
  rewrite Heq. split; [exact N1|].
  exists p, en. auto.
Qed.

Lemma collected_values_witness :
  collect three_files (output_files three_files) = Ok three_rows
  /\ Forall (fun row => is_nan (row_param row) = false
                        /\ sign_of (row_param row) = false
                        /\ is_nan (row_energy row) = false) three_rows.
Proof.
  destruct three_collect as [Hc _]. split; [exact Hc|].
  eapply Forall_impl; [|exact (@collected_values _ _ _ Hc)].
  cbv beta. intros row (H1 & H2 & H3 & _). auto.
Defined.

Lemma fsub_self (x : float) : canon x = true -> fsub x x = S754_zero false.
Proof.
  intros Hx. unfold fsub.
  destruct x as [[]|s| |s m e]; try discriminate; try reflexivity.
  change (fadd (S754_finite s m e) (fneg (S754_finite s m e)))
    with (Q2F (F2Q (S754_finite s m e) + F2Q (fneg (S754_finite s m e)))).
  apply Q2F_zero. rewrite (F2Q_fneg (S754_finite s m e)). ring.
Qed.

Lemma nonneg_canon (x : float) :
  nonneg x = true -> is_finite x = true -> canon x = true -> nonneg x = true.
Proof. auto. Qed.

(** A grid from a number to itself is that number a thousand times. *)
Lemma linspace_flat (a : float) :
  nonneg a = true -> canon a = true ->
  Forall (fun y => y = a) (linspace a a 1000).
Proof.
  intros Hn Hc. rewrite linspace_1000, (@fsub_self a Hc).
  change (fdiv (S754_zero false) (Z2F 999)) with (S754_zero false).
  change (feq (S754_zero false) (S754_zero false)) with true. cbv iota.
  apply Forall_app. split; [|repeat constructor].
  apply Forall_forall. intros y Hy. apply in_map_iff in Hy.
  destruct Hy as (i & <- & Hi). apply in_seq in Hi.
  rewrite (@fmul_zero_r _ (@arange_div i ltac:(lia))).
  apply fadd_zero_l. exact Hn.
Qed.

Lemma argmin_loop_flat (v : float) (l : list float) : forall i,
  is_nan v = false -> Forall (fun y => y = v) l ->
  argmin_loop l i v 0 = 0%nat.
Proof.
  induction l as [|x l IH]; intros i Hv Hl; simpl; [reflexivity|].
  inversion Hl as [|? ? Hx Hl']; subst.
  rewrite (fle_refl _ Hv). apply IH; assumption.
Qed.

Lemma argmin_flat (v : float) (l : list float) :
  Forall (fun y => y = v) l -> argmin l = 0%nat.
Proof.
  intros Hl. destruct l as [|x l]; [reflexivity|].
  inversion Hl as [|? ? Hx Hl']; subst. unfold argmin.
  destruct (is_nan v) eqn:Hv; [reflexivity|].
  apply argmin_loop_flat; assumption.
Qed.

Lemma collected_shapes (f : fs) (l : list string) (rows : list row) (row : row) :
  collect f l = Ok rows -> In row rows ->
  (is_finite (row_param row) = true ->
   nonneg (row_param row) = true /\ canon (row_param row) = true)
  /\ (is_finite (row_energy row) = true -> canon (row_energy row) = true).
Proof.
  intros Hc Hin. pose proof (@collect_rows _ _ _ Hc) as Hrows.
  destruct (proj1 (Forall_forall _ _) Hrows row Hin)
    as (p & g & en & _ & Hg & Hpar & _ & Heq).
  destruct (@re_search_filename _ _ Hg) as [Hcls _].
  pose proof (@py_float_sign _ _ Hcls Hpar) as Hs.
  split.
  - intros Hf.
    assert (Hcan : canon (row_param row) = true).
    { revert Hpar Hf. generalize (row_param row). intros v Hpar Hf.
      unfold py_float in Hpar.
      destruct (match g with
                | String "-" r => (true, r)
                | _ => (false, g)
                end) as [neg body].
      assert (Hsg : forall n d, v = signed neg n d -> canon v = true).
      { intros n d ->. destruct n; try reflexivity;
          apply round_pos_canon; exact Hf. }
      destruct (drop (span is_digit body) body) as [|c fp].
      - destruct (span is_digit body =? 0)%nat; [discriminate|].
        injection Hpar as Hv. eapply Hsg. symmetry. exact Hv.
      - destruct (Ascii.eqb c ".") eqn:Ec.
        + apply Ascii.eqb_eq in Ec. subst c.
          destruct (_ && _); [|discriminate].
          injection Hpar as Hv. eapply Hsg. symmetry. exact Hv.
        + destruct c as [[] [] [] [] [] [] [] []]; try discriminate. }
    split; [|exact Hcan].
    destruct (row_param row) as [[]|[]| |[] m e]; try discriminate; reflexivity.
  - rewrite Heq. apply fmul_canon.
Qed.

Section Runs.

Variable polyfit : list float -> list float -> nat -> option (list float).
Variable argsort : list float -> list nat.

Lemma finished_margins (e : env) (r : report) :
  analyze polyfit argsort e = Finished r ->
  y_bottom r
  = fsub (amin (energies r))
      (fmul (Q2F (1 # 10)) (fsub (amax (energies r)) (amin (energies r))))
  /\ y_top r
     = fadd (amax (energies r))
         (fmul (Q2F (1 # 10)) (fsub (amax (energies r)) (amin (energies r)))).
Proof.
  intros H.
  destruct (@analyze_finished polyfit argsort e r H) as
    (Hc & Hne & Hlp & Hen & Hfit & _ & _ & _ & _ & _ & _ & Hdir & _).
  rewrite Hlp, Hen in Hfit.
  destruct (@run_ends polyfit argsort e (collected r) (coeffs r) Hc Hne Hfit Hdir)
    as (r' & Hr' & _ & Hb & Ht).
  rewrite H in Hr'. injection Hr' as <-. split; assumption.
Qed.

Lemma finished_energies (e : env) (r : report) (x : float) :
  analyze polyfit argsort e = Finished r ->
  In x (energies r) -> is_finite x = true -> canon x = true.
Proof.
  intros H Hin Hf.
  destruct (@analyze_finished polyfit argsort e r H) as
    (Hc & _ & _ & Hen & _).
  rewrite Hen in Hin.
  apply take_idx_in in Hin; [|apply is_finite_not_nan; exact Hf].
  apply in_map_iff in Hin. destruct Hin as (row & <- & Hrow).
  pose proof (@collect_rows _ _ _ Hc) as Hrows.
  destruct (proj1 (Forall_forall _ _) Hrows row Hrow)
    as (p & g & en & _ & _ & _ & _ & Heq).
  rewrite Heq in *. apply fmul_canon. exact Hf.
Qed.

(** X15: The dashed vertical line spans the data: when the energies are finite,
    its lower end is at or below every energy of the plot and its upper
    end at or above, the rounding of the three operations that compute
    each end included. *)
Theorem line_spans_data (e : env) (r : report) :
  analyze polyfit argsort e = Finished r ->
  forallb is_finite (energies r) = true ->
  Forall (fun x => fle (y_bottom r) x = true /\ fle x (y_top r) = true)
    (energies r).
Proof.
  intros H Hfin.
  destruct (@finished_margins e r H) as [Hb Ht].
  destruct (energies r) as [|x0 l0] eqn:El; [constructor|].
  assert (Hne : x0 :: l0 <> []) by discriminate.
  rewrite <- El in *.
  pose proof (finite_all_not_nan _ Hfin) as Hnn.
  destruct (@amin_spec _ Hne Hnn) as [Imin Hmin].
  destruct (@amax_spec _ Hne Hnn) as [Imax Hmax].
  assert (Cmin : canon (amin (energies r)) = true).
  { apply (@finished_energies e r _ H Imin).
    exact (proj1 (forallb_forall _ _) Hfin _ Imin). }
  assert (Cmax : canon (amax (energies r)) = true).
  { apply (@finished_energies e r _ H Imax).
    exact (proj1 (forallb_forall _ _) Hfin _ Imax). }
  assert (Hle : fle (amin (energies r)) (amax (energies r)) = true)
    by exact (proj1 (Forall_forall _ _) Hmin _ Imax).
  destruct (@margins _ _ Cmin Cmax Hle) as [Mb Mt]. cbv zeta in Mb, Mt.
  rewrite <- Hb in Mb. rewrite <- Ht in Mt.
  apply Forall_forall. intros x Hx. split.
  - exact (fle_trans _ _ _ Mb (proj1 (Forall_forall _ _) Hmin x Hx)).
  - exact (fle_trans _ _ _ (proj1 (Forall_forall _ _) Hmax x Hx) Mt).
Qed.

(** X16: With a single completed calculation the analysis degenerates without
    any message: the grid is the one lattice parameter a thousand times,
    [argmin] returns index 0, so the "equilibrium" is that parameter
    whatever the fit is, and the vertical line of the plot has no
    height. *)
Theorem single_point_run (e : env) (r : report) (row : row) :
  argsort_spec argsort ->
  analyze polyfit argsort e = Finished r ->
  collected r = [row] ->
  is_finite (row_param row) = true ->
  is_finite (row_energy row) = true ->
  lattice_params r = [row_param row]
  /\ energies r = [row_energy row]
  /\ Forall (fun a => a = row_param row) (a_fine r)
  /\ min_idx r = 0%nat
  /\ a_eq r = row_param row
  /\ e_min r = polyval (poly1d (coeffs r)) (row_param row)
  /\ y_bottom r = row_energy row
  /\ feq (y_top r) (row_energy row) = true.
Proof.
  intros Hsort H Hrow Hfa Hfe.
  destruct (@analyze_finished polyfit argsort e r H) as
    (Hc & _ & Hlp & Hen & _ & Hgrid & Hfine & Hidx & Haeq & Hemin & _).
  destruct (@finished_margins e r H) as [Hb Ht].
  rewrite Hrow in *.
  destruct (@collected_shapes _ _ _ row Hc (or_introl eq_refl)) as [Hpa Hpe].
  destruct (Hpa Hfa) as [Hn Hca]. specialize (Hpe Hfe).
  cbn [map] in Hlp, Hen.
  set (a := row_param row) in *. set (en := row_energy row) in *.
  assert (Hidx0 : argsort [a] = [0%nat]).
  { destruct (Hsort [a]) as [Hperm _].
    - cbn [forallb]. rewrite (canon_not_nan _ Hca). reflexivity.
    - apply Permutation_sym in Hperm.
      exact (@Permutation_length_1_inv _ _ _ Hperm). }
  rewrite Hidx0 in Hlp, Hen. cbn in Hlp, Hen.
  rewrite Hlp in Hgrid. cbn [amin amax fold_left] in Hgrid.
  pose proof (@linspace_flat a Hn Hca) as Hflat. rewrite <- Hgrid in Hflat.
  assert (Hvals : Forall (fun y => y = polyval (poly1d (coeffs r)) a) (e_fine r)).
  { rewrite Hfine. apply Forall_map.
    eapply Forall_impl; [|exact Hflat]. cbv beta. intros y ->. reflexivity. }
  assert (Hmin : min_idx r = 0%nat)
    by (rewrite Hidx; exact (@argmin_flat _ _ Hvals)).
  assert (La : List.length (a_fine r) = 1000%nat)
    by (rewrite Hgrid; apply linspace_length).
  assert (Le : List.length (e_fine r) = 1000%nat)
    by (rewrite Hfine, length_map; exact La).
  assert (Ha0 : a_eq r = a).
  { rewrite Haeq, Hmin.
    apply (proj1 (Forall_forall _ _) Hflat). apply nth_In. lia. }
  assert (He0 : e_min r = polyval (poly1d (coeffs r)) a).
  { rewrite Hemin, Hmin.
    apply (proj1 (Forall_forall _ _) Hvals). apply nth_In. lia. }
  rewrite Hen in Hb, Ht. cbn [amin amax fold_left] in Hb, Ht.
  rewrite (@fsub_self en Hpe), tenth_value in Hb, Ht.
  change (fmul (S754_finite false 7205759403792794 (-56)) (S754_zero false))
    with (S754_zero false) in Hb, Ht.
  repeat (split; [assumption|]). split.
  - rewrite Hb. unfold fsub.
    destruct en as [[]|s| |s m e']; try discriminate; reflexivity.
  - rewrite Ht.
    destruct en as [[]|s| |s m e'] eqn:Een; try discriminate; try reflexivity.
    change (fadd (S754_finite s m e') (S754_zero false))
      with (S754_finite s m e').
    unfold feq. rewrite fcompare_lex by reflexivity.
    rewrite Z.compare_refl.
    destruct (Qcompare_spec (F2Q (S754_finite s m e')) (F2Q (S754_finite s m e')))
      as [_|Hlt|Hlt]; [reflexivity| |]; exfalso; lra.
Qed.

End Runs.

Lemma line_spans_data_witness :
  exists r,
    analyze fixed_fit insertion_argsort three_env = Finished r
    /\ forallb is_finite (energies r) = true
    /\ Forall (fun x => fle (y_bottom r) x = true /\ fle x (y_top r) = true)
         (energies r).
Proof.
  destruct three_runs as [r Hr]. exists r. split; [exact Hr|].
  destruct (@analyze_finished fixed_fit insertion_argsort three_env r Hr) as
    (Hc & _ & _ & Hen & _).
  destruct three_collect as [Hc3 _].
  assert (Hrows : collected r = three_rows) by congruence.
  assert (Hfin : forallb is_finite (energies r) = true).
  { rewrite Hen, Hrows. vm_compute. reflexivity. }
  split; [exact Hfin|].
  exact (@line_spans_data fixed_fit insertion_argsort three_env r Hr Hfin).
Defined.

Lemma single_point_run_witness :
  let e := mkEnv [("calculations/cu_a2.200.out", qe_output "-213.05")] true in
  exists r,
    analyze fixed_fit insertion_argsort e = Finished r
    /\ a_eq r = Q2F (22 # 10)
    /\ min_idx r = 0%nat
    /\ y_bottom r = fmul (Q2F (- (21305 # 100))) RY_TO_EV.
Proof.
  intros e.
  assert (Hrow : exists row,
             collect (files e) (output_files (files e)) = Ok [row]
             /\ row_param row = Q2F (22 # 10)
             /\ row_energy row = fmul (Q2F (- (21305 # 100))) RY_TO_EV
             /\ is_finite (row_param row) = true
             /\ is_finite (row_energy row) = true).
  { eexists. split; [vm_compute; reflexivity|].
    repeat split; vm_compute; reflexivity. }
  destruct Hrow as (row & Hc & Hpa & Hpe & Hfa & Hfe).
  destruct (@run_ends fixed_fit insertion_argsort e [row] _ Hc
              ltac:(discriminate) eq_refl eq_refl) as (r & Hr & _).
  exists r. split; [exact Hr|].
  destruct (@analyze_finished fixed_fit insertion_argsort e r Hr) as (Hc' & _).
  assert (Hrows : collected r = [row]) by congruence.
  destruct (@single_point_run fixed_fit insertion_argsort e r row
              insertion_argsort_spec Hr Hrows Hfa Hfe)
    as (_ & _ & _ & Hmin & Haeq & _ & Hb & _).
  rewrite <- Hpa, <- Hpe. auto.
Defined.

End PlotFacts.

(** ** Printing a number that was read from a name *)

Module NameText.

Import F64 Text Numpy Files Generate Analyze Spec Shape.
Import OrderFacts RoundFacts GridFacts SignedRounding FormatFacts.

Local Open Scope Z_scope.

(** The nearest integer to [N/D] is [K] when [N/D] is within a quarter of
    [K]. *)
Lemma rne_near (N D K : Z) :
  0 < D -> - D <= 4 * (N - K * D) <= D -> rne_div N D = K.
Proof.
  intros HD HK. pose proof (rne_div_err N HD) as HR.
  set (R := rne_div N D) in *. nia.
Qed.

Local Open Scope Q_scope.

(** The integer [format_f] prints and [py_round] converts: the nearest
    one to the value of the float times [10^nd]. *)
Lemma format_value (nd : nat) (s : bool) (m : positive) (e : Z) :
  exists N D : Z,
    (0 < D)%Z /\ (0 <= rne_div N D)%Z
    /\ inject_Z N
       == F2Q (S754_finite false m e) * inject_Z (10 ^ Z.of_nat nd) * inject_Z D
    /\ format_f nd (S754_finite s m e) = (sign_str s ++ fixed nd (rne_div N D))%string
    /\ py_round nd (S754_finite s m e)
       = signed s (rne_div N D) (Z.to_pos (10 ^ Z.of_nat nd)).
Proof.
  unfold format_f, py_round.
  assert (Hp : (0 < 10 ^ Z.of_nat nd)%Z) by (apply Z.pow_pos_nonneg; lia).
  destruct (Z.pos m * 10 ^ Z.of_nat nd)%Z as [|n|n] eqn:En; try lia.
  pose proof (scale_spec n 1 (- e)) as Hs.
  destruct (scale (Z.pos n) 1 (- e)) as [N D].
  destruct Hs as (HD & HN & Hv).
  exists N, D. split; [exact HD|]. split; [apply rne_div_ge; lia|].
  split; [|split; reflexivity].
  assert (Hn : inject_Z (Z.pos n)
               == inject_Z (Z.pos m) * inject_Z (10 ^ Z.of_nat nd))
    by (rewrite <- inject_Z_mult, En; reflexivity).
  rewrite Hv, F2Q_finite, pow2_opp.
  change (Z.pos n # 1) with (inject_Z (Z.pos n)). rewrite Hn.
  field. apply pow2_neq_0.
Qed.

Lemma Qabs_F2Q (s : bool) (m : positive) (e : Z) :
  Qabs (F2Q (S754_finite s m e)) == F2Q (S754_finite false m e).
Proof.
  destruct s.
  - rewrite (F2Q_true_false m e), Qabs_opp.
    apply Qabs_pos. apply Qlt_le_weak. apply F2Q_finite_pos.
  - apply Qabs_pos. apply Qlt_le_weak. apply F2Q_finite_pos.
Qed.

Lemma round_pos_with_sign (s : bool) (n d m : positive) (e : Z) :
  round_pos false n d = S754_finite false m e ->
  round_pos s n d = S754_finite s m e.
Proof.
  intros H. destruct s; [|exact H]. rewrite round_pos_flip, H. reflexivity.
Qed.

Lemma tiny_bound : pow2 (-1022) <= 1 # 1000000000000000.
Proof. unfold Qle. vm_compute. discriminate. Qed.

Lemma pow2_50 : F2Q (S754_finite false 1 50) == inject_Z (2 ^ 50).
Proof. rewrite F2Q_finite, pow2_Z by lia. ring. Qed.

(** X17: Printing with [nd] decimals the float that was read from a text with
    [nd] decimals gives the text back: rounding to the nearest float does
    not disturb the digits as long as there are at most fifteen of
    them. *)
Theorem format_round_stable (nd : nat) (a : float) :
  (nd <= 15)%nat -> is_finite a = true ->
  Qabs (F2Q a) * inject_Z (10 ^ Z.of_nat nd) <= inject_Z (10 ^ 15) ->
  format_f nd (py_round nd a) = format_f nd a.
Proof.
  intros Hnd Hfin Hbound.
  destruct a as [s0| | |s m e]; try discriminate; [reflexivity|].
  rewrite (Qabs_F2Q s m e) in Hbound.
  assert (HP : (0 < 10 ^ Z.of_nat nd <= 10 ^ 15)%Z).
  { split; [apply Z.pow_pos_nonneg; lia|].
    apply Z.pow_le_mono_r; lia. }
  set (P := (10 ^ Z.of_nat nd)%Z) in *.
  destruct (format_value nd s m e) as (N & D & HD & HR0 & Hv & Hfmt & Hrnd).
  fold P in Hv, Hrnd. rewrite Hfmt, Hrnd. clear Hfmt Hrnd.
  assert (HR15 : (rne_div N D <= 10 ^ 15)%Z).
  { apply rne_div_le; [exact HD|].
    rewrite Zle_Qle, inject_Z_mult, Hv.
    apply Qmult_le_compat_r; [exact Hbound|].
    rewrite <- (Zle_Qle 0). lia. }
  destruct (rne_div N D) as [|p|p] eqn:ER; [reflexivity| |lia].
  cbn [signed].
  set (d := Z.to_pos P).
  assert (Hd : Z.pos d = P) by (unfold d; apply Z2Pos.id; lia).
  set (q := Z.pos p # d).
  assert (HqP : q * inject_Z P == inject_Z (Z.pos p)).
  { unfold q. rewrite <- Hd. unfold Qeq, inject_Z. simpl. lia. }
  assert (Hq1 : pow2 (-1022) <= q).
  { eapply Qle_trans; [exact tiny_bound|].
    unfold q, Qle. simpl. rewrite Hd.
    change (Z.pos 1000000000000000) with (10 ^ 15)%Z. nia. }
  assert (Hq2 : q <= F2Q (S754_finite false 1 50)).
  { rewrite pow2_50. apply Qle_trans with (inject_Z (Z.pos p)).
    - unfold q, Qle, inject_Z. simpl. nia.
    - rewrite <- Zle_Qle. etransitivity; [exact HR15|]. vm_compute. discriminate. }
  destruct (@Q2F_normal q (S754_finite false 1 50) Hq1 Hq2 eq_refl)
    as (m' & e' & Hx & Hlo & Hhi).
  rewrite Hx in Hlo, Hhi.
  change (Q2F q) with (round_pos false p d) in Hx.
  rewrite (@round_pos_with_sign s _ _ _ _ Hx).
  destruct (format_value nd s m' e') as (N2 & D2 & HD2 & _ & Hv2 & -> & _).
  fold P in Hv2.
  do 2 f_equal. apply rne_near; [exact HD2|].
  assert (HDq : 0 < inject_Z D2) by (rewrite <- (Zlt_Qlt 0); exact HD2).
  assert (HPq : 0 < inject_Z P) by (rewrite <- (Zlt_Qlt 0); lia).
  assert (HRq : inject_Z (Z.pos p) <= inject_Z (10 ^ 15))
    by (rewrite <- Zle_Qle; exact HR15).
  assert (Hp0 : 0 < inject_Z (Z.pos p)) by (rewrite <- (Zlt_Qlt 0); lia).
  unfold Z.sub. rewrite !Zle_Qle.
  rewrite !inject_Z_mult, !inject_Z_plus, !inject_Z_opp, !inject_Z_mult, Hv2.
  revert Hlo Hhi HqP HDq HPq HRq Hp0. eps_const.
  change (inject_Z (10 ^ 15)) with 1000000000000000.
  change (inject_Z 4) with 4.
  generalize (F2Q (S754_finite false m' e')) (inject_Z D2) (inject_Z P)
             (inject_Z (Z.pos p)) q.
  intros F D' P' R q' Hlo Hhi HqP HDq HPq HRq Hp0.
  assert (H1 : F * P' <= R * (1 + (1 # 9007199254740992))) by nra.
  assert (H2 : R * (1 - (1 # 9007199254740992)) <= F * P') by nra.
  assert (H3 : 4 * (F * P' - R) <= 1) by nra.
  assert (H4 : -1 <= 4 * (F * P' - R)) by nra.
  split; nra.
Qed.

Lemma format_round_stable_witness :
  format_f 3 (Q2F (22 # 10)) = "2.200"%string
  /\ format_f 3 (py_round 3 (Q2F (22 # 10))) = format_f 3 (Q2F (22 # 10)).
Proof.
  split; [vm_compute; reflexivity|].
  apply format_round_stable.
  - lia.
  - vm_compute. reflexivity.
  - unfold Qle. vm_compute. discriminate.
Defined.

End NameText.

(** ** The polynomial that is evaluated *)

Module PolyFacts.

Import F64 Numpy Spec.

Lemma feq_zero_inv (k : float) :
  feq k (S754_zero false) = true -> exists s, k = S754_zero s.
Proof.
  destruct k as [s|[]| |s m e]; try discriminate; [eauto|].
  unfold feq, fcompare. intros H. exfalso.
  destruct (Qcompare_spec (F2Q (S754_finite s m e)) (F2Q (S754_zero false)))
    as [E|E|E]; try discriminate.
  simpl F2Q at 2 in E.
  destruct s.
  - pose proof (SignedRounding.F2Q_neg_finite m e) as Hn.
    rewrite E in Hn. discriminate.
  - pose proof (RoundFacts.F2Q_finite_pos m e) as Hp.
    rewrite E in Hp. discriminate.
Qed.

Lemma fmul_zero_finite (s : bool) (x : float) :
  is_finite x = true -> exists t, fmul (S754_zero s) x = S754_zero t.
Proof. destruct x; try discriminate; intros _; simpl; eauto. Qed.

(** One step of Horner's rule from a zero: a coefficient that is no zero
    replaces the accumulator. *)
Lemma horner_step_zero (s : bool) (x k : float) :
  is_finite x = true -> feq k (S754_zero false) = false ->
  fadd (fmul (S754_zero s) x) k = k.
Proof.
  intros Hx Hk. destruct (fmul_zero_finite s x Hx) as [t ->].
  destruct k as [s'|s'| |s' m e]; try reflexivity.
  discriminate Hk.
Qed.

Lemma horner_trim (x : float) (c : list float) : forall s,
  is_finite x = true ->
  (trim_zeros c <> []
   /\ fold_left (fun y pv => fadd (fmul y x) pv) c (S754_zero s)
      = fold_left (fun y pv => fadd (fmul y x) pv) (trim_zeros c)
          (S754_zero false))
  \/ (trim_zeros c = []
      /\ exists t, fold_left (fun y pv => fadd (fmul y x) pv) c (S754_zero s)
                   = S754_zero t).
Proof.
  induction c as [|k c IH]; intros s Hx.
  - right. split; [reflexivity|]. simpl. eauto.
  - cbn [trim_zeros fold_left].
    destruct (feq k (S754_zero false)) eqn:Ek.
    + destruct (feq_zero_inv _ Ek) as [s' ->].
      destruct (fmul_zero_finite s x Hx) as [t Ht].
      rewrite Ht. cbn [fadd].
      apply IH. exact Hx.
    + left. split; [discriminate|].
      cbn [fold_left].
      rewrite !horner_step_zero by assumption. reflexivity.
Qed.

(** X18: [np.poly1d] drops leading zero coefficients before the polynomial is
    evaluated; at a finite point this changes nothing of the value that
    Horner's rule gives on the coefficients [np.polyfit] returned, except
    that the polynomial whose coefficients are all zeros evaluates to
    [+0.0] where the untrimmed rule can give [-0.0]. *)
Theorem poly1d_keeps_values (c : list float) (x : float) :
  is_finite x = true ->
  polyval (poly1d c) x = polyval c x
  \/ (trim_zeros c = []
      /\ polyval (poly1d c) x = S754_zero false
      /\ exists s, polyval c x = S754_zero s).
Proof.
  intros Hx. unfold polyval, poly1d.
  destruct (@horner_trim x c false Hx) as [[Hne H]|[Hnil [t H]]].
  - left. rewrite H. destruct (trim_zeros c); [congruence|reflexivity].
  - right. split; [exact Hnil|]. rewrite Hnil, H. split; [|eauto].
    cbn [fold_left].
    destruct (fmul_zero_finite false x Hx) as [t' ->].
    destruct t'; reflexivity.
Qed.

Lemma poly1d_keeps_values_witness :
  let c := [S754_zero false; S754_zero true; Z2F 1; Z2F (-5); Q2F (13 # 4)] in
  poly1d c = [Z2F 1; Z2F (-5); Q2F (13 # 4)]
  /\ (polyval (poly1d c) (Q2F (25 # 10)) = polyval c (Q2F (25 # 10))
      \/ (trim_zeros c = []
          /\ polyval (poly1d c) (Q2F (25 # 10)) = S754_zero false
          /\ exists s, polyval c (Q2F (25 # 10)) = S754_zero s)).
Proof.
  intros c. split; [vm_compute; reflexivity|].
  apply poly1d_keeps_values. vm_compute. reflexivity.
Defined.

End PolyFacts.

(** ** The equation of state *)

Module EosFacts.

Import F64 Spec Eos.
Import OrderFacts RoundFacts SignedRounding.

Local Open Scope Z_scope.

(** Rounding the rational 1, however it is written. *)
Lemma round_pos_one (d : positive) : round_pos false d d = Z2F 1.
Proof.
  assert (Hl : ilog2 d d = 0).
  { unfold ilog2. rewrite Z.sub_diag. unfold scale.
    change (0 <=? 0) with true. cbv iota.
    change (2 ^ 0) with 1. rewrite Z.mul_1_r, Z.leb_refl. reflexivity. }
  assert (Hc : cexp d d = -52).
  { unfold cexp. rewrite Hl. reflexivity. }
  unfold round_pos. rewrite Hc. unfold scale.
  change (0 <=? -52) with false. cbv iota.
  change (2 ^ (- -52)) with (2 ^ 52).
  unfold rne_div.
  rewrite (Z.mul_comm (Z.pos d) (2 ^ 52)).
  rewrite Z.div_mul, Z.mod_mul by discriminate.
  change (2 * 0) with 0. change (0 ?= Z.pos d) with Lt. cbv iota.
  reflexivity.
Qed.

Lemma Q2F_one (q : Q) : (q == 1)%Q -> Q2F q = Z2F 1.
Proof.
  destruct q as [n d]. unfold Qeq. simpl. intros H.
  assert (n = Z.pos d) by lia. subst n.
  apply round_pos_one.
Qed.

Lemma fdiv_self (x : float) :
  is_finite x = true -> feq x (S754_zero false) = false ->
  fdiv x x = Z2F 1.
Proof.
  destruct x as [[]| | |s m e]; try discriminate. intros _ _.
  change (fdiv (S754_finite s m e) (S754_finite s m e))
    with (Q2F (F2Q (S754_finite s m e) / F2Q (S754_finite s m e))).
  apply Q2F_one. field.
  destruct s.
  - pose proof (F2Q_neg_finite m e) as H. intros E. rewrite E in H. discriminate.
  - pose proof (F2Q_finite_pos m e) as H. intros E. rewrite E in H. discriminate.
Qed.

Section Pow.

Variable libm_pow : float -> float -> float * bool.

Lemma pow_one : float_pow libm_pow (Z2F 1) (fdiv (Z2F 2) (Z2F 3)) = Real (Z2F 1).
Proof. vm_compute. reflexivity. Qed.

Lemma pow_zero_two :
  float_pow libm_pow (fsub (Z2F 1) (Z2F 1)) (Z2F 2) = Real (S754_zero false).
Proof. vm_compute. reflexivity. Qed.

Lemma fadd_zero_feq (x : float) (t : bool) :
  is_nan x = false ->
  feq (fadd x (S754_zero t)) x = true
  /\ (feq x (S754_zero false) = false -> fadd x (S754_zero t) = x).
Proof.
  intros Hx. destruct x as [s|s| |s m e]; try discriminate.
  - split; [reflexivity|discriminate].
  - split; [destruct s; reflexivity|reflexivity].
  - split; [|reflexivity].
    change (fadd (S754_finite s m e) (S754_zero t)) with (S754_finite s m e).
    unfold feq. rewrite fcompare_lex by reflexivity.
    rewrite Z.compare_refl.
    destruct (Qcompare_spec (F2Q (S754_finite s m e)) (F2Q (S754_finite s m e)))
      as [_|Hlt|Hlt]; [reflexivity| |]; exfalso; revert Hlt; apply Qlt_irrefl.
Qed.

Lemma fmul_finite_zero (x : float) (t : bool) :
  is_finite x = true -> exists u, fmul x (S754_zero t) = S754_zero u.
Proof. destruct x; try discriminate; intros _; simpl; eauto. Qed.

(** X19: At the equilibrium volume the equation of state gives the equilibrium
    energy: [birch_murnaghan(V0, E0, V0, B0, B0')] compares equal to [E0]
    (and is [E0] itself unless [E0] is a zero), for every platform [pow],
    provided the prefactor [9*V0*B0/16] does not overflow and [B0'] is
    finite; otherwise the product with the vanishing strain is NaN. *)
Theorem birch_murnaghan_at_V0 (V0 E0 B0 B0_prime : float) :
  is_finite V0 = true -> feq V0 (S754_zero false) = false ->
  is_finite (fdiv (fmul (fmul (Z2F 9) V0) B0) (Z2F 16)) = true ->
  is_finite B0_prime = true -> is_nan E0 = false ->
  exists E,
    birch_murnaghan libm_pow V0 E0 V0 B0 B0_prime = Real E
    /\ feq E E0 = true
    /\ (feq E0 (S754_zero false) = false -> E = E0).
Proof.
  intros HV HV0 HC HB HE.
  unfold birch_murnaghan, float_div. rewrite HV0, (@fdiv_self V0 HV HV0).
  rewrite pow_one, pow_zero_two.
  change (fsub (Z2F 6) (fmul (Z2F 4) (Z2F 1))) with (Z2F 2).
  change (fsub (Z2F 1) (Z2F 1)) with (S754_zero false).
  destruct (@fmul_finite_zero B0_prime false HB) as [u ->].
  change (fadd (Z2F 2) (S754_zero u)) with (Z2F 2).
  change (fmul (S754_zero false) (Z2F 2)) with (S754_zero false).
  destruct (@fmul_finite_zero _ false HC) as [t ->].
  destruct (@fadd_zero_feq E0 t HE) as [H1 H2].
  eexists. split; [reflexivity|]. split; assumption.
Qed.




End Pow.

Lemma birch_murnaghan_at_V0_witness :
  exists E,
    birch_murnaghan (fun x _ => (x, false))
      (Z2F 10) (Q2F (- (35 # 10))) (Z2F 10) (Q2F (12 # 10)) (Q2F (45 # 10))
    = Real E
    /\ E = Q2F (- (35 # 10)).
Proof.
  destruct (@birch_murnaghan_at_V0 (fun x _ => (x, false))
              (Z2F 10) (Q2F (- (35 # 10))) (Q2F (12 # 10)) (Q2F (45 # 10)))
    as (E & HE & _ & Heq); try (vm_compute; reflexivity).
  exists E. split; [exact HE|]. apply Heq. vm_compute. reflexivity.
Defined.


End EosFacts.

(** ** From the generator to the analysis, and the analysis again *)

Module PipelineFacts.

Import F64 Text Numpy Files Generate Analyze Spec Samples RunSpec.
Import FilesFacts GenerateFacts AnalyzeFacts SamplesFacts Determinism.
Import RegexFacts RangeFacts VisitFacts FormatFacts.
Local Open Scope string_scope.

Lemma insert_head (x : string) (l : list string) :
  Forall (fun y => String.leb x y = true) l -> insert x l = x :: l.
Proof.
  intros H. destruct l as [|y l]; [reflexivity|].
  inversion H as [|? ? Hy _]; subst. simpl. rewrite Hy. reflexivity.
Qed.

Lemma sorted_of_sorted (l : list string) :
  StronglySorted (fun a b => String.leb a b = true) l -> sorted l = l.
Proof.
  unfold sorted. induction 1 as [|x l Hs IH Hx]; simpl; [reflexivity|].
  rewrite IH. apply insert_head. exact Hx.
Qed.

(** The loop over the output files of a sweep, each of which holds an
    energy. *)
Lemma collect_sweep (f : fs) (E : float -> float) (sweep : list float) :
  Forall (fun a => is_finite a = true /\ sign_of a = false) sweep ->
  (forall a, In a sweep ->
             extract_energy f (output_filename a) = Ok (Some (E a))) ->
  exists rows,
    collect f (map output_filename sweep) = Ok rows
    /\ map row_param rows = map (py_round 3) sweep
    /\ map row_energy rows = map (fun a => fmul (E a) RY_TO_EV) sweep.
Proof.
  induction sweep as [|a sweep IH]; intros Hs HE.
  - exists []. repeat split.
  - inversion Hs as [|? ? [Hfin Hsign] Hs']; subst.
    destruct (IH Hs') as (rows & Hc & Hp & Hen).
    { intros b Hb. apply HE. right. exact Hb. }
    destruct (name_parse a Hfin Hsign) as (N & _ & _ & Hre & Hfl).
    cbn [map collect]. unfold visit.
    rewrite Hre, Hfl, (HE a (or_introl eq_refl)), Hc.
    eexists. split; [reflexivity|].
    cbn [map row_param row_energy]. rewrite Hp, Hen. split; reflexivity.
Qed.

(** X21: The two scripts fit together for every sweep: if the output files of
    the directory are those the generator names for a sweep of finite
    lattice parameters that are not negative, their names are in ascending
    order as the sweep lists them, and each holds an energy, then the loop
    collects one row per sweep value, in the order of the sweep, with the
    lattice parameter [round(a, 3)] and the energy converted to eV. *)
Theorem sweep_collected (f : fs) (E : float -> float) (sweep : list float) :
  Forall (fun a => is_finite a = true /\ sign_of a = false) sweep ->
  StronglySorted (fun x y => String.leb x y = true)
    (map output_filename sweep) ->
  Permutation (filter glob_match (map fst f)) (map output_filename sweep) ->
  (forall a, In a sweep ->
             extract_energy f (output_filename a) = Ok (Some (E a))) ->
  exists rows,
    collect f (output_files f) = Ok rows
    /\ map row_param rows = map (py_round 3) sweep
    /\ map row_energy rows = map (fun a => fmul (E a) RY_TO_EV) sweep.
Proof.
  intros Hs Hsorted Hperm HE.
  unfold output_files.
  rewrite (sorted_perm Hperm), (sorted_of_sorted Hsorted).
  apply collect_sweep; assumption.
Qed.

Lemma sweep_output_names :
  map output_filename lattice_params_ang =
  ["calculations/cu_a2.200.out"; "calculations/cu_a2.264.out";
   "calculations/cu_a2.327.out"; "calculations/cu_a2.391.out";
   "calculations/cu_a2.455.out"; "calculations/cu_a2.518.out";
   "calculations/cu_a2.582.out"; "calculations/cu_a2.645.out";
   "calculations/cu_a2.709.out"; "calculations/cu_a2.773.out";
   "calculations/cu_a2.836.out"; "calculations/cu_a2.900.out"].
Proof. vm_compute. reflexivity. Qed.

Lemma sweep_collected_witness :
  let f := map (fun a => (output_filename a, qe_output "-213.05"))
             lattice_params_ang in
  exists rows,
    collect f (output_files f) = Ok rows
    /\ map row_param rows = map (py_round 3) lattice_params_ang
    /\ map row_energy rows
       = map (fun _ => fmul (Q2F (- (21305 # 100))) RY_TO_EV) lattice_params_ang.
Proof.
  intros f.
  assert (H1 : Forall (fun a => is_finite a = true /\ sign_of a = false)
                 lattice_params_ang).
  { rewrite sweep_values.
    repeat (apply Forall_cons; [split; reflexivity|]). apply Forall_nil. }
  assert (H2 : StronglySorted (fun x y => String.leb x y = true)
                 (map output_filename lattice_params_ang)).
  { rewrite sweep_output_names.
    repeat (apply SSorted_cons;
            [|repeat (apply Forall_cons; [vm_compute; reflexivity|]);
              apply Forall_nil]).
    apply SSorted_nil. }
  assert (H3 : Permutation (filter glob_match (map fst f))
                 (map output_filename lattice_params_ang)).
  { replace (filter glob_match (map fst f))
      with (map output_filename lattice_params_ang)
      by (vm_compute; reflexivity).
    apply Permutation_refl. }
  assert (H4 : forall a, In a lattice_params_ang ->
                 extract_energy f (output_filename a)
                 = Ok (Some (Q2F (- (21305 # 100))))).
  { intros a Hin. rewrite sweep_values in Hin. cbn [In] in Hin.
    repeat (destruct Hin as [<-|Hin]; [vm_compute; reflexivity|]).
    contradiction. }
  exact (@sweep_collected f (fun _ => Q2F (- (21305 # 100)))
           lattice_params_ang H1 H2 H3 H4).
Defined.

Lemma filter_write (p t : string) (f : fs) :
  glob_match p = false ->
  filter glob_match (map fst (write_file p t f))
  = filter glob_match (map fst f).
Proof.
  intros Hp. induction f as [|[q c] f IH]; simpl.
  - rewrite Hp. reflexivity.
  - destruct (String.eqb q p) eqn:E; simpl; [reflexivity|].
    rewrite IH. reflexivity.
Qed.

Section Runs.

Variable polyfit : list float -> list float -> nat -> option (list float).
Variable argsort : list float -> list nat.

(** X22: The analysis changes nothing but its own plot and can be run again: a
    run that ends normally leaves every path other than
    [../assets/lattice_optimization.tex] as it was, and a second run in
    the directory it leaves extracts, fits, prints and plots the same (the
    plot written by the first run is not among the files that are
    read). *)
Theorem analysis_rerun (e : env) (r : report) :
  analyze polyfit argsort e = Finished r ->
  (forall q, q <> tikz_path -> lookup q (files_after r) = lookup q (files e))
  /\ same_results (analyze polyfit argsort e)
       (analyze polyfit argsort (mkEnv (files_after r) (assets_dir e))).
Proof.
  intros H.
  destruct (@analyze_finished polyfit argsort e r H) as
    (_ & _ & _ & _ & _ & _ & _ & _ & _ & _ & _ & _ & Hfiles).
  rewrite Hfiles. split.
  - intros q Hq. apply lookup_write_other. congruence.
  - apply analyze_same_collect; [|reflexivity].
    cbn [files]. unfold output_files at 2.
    rewrite (@filter_write tikz_path (tikz_code r) (files e) eq_refl).
    fold (output_files (files e)).
    symmetry. apply collect_ext.
    eapply Forall_impl; [|apply output_files_match].
    intros q Hq. cbv beta. apply lookup_write_other.
    intros <-. discriminate Hq.
Qed.

End Runs.

Lemma analysis_rerun_witness :
  exists r,
    analyze fixed_fit insertion_argsort three_env = Finished r
    /\ same_results (analyze fixed_fit insertion_argsort three_env)
         (analyze fixed_fit insertion_argsort (mkEnv (files_after r) true)).
Proof.
  destruct three_runs as [r Hr]. exists r. split; [exact Hr|].
  exact (proj2 (@analysis_rerun fixed_fit insertion_argsort three_env r Hr)).
Defined.

End PipelineFacts.
